(** * cupy.indexing.indexing: take, choose and diagonal

    A shallow embedding of [cupy/indexing/indexing.py] and of the part of the
    array library it calls, with the properties of its specification.

    Arrays are descriptors (buffer, offset, shape, strides, dtype) over a
    store of device buffers, so that views, aliasing and freshly allocated
    results are visible.  Calls run in a state-and-outcome monad: a call
    returns a value, raises a Python exception, or has undefined behaviour
    (a device read outside an array). *)

From Stdlib Require Import ZArith String Lia.
From stdpp Require Import base option list.

Local Open Scope Z_scope.

(** ** Outcomes and the store *)

Inductive dtype := bool_ | int32 | int64 | float32 | float64.

Inductive exn :=
| ValueError (msg : string)
| TypeError (msg : string)
| IndexError (msg : string).

Inductive outcome (A : Type) :=
| Ok (a : A)
| Raise (e : exn)
| Undefined.
Arguments Ok {A} a.
Arguments Raise {A} e.
Arguments Undefined {A}.

(** A device buffer is a list of elements; the store lists the buffers by
    allocation order, a buffer's identity being its position.  Elements are
    integers: the value of an element of integer dtype, an opaque payload for
    the other dtypes (the three functions only move elements of the source
    arrays around). *)
Abbreviation buffer := (list Z).
Abbreviation heap := (list (list Z)).

Definition M (A : Type) : Type := heap -> outcome A * heap.

Definition ret {A} (a : A) : M A := fun h => (Ok a, h).
Definition raise {A} (e : exn) : M A := fun h => (Raise e, h).
Definition undefined {A} : M A := fun h => (Undefined, h).
Definition bind {A B} (m : M A) (k : A -> M B) : M B :=
  fun h =>
    match m h with
    | (Ok a, h') => k a h'
    | (Raise e, h') => (Raise e, h')
    | (Undefined, h') => (Undefined, h')
    end.

Notation "x <- m ;; k" := (bind m (fun x => k))
  (at level 100, m at next level, right associativity).

(** Lift a device read: [None] is a read outside the addressed memory. *)
Definition device {A} (o : option A) : M A :=
  match o with Some a => ret a | None => undefined end.

Definition alloc (b : buffer) : M nat := fun h => (Ok (length h), h ++ [b]).

(** The store as it is, and a change of the store. *)
Definition get_heap : M heap := fun h => (Ok h, h).
Definition modify_heap (f : heap -> heap) : M unit := fun h => (Ok tt, f h).

(** ** Array descriptors *)

(** Strides and offsets count elements (the source counts bytes, a constant
    factor [itemsize] per array).  [c_contiguous] and [f_contiguous] are the
    cached flags of the source: 1, 0, or -1 for "not determined". *)
Record ndarray := {
  data : nat;
  data_offset : Z;
  shape : list Z;
  strides : list Z;
  dtype_of : dtype;
  size : Z;
  c_contiguous : Z;
  f_contiguous : Z
}.

Definition ndim (a : ndarray) : Z := Z.of_nat (length (shape a)).

Module internal.
(** Modelled from the spec: [internal.prod], the product of a tuple of
    dimensions (1 for the empty tuple). *)
Definition prod (l : list Z) : Z := foldr Z.mul 1 l.
End internal.
Arguments internal.prod : simpl never.

(** Strides of a C-ordered array of the given shape. *)
Fixpoint c_strides (sh : list Z) : list Z :=
  match sh with
  | [] => []
  | _ :: ds => internal.prod ds :: c_strides ds
  end.

(** The multi-index of the linear index [i] in C order, computed from the
    last axis to the first as the kernel indexer does; the second component
    is what is left of [i] after all axes. *)
Fixpoint unravel (sh : list Z) (i : Z) : list Z * Z :=
  match sh with
  | [] => ([], i)
  | d :: ds => let '(idx, q) := unravel ds i in (q mod d :: idx, q / d)
  end.

Fixpoint dot (idx st : list Z) : Z :=
  match idx, st with
  | i :: idx', s :: st' => i * s + dot idx' st'
  | _, _ => 0
  end.

Definition address (a : ndarray) (idx : list Z) : Z := data_offset a + dot idx (strides a).

Definition load (h : heap) (buf : nat) (addr : Z) : option Z :=
  if 0 <=? addr then b ← h !! buf; b !! Z.to_nat addr else None.

(** The element of [a] at a multi-index. *)
Definition at_index (h : heap) (a : ndarray) (idx : list Z) : option Z :=
  load h (data a) (address a idx).

(** The [i]-th element of [a] in C order: what a [raw] kernel argument
    indexed by [a[i]] reads.  Outside [0, size) nothing is addressed. *)
Definition read_flat (h : heap) (a : ndarray) (i : Z) : option Z :=
  if (0 <=? i) && (i <? size a) then at_index h a (unravel (shape a) i).1 else None.

Definition indices_upto (n : Z) : list Z := seqZ 0 n.

(** All elements of [a] in C order. *)
Definition elements (h : heap) (a : ndarray) : option (list Z) :=
  mapM (read_flat h a) (indices_upto (size a)).

Definition store (h : heap) (buf : nat) (addr : Z) (v : Z) : heap :=
  if 0 <=? addr
  then match h !! buf with
       | Some b => <[buf := <[Z.to_nat addr := v]> b]> h
       | None => h
       end
  else h.

(** Write [vals] as the elements of [a], in C order. *)
Definition write_elements (h : heap) (a : ndarray) (vals : list Z) : heap :=
  foldl (fun h' '(i, v) => store h' (data a) (address a (unravel (shape a) i).1) v)
        h (zip (indices_upto (size a)) vals).

(** ** Python tuples and lists *)

(** A slice bound [k] on a sequence of length [n]: negative bounds count from
    the end, and every bound is clamped to [0, n]. *)
Definition slice_bound (n k : Z) : Z :=
  if k <? 0 then Z.max 0 (k + n) else Z.min k n.

(** [l[:stop]] and [l[start:]]. *)
Definition slice_to {A} (l : list A) (stop : Z) : list A :=
  take (Z.to_nat (slice_bound (Z.of_nat (length l)) stop)) l.
Definition slice_from {A} (l : list A) (start : Z) : list A :=
  drop (Z.to_nat (slice_bound (Z.of_nat (length l)) start)) l.

(** The position an integer subscript [k] denotes, if any. *)
Definition subscript (n k : Z) : option nat :=
  let k' := if k <? 0 then k + n else k in
  if (0 <=? k') && (k' <? n) then Some (Z.to_nat k') else None.

(** [l[k]] and [del l[k]]. *)
Definition py_getitem {A} (l : list A) (k : Z) : option A :=
  p ← subscript (Z.of_nat (length l)) k; l !! p.
Definition py_del {A} (l : list A) (k : Z) : option (list A) :=
  p ← subscript (Z.of_nat (length l)) k; Some (delete p l).

Definition or_raise {A} (o : option A) (e : exn) : M A :=
  match o with Some a => ret a | None => raise e end.

#[global] Instance dtype_eq_dec : EqDecision dtype.
Proof. solve_decision. Defined.

(** ** The array library *)

Module cupy.

(** A descriptor of a C-contiguous array over a whole buffer. *)
Definition c_array (buf : nat) (sh : list Z) (dt : dtype) : ndarray :=
  {| data := buf; data_offset := 0; shape := sh; strides := c_strides sh;
     dtype_of := dt; size := internal.prod sh;
     c_contiguous := 1; f_contiguous := -1 |}.

(** Modelled from the spec: [cupy.empty], a newly allocated array; its
    contents are unspecified (zeros stand for them, and no function here
    reads them before writing). *)
Definition empty (sh : list Z) (dt : dtype) : M ndarray :=
  buf <- alloc (replicate (Z.to_nat (internal.prod sh)) 0) ;;
  ret (c_array buf sh dt).

(** A newly allocated C-contiguous array holding [vals]. *)
Definition fresh (sh : list Z) (dt : dtype) (vals : list Z) : M ndarray :=
  buf <- alloc vals ;;
  ret (c_array buf sh dt).

(** Modelled from the spec: [cupy.array(seq, dtype=int)] on a Python list
    of integers. *)
Definition array (l : list Z) (dt : dtype) : M ndarray :=
  fresh [Z.of_nat (length l)] dt l.

(** Modelled from the spec: [ndarray.flags.c_contiguous]; the cached flag
    when it is determined, else recomputed from shape and strides. *)
Definition is_c_contiguous (a : ndarray) : bool :=
  if c_contiguous a <? 0
  then bool_decide (strides a = c_strides (shape a))
  else bool_decide (c_contiguous a = 1).

(** Modelled from the spec: [ndarray.copy], the elements of [a] in a newly
    allocated C-contiguous array. *)
Definition copy (a : ndarray) : M ndarray :=
  h <- get_heap ;;
  vals <- device (elements h a) ;;
  fresh (shape a) (dtype_of a) vals.

(** Modelled from the spec: [ndarray.view]: a new descriptor over the same
    buffer. *)
Definition view (a : ndarray) : ndarray := a.

(** Modelled from the spec: [cupy.reshape]: a view when [a] is
    C-contiguous, a copy otherwise. *)
Definition reshape (a : ndarray) (sh : list Z) : M ndarray :=
  if bool_decide (internal.prod sh = size a)
  then
    a' <- (if is_c_contiguous a then ret a else copy a) ;;
    ret {| data := data a'; data_offset := data_offset a'; shape := sh;
           strides := c_strides sh; dtype_of := dtype_of a';
           size := size a'; c_contiguous := 1; f_contiguous := -1 |}
  else raise (ValueError "total size of new array must be unchanged").

(** Modelled from the spec: [ndarray.ravel]: "treated as flattened
    (rank-1)". *)
Definition ravel (a : ndarray) : M ndarray := reshape a [size a].

(** Modelled from the spec: [cupy.expand_dims]: a view with a unit axis
    inserted at position [axis]. *)
Definition expand_dims (a : ndarray) (axis : nat) : ndarray :=
  {| data := data a; data_offset := data_offset a;
     shape := take axis (shape a) ++ 1 :: drop axis (shape a);
     strides := take axis (strides a) ++ 0 :: drop axis (strides a);
     dtype_of := dtype_of a; size := size a;
     c_contiguous := -1; f_contiguous := -1 |}.

(** Standard broadcasting of two shapes of equal rank. *)
Fixpoint broadcast_dims (s1 s2 : list Z) : option (list Z) :=
  match s1, s2 with
  | [], [] => Some []
  | d1 :: s1', d2 :: s2' =>
      r ← broadcast_dims s1' s2';
      if d1 =? d2 then Some (d1 :: r)
      else if d1 =? 1 then Some (d2 :: r)
      else if d2 =? 1 then Some (d1 :: r)
      else None
  | _, _ => None
  end.

Definition pad_left {A} (n : nat) (x : A) (l : list A) : list A :=
  replicate (n - length l) x ++ l.

Definition broadcast_shapes (s1 s2 : list Z) : option (list Z) :=
  let n := Nat.max (length s1) (length s2) in
  broadcast_dims (pad_left n 1 s1) (pad_left n 1 s2).

(** Strides of a view of an array of shape [sh] and strides [st] seen with
    the shape [tgt] of equal rank: a unit axis is repeated with stride 0. *)
Fixpoint broadcast_strides (sh st tgt : list Z) : option (list Z) :=
  match sh, st, tgt with
  | [], [], [] => Some []
  | d :: sh', s :: st', t :: tgt' =>
      r ← broadcast_strides sh' st' tgt';
      if d =? t then Some (s :: r)
      else if d =? 1 then Some (0 :: r)
      else None
  | _, _, _ => None
  end.

(** Modelled from the spec: "standard broadcasting" of an array to a
    shape: missing leading axes are added as unit axes. *)
Definition broadcast_to (a : ndarray) (tgt : list Z) : option ndarray :=
  let n := length tgt in
  st ← broadcast_strides (pad_left n 1 (shape a)) (pad_left n 0 (strides a)) tgt;
  Some {| data := data a; data_offset := data_offset a; shape := tgt; strides := st;
          dtype_of := dtype_of a; size := internal.prod tgt;
          c_contiguous := -1; f_contiguous := -1 |}.

(** Modelled from the spec: [cupy.broadcast_arrays] on two arrays. *)
Definition broadcast_arrays (a b : ndarray) : M (ndarray * ndarray) :=
  or_raise (sh ← broadcast_shapes (shape a) (shape b);
            a' ← broadcast_to a sh;
            b' ← broadcast_to b sh;
            Some (a', b'))
           (ValueError "shape mismatch: objects cannot be broadcast to a single shape").

(** Modelled from the spec: [a[k]] for an integer [k]: the view of the
    [k]-th slice along the first axis. *)
Definition getitem (a : ndarray) (k : Z) : M ndarray :=
  match shape a, strides a with
  | d :: sh, s :: st =>
      p <- or_raise (subscript d k) (IndexError "Index out of bounds") ;;
      ret {| data := data a; data_offset := data_offset a + Z.of_nat p * s;
             shape := sh; strides := st; dtype_of := dtype_of a;
             size := internal.prod sh;
             c_contiguous := -1; f_contiguous := -1 |}
  | _, _ => raise (IndexError "too many indices for array")
  end.

(** Modelled from the spec: [cupy.transpose] with explicit axes, a view
    with shape and strides permuted. *)
Definition transpose (a : ndarray) (axes : list Z) : M ndarray :=
  let n := ndim a in
  match mapM (subscript n) axes with
  | Some ax =>
      if bool_decide (length ax = length (shape a)) && bool_decide (NoDup ax)
      then
        match mapM (fun k => shape a !! k) ax, mapM (fun k => strides a !! k) ax with
        | Some sh, Some st =>
            ret {| data := data a; data_offset := data_offset a; shape := sh;
                   strides := st; dtype_of := dtype_of a; size := size a;
                   c_contiguous := -1; f_contiguous := -1 |}
        | _, _ => raise (ValueError "Invalid axes value")
        end
      else raise (ValueError "Invalid axes value")
  | None => raise (IndexError "Axis overrun")
  end.

(** Modelled from the spec: [cupy.rollaxis(a, axis)], the "axis-rotation
    view" that brings [axis] to the front.  An unset axis cannot be
    compared with an integer. *)
Definition rollaxis (a : ndarray) (axis : option Z) : M ndarray :=
  match axis with
  | None => raise (TypeError "unorderable types: NoneType() < int()")
  | Some ax =>
      p <- or_raise (subscript (ndim a) ax) (ValueError "Axis out of range") ;;
      transpose a (Z.of_nat p :: map Z.of_nat (delete p (seq 0 (length (shape a)))))
  end.

(** The start and the length of the Python slice [start:stop] on an axis
    of length [d]. *)
Definition slice_axis (d : Z) (start stop : option Z) : Z * Z :=
  let b := slice_bound d (default 0 start) in
  let e := slice_bound d (default d stop) in
  (b, Z.max 0 (e - b)).

(** Modelled from the spec: [a[..., s2, s1]], the view "windowed" by two
    slices on the trailing two axes. *)
Definition getitem_window (a : ndarray) (s2 s1 : option Z * option Z) : M ndarray :=
  match reverse (shape a), reverse (strides a) with
  | d1 :: d2 :: sh, t1 :: t2 :: st =>
      let '(b2, n2) := slice_axis d2 s2.1 s2.2 in
      let '(b1, n1) := slice_axis d1 s1.1 s1.2 in
      let sh' := reverse sh ++ [n2; n1] in
      ret {| data := data a; data_offset := data_offset a + b2 * t2 + b1 * t1;
             shape := sh'; strides := strides a; dtype_of := dtype_of a;
             size := internal.prod sh';
             c_contiguous := -1; f_contiguous := -1 |}
  | _, _ => raise (IndexError "too many indices for array")
  end.

(** Modelled from the spec: [out[:] = v], [v] broadcast to the shape of
    [out] and written element by element. *)
Definition setitem_all (out v : ndarray) : M unit :=
  v' <- or_raise (broadcast_to v (shape out))
                 (ValueError "could not broadcast input array") ;;
  h <- get_heap ;;
  vals <- device (elements h v') ;;
  modify_heap (fun h => write_elements h out vals).

(** Modelled from the spec: [(a < n).all()] and [(n <= a).all()]; the
    temporary arrays of the comparison are not kept in the store. *)
Definition all_lt (a : ndarray) (n : Z) : M bool :=
  h <- get_heap ;;
  vals <- device (elements h a) ;;
  ret (forallb (fun x => x <? n) vals).
Definition all_ge (n : Z) (a : ndarray) : M bool :=
  h <- get_heap ;;
  vals <- device (elements h a) ;;
  ret (forallb (fun x => n <=? x) vals).

(** Python's remainder on integers; the array library gives 0 for a zero
    divisor. *)
Definition remainder (x n : Z) : Z := if n =? 0 then 0 else x mod n.

(** Modelled from the spec: [a % n], "modulo [n]" element by element, in a
    newly allocated array. *)
Definition mod_scalar (a : ndarray) (n : Z) : M ndarray :=
  h <- get_heap ;;
  vals <- device (elements h a) ;;
  fresh (shape a) (dtype_of a) (map (fun x => remainder x n) vals).

End cupy.

Module elementwise.

(** Modelled from the spec: the element-wise kernel abstraction, "one
    logical worker per output element, no ordering dependency between
    workers".  [body h i] is the value worker [i] computes from the store
    before the launch; a worker that reads outside an array makes the
    launch undefined. *)
Definition run (n : Z) (body : heap -> Z -> option Z) : M (list Z) :=
  h <- get_heap ;;
  device (mapM (body h) (indices_upto n)).

(** A launch whose output array the kernel allocates. *)
Definition call (sh : list Z) (dt : dtype) (body : heap -> Z -> option Z) : M ndarray :=
  vals <- run (internal.prod sh) body ;;
  cupy.fresh sh dt vals.

(** A launch into a given output array; its non-[raw] arguments have been
    broadcast to the shape of [out]. *)
Definition call_out (out : ndarray) (body : heap -> Z -> option Z) : M ndarray :=
  vals <- run (size out) body ;;
  _ <- modify_heap (fun h => write_elements h out vals) ;;
  ret out.

End elementwise.

(** ** cupy/indexing/indexing.py *)

(** The kernel of [take] computes with 64-bit integers ([int64 cdim, rdim],
    [long long li, ri]); the kernels of [choose] take [n_channel] and [n] as
    [int32].  The offsets are computed here in [Z], which agrees with the
    kernels as long as the offsets of [take] are below 2^63 and those of
    [choose] ([i + n_channel * a], at most the size of the broadcast
    choices) are below 2^31.  [/] and [%] of C truncate. *)

(** [long long li = i / (rdim * cdim); long long ri = i % rdim;
     out = a[(li * cdim + indices) * rdim + ri];] *)
Definition _take_kernel (a indices : ndarray) (cdim rdim : Z) (out : ndarray) : M ndarray :=
  indices <- or_raise (cupy.broadcast_to indices (shape out))
                      (ValueError "Out shape is mismatched") ;;
  elementwise.call_out out (fun h i =>
    ind ← read_flat h indices i;
    let li := i ÷ (rdim * cdim) in
    let ri := Z.rem i rdim in
    read_flat h a ((li * cdim + ind) * rdim + ri)).

(** [y = choices[i + n_channel * a]] *)
Definition _choose_kernel (a choices : ndarray) (n_channel : Z) : M ndarray :=
  elementwise.call (shape a) (dtype_of choices) (fun h i =>
    a ← read_flat h a i;
    read_flat h choices (i + n_channel * a)).

(** [S x = a; if (a < 0) { x = 0; } else if (a >= n) { x = n - 1; }
     y = choices[i + n_channel * x];] *)
Definition _choose_clip_kernel (a choices : ndarray) (n_channel n : Z) : M ndarray :=
  elementwise.call (shape a) (dtype_of choices) (fun h i =>
    a ← read_flat h a i;
    let x := if a <? 0 then 0 else if a >=? n then n - 1 else a in
    read_flat h choices (i + n_channel * x)).

(** The [indices] argument of [take]: a scalar, an array, or an array-like
    (a Python list of integers). *)
Inductive index_arg :=
| IScalar (k : Z)
| IArray (a : ndarray)
| IList (l : list Z).

(** The gather of [take] (the statements after the dispatch on [indices]),
    reached once [indices] is an array. *)
Definition take_gather (a : ndarray) (lshape rshape : list Z) (indices : ndarray)
    (out : option ndarray) : M ndarray :=
  let out_shape := lshape ++ shape indices ++ rshape in
  out <- match out with
         | None => cupy.empty out_shape (dtype_of a)
         | Some out =>
             if negb (bool_decide (dtype_of out = dtype_of a))
             then raise (TypeError "Output dtype mismatch")
             else if negb (bool_decide (shape out = out_shape))
             then raise (ValueError "Output shape mismatch")
             else ret out
         end ;;
  let cdim := size indices in
  let rdim := internal.prod rshape in
  indices <- cupy.reshape indices
               (replicate (length lshape) 1 ++ shape indices
                  ++ replicate (length rshape) 1) ;;
  _take_kernel a indices cdim rdim out.

Definition take (a : ndarray) (indices : index_arg) (axis : option Z)
    (out : option ndarray) : M ndarray :=
  r <- match axis with
       | None =>
           a <- cupy.ravel a ;;
           ret (a, [], [])
       | Some axis =>
           if axis >=? ndim a
           then raise (ValueError "Axis overrun")
           else ret (a, slice_to (shape a) axis, slice_from (shape a) (axis + 1))
       end ;;
  let '(a, lshape, rshape) := r in
  match indices with
  | IScalar indices =>
      a <- cupy.rollaxis a axis ;;
      match out with
      | None =>
          v <- cupy.getitem a indices ;;
          cupy.copy v
      | Some out =>
          v <- cupy.getitem a indices ;;
          _ <- cupy.setitem_all out v ;;
          ret out
      end
  | IArray indices => take_gather a lshape rshape indices out
  | IList l =>
      (* [indices = cupy.array(indices, dtype=int)] *)
      indices <- cupy.array l int64 ;;
      take_gather a lshape rshape indices out
  end.

(** The dispatch of [choose] on [mode] (the [if mode == ...] statement), on
    the selector [a] with its unit axes, the broadcast operands [ba] and
    [bcs], the number of choices and the size of one choice. *)
Definition choose_mode (a ba bcs : ndarray) (n n_channel : Z) (mode : string)
    : M ndarray :=
  if String.eqb mode "raise" then
    lt <- cupy.all_lt a n ;;
    ge <- (if lt then cupy.all_ge 0 a else ret false) ;;
    if negb (lt && ge)
    then raise (ValueError "invalid entry in choice array")
    else
      ba0 <- cupy.getitem ba 0 ;;
      _choose_kernel ba0 bcs n_channel
  else if String.eqb mode "wrap" then
    ba0 <- cupy.getitem ba 0 ;;
    ba <- cupy.mod_scalar ba0 n ;;
    _choose_kernel ba bcs n_channel
  else if String.eqb mode "clip" then
    ba0 <- cupy.getitem ba 0 ;;
    _choose_clip_kernel ba0 bcs n_channel n
  else raise (TypeError "clipmode not understood").

Definition choose (a choices : ndarray) (out : option ndarray) (mode : string)
    : M ndarray :=
  n <- or_raise (py_getitem (shape choices) 0) (IndexError "tuple index out of range") ;;
  (* broadcast [a] and [choices[i]] for all i *)
  let '(a, choices) :=
    if ndim a <? ndim choices - 1
    then (Nat.iter (Z.to_nat (ndim choices - 1 - ndim a))
            (fun a => cupy.expand_dims a 0) a, choices)
    else if ndim a >? ndim choices - 1
    then (a, Nat.iter (Z.to_nat (ndim a + 1 - ndim choices))
               (fun choices => cupy.expand_dims choices 1) choices)
    else (a, choices) in
  r <- cupy.broadcast_arrays a choices ;;
  let '(ba, bcs) := r in
  bcs0 <- cupy.getitem bcs 0 ;;
  let n_channel := internal.prod (shape bcs0) in
  choose_mode a ba bcs n n_channel mode.

Definition diagonal (a : ndarray) (offset : Z) (axis1 axis2 : Z) : M ndarray :=
  let '(min_axis, max_axis) :=
    if axis1 <? axis2 then (axis1, axis2) else (axis2, axis1) in
  let tr := map Z.of_nat (seq 0 (length (shape a))) in
  let del_error := IndexError "list assignment index out of range" in
  tr <- or_raise (py_del tr max_axis) del_error ;;
  tr <- or_raise (py_del tr min_axis) del_error ;;
  r <- (if offset >=? 0
        then a <- cupy.transpose a (tr ++ [axis1; axis2]) ;; ret (a, offset)
        else a <- cupy.transpose a (tr ++ [axis2; axis1]) ;; ret (a, - offset)) ;;
  let '(a, offset) := r in
  let tuple_error := IndexError "tuple index out of range" in
  d2 <- or_raise (py_getitem (shape a) (-2)) tuple_error ;;
  d1 <- or_raise (py_getitem (shape a) (-1)) tuple_error ;;
  let diag_size := Z.max 0 (Z.min d2 (d1 - offset)) in
  let ret_shape := slice_to (shape a) (-2) ++ [diag_size] in
  if diag_size =? 0 then cupy.empty ret_shape (dtype_of a)
  else
    a <- cupy.getitem_window a (None, Some diag_size)
           (Some offset, Some (offset + diag_size)) ;;
    let ret_ := cupy.view a in
    s1 <- or_raise (py_getitem (strides a) (-1)) tuple_error ;;
    s2 <- or_raise (py_getitem (strides a) (-2)) tuple_error ;;
    let _shape := slice_to (shape a) (-2) ++ [diag_size] in
    ret {| data := data ret_; data_offset := data_offset ret_; dtype_of := dtype_of ret_;
           shape := _shape;
           strides := slice_to (strides a) (-2) ++ [s1 + s2];
           size := internal.prod _shape;
           c_contiguous := -1;
           f_contiguous := -1 |}.

(** ** Concrete arrays, for the examples *)

Module Ex.
(** A store with a 2x3 array, a selector of four elements (one negative, one
    too large), three choices of four elements, a 3x3 array and a 2x1
    array. *)
Definition store0 : heap :=
  [ [10; 20; 30; 40; 50; 60];
    [0; -1; 5; 1];
    [10; 11; 12; 13; 20; 21; 22; 23; 30; 31; 32; 33];
    [1; 2; 3; 4; 5; 6; 7; 8; 9];
    [7; 8];
    [0; 2; 1; 1] ].
Definition a23 : ndarray := cupy.c_array 0 [2; 3] int64.
Definition sel_bad : ndarray := cupy.c_array 1 [4] int32.
Definition choices34 : ndarray := cupy.c_array 2 [3; 4] float32.
Definition a33 : ndarray := cupy.c_array 3 [3; 3] int32.
Definition a21 : ndarray := cupy.c_array 4 [2; 1] int64.
Definition sel_good : ndarray := cupy.c_array 5 [4] int32.
Definition out2 : ndarray := cupy.c_array 4 [2] float32.
(** A store with a 2x1 array, three indices, all 0, and a 2x3 array. *)
Definition store1 : heap := [ [7; 8]; [0; 0; 0]; [10; 20; 30; 40; 50; 60] ].
Definition c23 : ndarray := cupy.c_array 2 [2; 3] int64.
Definition b21 : ndarray := cupy.c_array 0 [2; 1] int64.
Definition zeros3 : ndarray := cupy.c_array 1 [3] int64.
Definition idx02 : ndarray := cupy.c_array 5 [2; 2] int32.
End Ex.

(** ** Specification vocabulary *)

(** A multi-index within a shape. *)
Definition valid_index (sh idx : list Z) : Prop :=
  Forall2 (fun d k => 0 <= k < d) sh idx.

(** The data-model invariant of an array over a store: [size] is the product
    of the shape, and every addressed element lies in the buffer. *)
Record wf_array (h : heap) (a : ndarray) : Prop := {
  wf_alloc : is_Some (h !! data a);
  wf_dims : Forall (fun d => 0 <= d) (shape a);
  wf_strides : length (strides a) = length (shape a);
  wf_size : size a = internal.prod (shape a);
  wf_flag : c_contiguous a = 1 -> strides a = c_strides (shape a);
  wf_bounds : forall idx, valid_index (shape a) idx -> is_Some (at_index h a idx)
}.

(** The multi-index of the element of an array of shape [sh] that a broadcast
    view of it shows at the multi-index [idx]: a unit axis is always read at
    0. *)
Definition broadcast_index (sh idx : list Z) : list Z :=
  zip_with (fun d k => if d =? 1 then 0 else k) sh idx.

(** Shapes that broadcast to [tgt], axis by axis. *)
Definition broadcastable (sh tgt : list Z) : Prop :=
  Forall2 (fun d t => d = t \/ d = 1) sh tgt.

(** The gather of [take] in the words of the specification: the output
    linear index [i] is decomposed with the divisor [right_dim] and the
    number of indices [index_count]. *)
Definition left_block (right_dim index_count i : Z) : Z := i / (right_dim * index_count).
Definition index_slot (right_dim index_count i : Z) : Z := (i / right_dim) mod index_count.
Definition right_block (right_dim i : Z) : Z := i mod right_dim.

(** "the corresponding source offset is [(left_block * index_count +
    indices[index_slot]) * right_dim + right_block]". *)
Definition gather_offset (right_dim index_count : Z) (index : Z) (i : Z) : Z :=
  (left_block right_dim index_count i * index_count + index) * right_dim
  + right_block right_dim i.

(** What the worker [i] of the take kernel computes, in the words of the
    specification. *)
Definition gather_element (h : heap) (a indices : ndarray) (rdim : Z) (i : Z) : option Z :=
  ind ← read_flat h indices (index_slot rdim (size indices) i);
  read_flat h a (gather_offset rdim (size indices) ind i).

(** "[right_dim = product(source.shape[axis+1:])]"; the flattened source has
    nothing on the right of its axis. *)
Definition take_right_dim (a : ndarray) (axis : option Z) : Z :=
  match axis with
  | None => internal.prod []
  | Some axis => internal.prod (slice_from (shape a) (axis + 1))
  end.

(** The operands of [choose] once unit axes are inserted "on whichever
    operand has fewer trailing axes": the selector and the choices as they
    are broadcast. *)
Definition choose_operands (a choices : ndarray) : ndarray * ndarray :=
  if ndim a <? ndim choices - 1
  then (Nat.iter (Z.to_nat (ndim choices - 1 - ndim a))
          (fun a => cupy.expand_dims a 0) a, choices)
  else if ndim a >? ndim choices - 1
  then (a, Nat.iter (Z.to_nat (ndim a + 1 - ndim choices))
             (fun choices => cupy.expand_dims choices 1) choices)
  else (a, choices).

(** "Result shape = broadcast shape": the common shape of the selector and of
    one choice. *)
Definition choose_shape (a choices : ndarray) : option (list Z) :=
  let '(a, choices) := choose_operands a choices in
  sh ← cupy.broadcast_shapes (shape a) (shape choices);
  match sh with
  | _ :: bshape => Some bshape
  | [] => None
  end.

(** The linear index, in the selector, of the element that the broadcast puts
    at the multi-index [idx] of the result. *)
Definition selector_slot (a choices : ndarray) (idx : list Z) : Z :=
  let '(a, _) := choose_operands a choices in
  dot (broadcast_index (shape a) idx) (c_strides (shape a)).

(** The selector element and the element of choice [c] that the broadcast
    puts at the multi-index [idx] of the result. *)
Definition selector_at (h : heap) (a choices : ndarray) (idx : list Z) : option Z :=
  let '(a, _) := choose_operands a choices in
  at_index h a (broadcast_index (shape a) idx).
Definition choice_at (h : heap) (a choices : ndarray) (c : Z) (idx : list Z) : option Z :=
  let '(_, choices) := choose_operands a choices in
  at_index h choices (broadcast_index (shape choices) (c :: idx)).

(** "[axis] (optional integer in [[0, source.rank)])". *)
Definition valid_axis (a : ndarray) (axis : option Z) : Prop :=
  match axis with
  | None => True
  | Some axis => 0 <= axis < ndim a
  end.

(** The shape of array or array-like indices; a scalar has none. *)
Definition indices_shape (indices : index_arg) : option (list Z) :=
  match indices with
  | IScalar _ => None
  | IArray i => Some (shape i)
  | IList l => Some [Z.of_nat (length l)]
  end.

(** The values of array or array-like indices, in C order; a scalar has
    none. *)
Definition index_values (h : heap) (indices : index_arg) : option (list Z) :=
  match indices with
  | IScalar _ => None
  | IArray i => elements h i
  | IList l => Some l
  end.

(** "result shape = [source.shape[:axis] + indices.shape +
    source.shape[axis+1:]]", the source being flattened when the axis is
    unset. *)
Definition take_out_shape (a : ndarray) (ishape : list Z) (axis : option Z) : list Z :=
  match axis with
  | None => ishape
  | Some axis => slice_to (shape a) axis ++ ishape ++ slice_from (shape a) (axis + 1)
  end.

(** A tuple without its entries at two distinct positions. *)
Definition remove_axes {A} (l : list A) (p1 p2 : nat) : list A :=
  delete (Nat.min p1 p2) (delete (Nat.max p1 p2) l).

(** The positions of the two axes of [diagonal], in the order in which they
    become the trailing axes, and the offset made non-negative: "ordered
    [axis1, axis2] if [offset >= 0], else swapped, with [offset] negated". *)
Definition diagonal_axes (offset axis1 axis2 : Z) : nat * nat * Z :=
  if offset >=? 0 then (Z.to_nat axis1, Z.to_nat axis2, offset)
  else (Z.to_nat axis2, Z.to_nat axis1, - offset).

(** "[diag_size = max(0, min(trailing_dim0, trailing_dim1 - offset))]". *)
Definition diag_size_of (sh : list Z) (offset axis1 axis2 : Z) : Z :=
  let '(x, y, off) := diagonal_axes offset axis1 axis2 in
  Z.max 0 (Z.min (sh !!! x) (sh !!! y - off)).

(** A computation that leaves every buffer of the store it starts from as
    it is: it can only allocate. *)
Definition only_allocates {A} (m : M A) : Prop :=
  forall h r h', m h = (r, h') -> h `prefix_of` h'.

(** A computation whose result, when it returns one, lives in a buffer that
    did not exist before. *)
Definition returns_fresh (m : M ndarray) : Prop :=
  forall h r h', m h = (Ok r, h') -> h !! data r = None /\ is_Some (h' !! data r).

(** A computation that leaves the first [k] buffers of the store as they
    are, and removes none: it can allocate, and write to the buffers from
    [k] on. *)
Definition keeps_first (k : nat) {A} (m : M A) : Prop :=
  forall h r h', (k <= length h)%nat -> m h = (r, h') ->
    (length h <= length h')%nat /\ list.take k h' = list.take k h.

(** * Properties *)

(** ** Index arithmetic *)

Lemma prod_cons d sh : internal.prod (d :: sh) = d * internal.prod sh.
Proof. reflexivity. Qed.

Lemma prod_app l m : internal.prod (l ++ m) = internal.prod l * internal.prod m.
Proof.
  induction l as [|d l IH]; simpl.
  - change (internal.prod []) with 1. lia.
  - rewrite !prod_cons, IH. lia.
Qed.

Lemma prod_nonneg sh : Forall (fun d => 0 <= d) sh -> 0 <= internal.prod sh.
Proof.
  induction 1 as [|d sh Hd _ IH]; [change (internal.prod []) with 1; lia|].
  rewrite prod_cons. lia.
Qed.

Lemma prod_pos sh : Forall (fun d => 0 < d) sh -> 0 < internal.prod sh.
Proof.
  induction 1 as [|d sh Hd _ IH]; [change (internal.prod []) with 1; lia|].
  rewrite prod_cons. lia.
Qed.

Lemma prod_pos_dims sh :
  Forall (fun d => 0 <= d) sh -> 0 < internal.prod sh -> Forall (fun d => 0 < d) sh.
Proof.
  induction 1 as [|d sh Hd Hsh IH]; intros Hp; [constructor|].
  rewrite prod_cons in Hp.
  pose proof (prod_nonneg sh Hsh).
  constructor; [nia|]. apply IH. nia.
Qed.

Lemma prod_replicate_1 n : internal.prod (replicate n 1) = 1.
Proof. induction n as [|n IH]; [reflexivity|]. simpl. rewrite prod_cons, IH. lia. Qed.

Lemma valid_index_length sh idx : valid_index sh idx -> length idx = length sh.
Proof. intros H. symmetry. exact (Forall2_length _ _ _ H). Qed.

Lemma length_c_strides sh : length (c_strides sh) = length sh.
Proof. induction sh; simpl; congruence. Qed.

Lemma length_unravel sh i : length (unravel sh i).1 = length sh.
Proof.
  revert i. induction sh as [|d sh IH]; intros i; simpl; [reflexivity|].
  specialize (IH i). destruct (unravel sh i) as [idx q]. simpl in *. congruence.
Qed.

(** Unravelling a linear index gives its mixed-radix digits: they are within
    the shape, they weigh [i mod prod sh] under the C strides, and what is
    left is [i / prod sh]. *)
Lemma unravel_spec sh i :
  Forall (fun d => 0 < d) sh ->
  valid_index sh (unravel sh i).1
  /\ dot (unravel sh i).1 (c_strides sh) = i mod internal.prod sh
  /\ (unravel sh i).2 = i / internal.prod sh.
Proof.
  induction 1 as [|d sh Hd Hsh IH]; simpl.
  - change (internal.prod []) with 1. rewrite Z.mod_1_r, Z.div_1_r.
    repeat split. constructor.
  - destruct (unravel sh i) as [idx q]. simpl in *.
    destruct IH as (Hv & Hdot & Hq). subst q.
    pose proof (prod_pos sh Hsh) as Hp.
    rewrite prod_cons. repeat split.
    + constructor; [|exact Hv]. apply Z.mod_pos_bound. lia.
    + rewrite Hdot. rewrite (Z.mul_comm d), Z.rem_mul_r by lia. lia.
    + rewrite Z.div_div by lia. f_equal. lia.
Qed.

Lemma unravel_in_range sh i :
  Forall (fun d => 0 <= d) sh -> 0 <= i < internal.prod sh ->
  valid_index sh (unravel sh i).1 /\ dot (unravel sh i).1 (c_strides sh) = i.
Proof.
  intros Hsh Hi.
  assert (Forall (fun d => 0 < d) sh) as Hpos by (apply prod_pos_dims; [done|lia]).
  destruct (unravel_spec sh i Hpos) as (Hv & Hdot & _).
  split; [done|]. rewrite Hdot. apply Z.mod_small. lia.
Qed.

Lemma dot_valid_bounds sh idx :
  valid_index sh idx -> 0 <= dot idx (c_strides sh) < internal.prod sh.
Proof.
  induction 1 as [|d k sh idx Hk Hv IH]; simpl.
  - change (internal.prod []) with 1. lia.
  - rewrite prod_cons. nia.
Qed.

(** Ravelling a multi-index and unravelling it back. *)
Lemma unravel_dot_add sh idx k :
  valid_index sh idx ->
  unravel sh (k * internal.prod sh + dot idx (c_strides sh)) = (idx, k).
Proof.
  intros Hv. revert k.
  induction Hv as [|d j sh idx Hj Hv IH]; intros k; simpl.
  - change (internal.prod []) with 1. f_equal. lia.
  - rewrite prod_cons.
    replace (k * (d * internal.prod sh) + (j * internal.prod sh + dot idx (c_strides sh)))
      with ((k * d + j) * internal.prod sh + dot idx (c_strides sh)) by lia.
    rewrite IH. f_equal.
    + f_equal. rewrite Z.add_comm, Z.mod_add by lia. apply Z.mod_small. lia.
    + rewrite Z.add_comm, Z.div_add by lia. rewrite Z.div_small by lia. lia.
Qed.

Lemma unravel_dot sh idx :
  valid_index sh idx -> unravel sh (dot idx (c_strides sh)) = (idx, 0).
Proof.
  intros Hv. exact (unravel_dot_add sh idx 0 Hv).
Qed.

(** ** The monad and the store *)

Lemma bind_Ok_inv {A B} (m : M A) (k : A -> M B) h b h2 :
  bind m k h = (Ok b, h2) ->
  exists a h1, m h = (Ok a, h1) /\ k a h1 = (Ok b, h2).
Proof.
  unfold bind. destruct (m h) as [[a| |] h1]; intros H; try discriminate.
  eauto.
Qed.

Lemma only_allocates_ret {A} (a : A) : only_allocates (ret a).
Proof. intros h r h' [= <- <-]. reflexivity. Qed.

Lemma only_allocates_raise {A} e : only_allocates (@raise A e).
Proof. intros h r h' [= <- <-]. reflexivity. Qed.

Lemma only_allocates_undefined {A} : only_allocates (@undefined A).
Proof. intros h r h' [= <- <-]. reflexivity. Qed.

Lemma only_allocates_bind {A B} (m : M A) (k : A -> M B) :
  only_allocates m -> (forall a, only_allocates (k a)) -> only_allocates (bind m k).
Proof.
  intros Hm Hk h r h'. unfold bind.
  destruct (m h) as [[a| |] h1] eqn:E; intros H.
  - etrans; [exact (Hm _ _ _ E)|exact (Hk _ _ _ _ H)].
  - injection H as <- <-. exact (Hm _ _ _ E).
  - injection H as <- <-. exact (Hm _ _ _ E).
Qed.

Lemma only_allocates_alloc b : only_allocates (alloc b).
Proof. intros h r h' [= <- <-]. by apply prefix_app_r. Qed.

Lemma only_allocates_or_raise {A} (o : option A) e : only_allocates (or_raise o e).
Proof. destruct o; [apply only_allocates_ret|apply only_allocates_raise]. Qed.

Lemma only_allocates_device {A} (o : option A) : only_allocates (device o).
Proof. destruct o; [apply only_allocates_ret|apply only_allocates_undefined]. Qed.

Lemma only_allocates_get_heap : only_allocates get_heap.
Proof. intros h r h' [= <- <-]. reflexivity. Qed.

Create HintDb alloc.
#[global] Hint Resolve only_allocates_ret only_allocates_raise
  only_allocates_undefined only_allocates_alloc only_allocates_or_raise
  only_allocates_device only_allocates_get_heap : alloc.

Ltac alloc_step :=
  lazymatch goal with
  | |- only_allocates (bind _ _) => apply only_allocates_bind; [|intros ?]
  | |- only_allocates (match ?x with _ => _ end) => destruct x
  | |- only_allocates _ => solve [auto with alloc]
  end.
Ltac alloc_solve := repeat alloc_step.

Lemma prefix_lookup_Some (h h' : heap) b buf :
  h `prefix_of` h' -> h !! b = Some buf -> h' !! b = Some buf.
Proof. intros [k ->] H. by apply lookup_app_l_Some. Qed.

Lemma load_prefix h h' b addr :
  h `prefix_of` h' -> is_Some (h !! b) -> load h' b addr = load h b addr.
Proof.
  intros Hp [buf Hb]. unfold load.
  rewrite Hb, (prefix_lookup_Some _ _ _ _ Hp Hb). reflexivity.
Qed.

Lemma at_index_prefix h h' a idx :
  h `prefix_of` h' -> is_Some (h !! data a) -> at_index h' a idx = at_index h a idx.
Proof. intros. unfold at_index. by apply load_prefix. Qed.

Lemma read_flat_prefix h h' a i :
  h `prefix_of` h' -> is_Some (h !! data a) -> read_flat h' a i = read_flat h a i.
Proof.
  intros. unfold read_flat. destruct (_ && _); [|done]. by apply at_index_prefix.
Qed.

Lemma elements_prefix h h' a :
  h `prefix_of` h' -> is_Some (h !! data a) -> elements h' a = elements h a.
Proof.
  intros. unfold elements. apply mapM_ext. intros i. by apply read_flat_prefix.
Qed.

Lemma wf_array_prefix h h' a :
  h `prefix_of` h' -> wf_array h a -> wf_array h' a.
Proof.
  intros Hp [Ha Hd Hs Hz Hf Hb]. split; try done.
  - destruct Ha as [buf Hbuf]. exists buf. by eapply prefix_lookup_Some.
  - intros idx Hv. rewrite (at_index_prefix h h') by done. by apply Hb.
Qed.

(** Reading a well-formed array element by element. *)
Lemma read_flat_wf h a i :
  wf_array h a -> 0 <= i < size a -> is_Some (read_flat h a i).
Proof.
  intros [Ha Hd Hs Hz Hf Hb] Hi. unfold read_flat.
  replace ((0 <=? i) && (i <? size a)) with true
    by (symmetry; apply andb_true_iff; split; [apply Z.leb_le|apply Z.ltb_lt]; lia).
  apply Hb. apply unravel_in_range; [done|lia].
Qed.

Lemma elements_wf h a : wf_array h a -> is_Some (elements h a).
Proof.
  intros Hwf. unfold elements, indices_upto. apply mapM_is_Some.
  apply Forall_seqZ. intros i Hi. simpl. apply read_flat_wf; [done|lia].
Qed.

Lemma length_elements h a vals :
  elements h a = Some vals -> length vals = Z.to_nat (size a).
Proof.
  unfold elements, indices_upto. intros H.
  apply length_mapM in H. rewrite length_seqZ in H. lia.
Qed.

Lemma elements_lookup h a vals i :
  elements h a = Some vals -> 0 <= i < size a ->
  vals !! Z.to_nat i = read_flat h a i.
Proof.
  unfold elements, indices_upto. intros H Hi.
  apply mapM_Some_1 in H.
  assert (seqZ 0 (size a) !! Z.to_nat i = Some i) as Hl.
  { rewrite lookup_seqZ_lt by lia. f_equal. lia. }
  destruct (Forall2_lookup_l _ _ _ _ _ H Hl) as (v & Hv & Hr).
  congruence.
Qed.

(** ** The array library only allocates *)

Lemma only_allocates_empty sh dt : only_allocates (cupy.empty sh dt).
Proof. unfold cupy.empty. alloc_solve. Qed.
Lemma only_allocates_fresh sh dt vals : only_allocates (cupy.fresh sh dt vals).
Proof. unfold cupy.fresh. alloc_solve. Qed.
#[global] Hint Resolve only_allocates_empty only_allocates_fresh : alloc.
Lemma only_allocates_array l dt : only_allocates (cupy.array l dt).
Proof. unfold cupy.array. alloc_solve. Qed.
Lemma only_allocates_copy a : only_allocates (cupy.copy a).
Proof. unfold cupy.copy. alloc_solve. Qed.
#[global] Hint Resolve only_allocates_array only_allocates_copy : alloc.
Lemma only_allocates_reshape a sh : only_allocates (cupy.reshape a sh).
Proof. unfold cupy.reshape. alloc_solve. Qed.
#[global] Hint Resolve only_allocates_reshape : alloc.
Lemma only_allocates_ravel a : only_allocates (cupy.ravel a).
Proof. unfold cupy.ravel. alloc_solve. Qed.
Lemma only_allocates_broadcast_arrays a b : only_allocates (cupy.broadcast_arrays a b).
Proof. unfold cupy.broadcast_arrays. alloc_solve. Qed.
Lemma only_allocates_getitem a k : only_allocates (cupy.getitem a k).
Proof. unfold cupy.getitem. alloc_solve. Qed.
Lemma only_allocates_transpose a axes : only_allocates (cupy.transpose a axes).
Proof. unfold cupy.transpose. alloc_solve. Qed.
#[global] Hint Resolve only_allocates_ravel only_allocates_broadcast_arrays
  only_allocates_getitem only_allocates_transpose : alloc.
Lemma only_allocates_rollaxis a axis : only_allocates (cupy.rollaxis a axis).
Proof. unfold cupy.rollaxis. alloc_solve. Qed.
Lemma only_allocates_getitem_window a s2 s1 : only_allocates (cupy.getitem_window a s2 s1).
Proof. unfold cupy.getitem_window. alloc_solve. Qed.
Lemma only_allocates_all_lt a n : only_allocates (cupy.all_lt a n).
Proof. unfold cupy.all_lt. alloc_solve. Qed.
Lemma only_allocates_all_ge n a : only_allocates (cupy.all_ge n a).
Proof. unfold cupy.all_ge. alloc_solve. Qed.
Lemma only_allocates_mod_scalar a n : only_allocates (cupy.mod_scalar a n).
Proof. unfold cupy.mod_scalar. alloc_solve. Qed.
#[global] Hint Resolve only_allocates_rollaxis only_allocates_getitem_window
  only_allocates_all_lt only_allocates_all_ge only_allocates_mod_scalar : alloc.
Lemma only_allocates_call sh dt body : only_allocates (elementwise.call sh dt body).
Proof. unfold elementwise.call, elementwise.run. alloc_solve. Qed.
#[global] Hint Resolve only_allocates_call : alloc.
Lemma only_allocates_choose a choices out mode : only_allocates (choose a choices out mode).
Proof. unfold choose, choose_mode, _choose_kernel, _choose_clip_kernel. alloc_solve. Qed.
Lemma only_allocates_diagonal a offset axis1 axis2 :
  only_allocates (diagonal a offset axis1 axis2).
Proof. unfold diagonal. alloc_solve. Qed.

(** ** Freshly allocated results *)

Lemma returns_fresh_raise e : returns_fresh (raise e).
Proof. intros h r h' [=]. Qed.

Lemma returns_fresh_bind {A} (m : M A) (k : A -> M ndarray) :
  only_allocates m -> (forall a, returns_fresh (k a)) -> returns_fresh (bind m k).
Proof.
  intros Hm Hk h r h' H.
  apply bind_Ok_inv in H as (a & h1 & Hm1 & Hk1).
  destruct (Hk _ _ _ _ Hk1) as [Hnone Hsome]. split; [|done].
  destruct (Hm _ _ _ Hm1) as [k' ->].
  apply lookup_ge_None. apply lookup_ge_None in Hnone.
  rewrite length_app in Hnone. lia.
Qed.

Lemma returns_fresh_fresh sh dt vals : returns_fresh (cupy.fresh sh dt vals).
Proof.
  intros h r h' [= <- <-]. simpl. split.
  - by apply lookup_ge_None.
  - exists vals. by apply list_lookup_middle.
Qed.

Lemma returns_fresh_empty sh dt : returns_fresh (cupy.empty sh dt).
Proof.
  intros h r h' [= <- <-]. simpl. split.
  - by apply lookup_ge_None.
  - eexists. by apply list_lookup_middle.
Qed.

Lemma returns_fresh_call sh dt body : returns_fresh (elementwise.call sh dt body).
Proof.
  unfold elementwise.call. apply returns_fresh_bind.
  - unfold elementwise.run. alloc_solve.
  - intros vals. apply returns_fresh_fresh.
Qed.

#[global] Hint Resolve returns_fresh_raise returns_fresh_fresh returns_fresh_empty
  returns_fresh_call : alloc.

Ltac fresh_step :=
  lazymatch goal with
  | |- returns_fresh (bind _ _) =>
      apply returns_fresh_bind; [solve [alloc_solve]|intros ?]
  | |- returns_fresh (match ?x with _ => _ end) => destruct x
  | |- returns_fresh _ => solve [auto with alloc]
  end.


Lemma returns_fresh_choose a choices out mode :
  returns_fresh (choose a choices out mode).
Proof. unfold choose, choose_mode, _choose_kernel, _choose_clip_kernel. repeat fresh_step. Qed.

(** ** Python subscripts and transposition *)

Lemma subscript_nonneg n k : 0 <= k < n -> subscript n k = Some (Z.to_nat k).
Proof.
  intros H. unfold subscript.
  replace (k <? 0) with false by (symmetry; apply Z.ltb_ge; lia).
  replace ((0 <=? k) && (k <? n)) with true; [done|].
  symmetry. apply andb_true_iff. split; [apply Z.leb_le|apply Z.ltb_lt]; lia.
Qed.

Lemma subscript_neg n k : - n <= k < 0 -> subscript n k = Some (Z.to_nat (k + n)).
Proof.
  intros H. unfold subscript.
  replace (k <? 0) with true by (symmetry; apply Z.ltb_lt; lia).
  replace ((0 <=? k + n) && (k + n <? n)) with true; [done|].
  symmetry. apply andb_true_iff. split; [apply Z.leb_le|apply Z.ltb_lt]; lia.
Qed.

Lemma subscript_of_nat n (p : nat) :
  (p < n)%nat -> subscript (Z.of_nat n) (Z.of_nat p) = Some p.
Proof. intros H. rewrite subscript_nonneg by lia. f_equal. lia. Qed.

Lemma mapM_lookup_total (l : list Z) (ps : list nat) :
  Forall (fun p => (p < length l)%nat) ps ->
  mapM (fun k => l !! k) ps = Some ((fun k => l !!! k) <$> ps).
Proof.
  intros H. apply mapM_Some_2. apply Forall2_fmap_r, Forall_Forall2_diag.
  eapply Forall_impl; [exact H|]. intros p Hp. simpl.
  by apply list_lookup_lookup_total_lt.
Qed.

Lemma lookup_total_seq (l : list Z) :
  (fun k => l !!! k) <$> seq 0 (length l) = l.
Proof.
  apply list_eq. intros i. rewrite list_lookup_fmap.
  destruct (decide (i < length l)%nat) as [Hi|Hi].
  - rewrite lookup_seq_lt by done. simpl.
    symmetry. by apply list_lookup_lookup_total_lt.
  - rewrite lookup_seq_ge by lia. simpl. symmetry. apply lookup_ge_None. lia.
Qed.

Lemma lookup_total_remove_axes (l : list Z) p1 p2 :
  (fun k => l !!! k) <$> remove_axes (seq 0 (length l)) p1 p2 = remove_axes l p1 p2.
Proof. unfold remove_axes. by rewrite !list_fmap_delete, lookup_total_seq. Qed.

Lemma not_elem_of_delete {A} (l : list A) i x :
  NoDup l -> l !! i = Some x -> x ∉ delete i l.
Proof.
  intros Hnd Hi.
  pose proof (take_drop_middle l i x Hi) as Hsplit.
  assert (length (list.take i l) = i) as Hlen.
  { rewrite length_take. apply lookup_lt_Some in Hi. lia. }
  pose proof (delete_middle (list.take i l) (drop (S i) l) x) as Hd.
  rewrite Hlen, Hsplit in Hd. rewrite Hd.
  rewrite <- Hsplit in Hnd.
  apply NoDup_app in Hnd as (_ & H1 & H2). apply NoDup_cons in H2 as [H2 _].
  intros [Hin|Hin]%elem_of_app; [|done].
  apply (H1 _ Hin). left.
Qed.

Lemma length_remove_axes {A} (l : list A) p1 p2 :
  p1 <> p2 -> (p1 < length l)%nat -> (p2 < length l)%nat ->
  length (remove_axes l p1 p2) = (length l - 2)%nat.
Proof.
  intros Hne H1 H2. unfold remove_axes.
  rewrite !length_delete; [lia| |].
  - apply lookup_lt_is_Some. lia.
  - apply lookup_lt_is_Some. rewrite length_delete by (apply lookup_lt_is_Some; lia). lia.
Qed.

Lemma remove_axes_seq_spec n p1 p2 :
  p1 <> p2 -> (p1 < n)%nat -> (p2 < n)%nat ->
  NoDup (remove_axes (seq 0 n) p1 p2)
  /\ (p1 ∉ remove_axes (seq 0 n) p1 p2)
  /\ (p2 ∉ remove_axes (seq 0 n) p1 p2)
  /\ Forall (fun p => (p < n)%nat) (remove_axes (seq 0 n) p1 p2).
Proof.
  intros Hne H1 H2. unfold remove_axes.
  set (hi := Nat.max p1 p2). set (lo := Nat.min p1 p2).
  assert (NoDup (seq 0 n)) as Hnd by apply NoDup_seq.
  assert (NoDup (delete hi (seq 0 n))) as Hnd1
    by (eapply sublist_NoDup; [exact Hnd|apply sublist_delete]).
  assert (hi ∉ delete hi (seq 0 n)) as Hhi.
  { apply not_elem_of_delete; [done|]. apply lookup_seq_lt. lia. }
  assert (delete hi (seq 0 n) !! lo = Some lo) as Hlo.
  { rewrite list_lookup_delete_lt by lia. apply lookup_seq_lt. lia. }
  assert (lo ∉ delete lo (delete hi (seq 0 n))) as Hlo'
    by (by apply not_elem_of_delete).
  assert (hi ∉ delete lo (delete hi (seq 0 n))) as Hhi'.
  { intros Hin. apply Hhi. eapply list_elem_of_delete_inv; exact Hin. }
  repeat split.
  - eapply sublist_NoDup; [exact Hnd1|apply sublist_delete].
  - destruct (Nat.max_spec p1 p2) as [[? Hm]|[? Hm]],
      (Nat.min_spec p1 p2) as [[? Hn]|[? Hn]]; try lia;
      fold hi in Hm; fold lo in Hn; congruence.
  - destruct (Nat.max_spec p1 p2) as [[? Hm]|[? Hm]],
      (Nat.min_spec p1 p2) as [[? Hn]|[? Hn]]; try lia;
      fold hi in Hm; fold lo in Hn; congruence.
  - apply Forall_forall. intros x Hx.
    apply list_elem_of_delete_inv, list_elem_of_delete_inv in Hx.
    apply elem_of_seq in Hx. lia.
Qed.

Lemma transpose_perm a (ps : list nat) h :
  length (strides a) = length (shape a) ->
  length ps = length (shape a) -> NoDup ps ->
  Forall (fun p => (p < length (shape a))%nat) ps ->
  cupy.transpose a (Z.of_nat <$> ps) h
  = (Ok {| data := data a; data_offset := data_offset a;
           shape := (fun k => shape a !!! k) <$> ps;
           strides := (fun k => strides a !!! k) <$> ps;
           dtype_of := dtype_of a; size := size a;
           c_contiguous := -1; f_contiguous := -1 |}, h).
Proof.
  intros Hst Hlen Hnd Hlt. unfold cupy.transpose.
  assert (mapM (subscript (ndim a)) (Z.of_nat <$> ps) = Some ps) as ->.
  { apply mapM_fmap_Forall_Some. eapply Forall_impl; [exact Hlt|].
    intros p Hp. by apply subscript_of_nat. }
  rewrite (bool_decide_eq_true_2 _ Hlen), (bool_decide_eq_true_2 _ Hnd). simpl.
  rewrite (mapM_lookup_total (shape a) ps Hlt).
  rewrite (mapM_lookup_total (strides a) ps) by (by rewrite Hst).
  reflexivity.
Qed.

(** ** [take]: the axis check *)

(** C9: [take] with an explicit axis that is not below the rank of the source
    raises the invalid-argument error "Axis overrun", for every form of the
    indices and of the output argument, and it does so before anything else
    is computed: the store is the one the call started from. *)
Theorem take_axis_overrun a indices axis out h :
  axis >= ndim a ->
  take a indices (Some axis) out h = (Raise (ValueError "Axis overrun"), h).
Proof.
  intros H. unfold take, bind.
  replace (axis >=? ndim a) with true by (symmetry; apply Z.geb_le; lia).
  reflexivity.
Qed.

Lemma take_axis_overrun_witness :
  2 >= ndim Ex.a23
  /\ take Ex.a23 (IList [0; 1]) (Some 2) (Some Ex.a21) Ex.store0
     = (Raise (ValueError "Axis overrun"), Ex.store0).
Proof.
  assert (2 >= ndim Ex.a23) as H by (vm_compute; discriminate).
  split; [exact H|]. exact (take_axis_overrun _ _ _ _ _ H).
Defined.

(** ** [choose]: the output argument *)

(** C10: [choose] ignores a caller-supplied [out]: the call does what it does
    with any other output argument (it neither reads nor validates [out]),
    the buffer of [out] and its elements are after the call what they were
    before, in every mode, and a returned result lives in a buffer allocated
    by the call, distinct from the one of [out]. *)
Theorem choose_ignores_out a choices out mode h r h' :
  is_Some (h !! data out) ->
  choose a choices (Some out) mode h = (r, h') ->
  (forall out', choose a choices out' mode h = (r, h'))
  /\ h' !! data out = h !! data out
  /\ elements h' out = elements h out
  /\ forall res, r = Ok res ->
       data res <> data out /\ h !! data res = None /\ is_Some (h' !! data res).
Proof.
  intros Hout Hcall.
  pose proof (only_allocates_choose _ _ _ _ _ _ _ Hcall) as Hp.
  split; [intros out'; exact Hcall|].
  split; [destruct Hout as [b Hb]; rewrite Hb; by eapply prefix_lookup_Some|].
  split; [by apply elements_prefix|].
  intros res ->.
  destruct (returns_fresh_choose _ _ _ _ _ _ _ Hcall) as [Hnone Hsome].
  split; [|done].
  intros Heq. rewrite Heq in Hnone. rewrite Hnone in Hout. by destruct Hout.
Qed.

(** ** [diagonal]: the run of the function *)

Lemma py_del_seq n (p : nat) (l : list nat) :
  length l = n -> (p < n)%nat ->
  py_del (Z.of_nat <$> l) (Z.of_nat p) = Some (Z.of_nat <$> delete p l).
Proof.
  intros Hl Hp. unfold py_del. rewrite length_fmap, Hl.
  rewrite subscript_of_nat by done. simpl. by rewrite list_fmap_delete.
Qed.

Lemma py_getitem_last2 {A} (l : list A) u v :
  py_getitem (l ++ [u; v]) (-2) = Some u /\ py_getitem (l ++ [u; v]) (-1) = Some v.
Proof.
  unfold py_getitem. rewrite length_app. simpl.
  rewrite !subscript_neg by lia. simpl. split.
  - replace (Z.to_nat (-2 + Z.of_nat (length l + 2))) with (length l + 0)%nat by lia.
    rewrite lookup_app_r by lia. by replace (length l + 0 - length l)%nat with 0%nat by lia.
  - replace (Z.to_nat (-1 + Z.of_nat (length l + 2))) with (length l + 1)%nat by lia.
    rewrite lookup_app_r by lia. by replace (length l + 1 - length l)%nat with 1%nat by lia.
Qed.

Lemma slice_to_last2 {A} (l : list A) u v : slice_to (l ++ [u; v]) (-2) = l.
Proof.
  unfold slice_to, slice_bound. rewrite length_app. simpl.
  replace (Z.to_nat (Z.max 0 (-2 + Z.of_nat (length l + 2)))) with (length l) by lia.
  apply take_app_length.
Qed.

Lemma reverse_last2 {A} (l : list A) u v : reverse (l ++ [u; v]) = v :: u :: reverse l.
Proof. by rewrite reverse_app. Qed.

Lemma slice_axis_window d b n :
  0 <= b -> 0 <= n -> b + n <= d ->
  cupy.slice_axis d (Some b) (Some (b + n)) = (b, n).
Proof.
  intros Hb Hn Hd. unfold cupy.slice_axis, slice_bound. simpl.
  replace (b <? 0) with false by (symmetry; apply Z.ltb_ge; lia).
  replace (b + n <? 0) with false by (symmetry; apply Z.ltb_ge; lia).
  f_equal; lia.
Qed.

Lemma slice_axis_prefix d n :
  0 <= n <= d -> cupy.slice_axis d None (Some n) = (0, n).
Proof.
  intros Hn. unfold cupy.slice_axis, slice_bound. simpl.
  replace (n <? 0) with false by (symmetry; apply Z.ltb_ge; lia).
  f_equal; lia.
Qed.

Lemma diagonal_run a offset axis1 axis2 h :
  length (strides a) = length (shape a) ->
  0 <= axis1 < ndim a -> 0 <= axis2 < ndim a -> axis1 <> axis2 ->
  diagonal a offset axis1 axis2 h =
    let '(x, y, off) := diagonal_axes offset axis1 axis2 in
    let lead := remove_axes (shape a) (Z.to_nat axis1) (Z.to_nat axis2) in
    let d := diag_size_of (shape a) offset axis1 axis2 in
    if d =? 0 then cupy.empty (lead ++ [d]) (dtype_of a) h
    else (Ok {| data := data a;
                data_offset := data_offset a + off * (strides a !!! y);
                shape := lead ++ [d];
                strides := remove_axes (strides a) (Z.to_nat axis1) (Z.to_nat axis2)
                             ++ [strides a !!! y + strides a !!! x];
                dtype_of := dtype_of a;
                size := internal.prod (lead ++ [d]);
                c_contiguous := -1; f_contiguous := -1 |}, h).
Proof.
  intros Hst H1 H2 Hne. unfold ndim in *.
  set (n := length (shape a)) in *.
  set (p1 := Z.to_nat axis1). set (p2 := Z.to_nat axis2).
  assert (axis1 = Z.of_nat p1) as E1 by lia.
  assert (axis2 = Z.of_nat p2) as E2 by lia.
  assert (p1 <> p2) as Hne' by lia.
  assert (p1 < n)%nat as Hp1 by lia. assert (p2 < n)%nat as Hp2 by lia.
  unfold diagonal.
  (* the two deletions *)
  assert ((if axis1 <? axis2 then (axis1, axis2) else (axis2, axis1))
          = (Z.of_nat (Nat.min p1 p2), Z.of_nat (Nat.max p1 p2))) as ->.
  { destruct (Z.ltb_spec axis1 axis2); f_equal; lia. }
  unfold bind at 1.
  change (map Z.of_nat (seq 0 n)) with (Z.of_nat <$> seq 0 n).
  rewrite (py_del_seq n) by (rewrite ?length_seq; lia). simpl.
  unfold bind at 1.
  rewrite (py_del_seq (n - 1)); [|rewrite length_delete|].
  2:{ rewrite length_seq. done. }
  2:{ apply lookup_lt_is_Some. rewrite length_seq. lia. }
  2:{ lia. }
  simpl. fold (remove_axes (seq 0 n) p1 p2).
  destruct (remove_axes_seq_spec n p1 p2 Hne' Hp1 Hp2) as (Hnd & Hn1 & Hn2 & Hlt).
  pose proof (length_remove_axes (seq 0 n) p1 p2 Hne') as Hlen.
  rewrite length_seq in Hlen. specialize (Hlen Hp1 Hp2).
  (* the transposition, for the two axes in either order *)
  assert (forall x y : nat, x <> y -> (x < n)%nat -> (y < n)%nat ->
            x ∉ remove_axes (seq 0 n) p1 p2 -> y ∉ remove_axes (seq 0 n) p1 p2 ->
            cupy.transpose a ((Z.of_nat <$> remove_axes (seq 0 n) p1 p2)
                              ++ [Z.of_nat x; Z.of_nat y]) h
            = (Ok {| data := data a; data_offset := data_offset a;
                     shape := remove_axes (shape a) p1 p2
                                ++ [shape a !!! x; shape a !!! y];
                     strides := remove_axes (strides a) p1 p2
                                ++ [strides a !!! x; strides a !!! y];
                     dtype_of := dtype_of a; size := size a;
                     c_contiguous := -1; f_contiguous := -1 |}, h)) as Htr.
  { intros x y Hxy Hx Hy Hnx Hny.
    change [Z.of_nat x; Z.of_nat y] with (Z.of_nat <$> [x; y]).
    rewrite <- fmap_app. rewrite transpose_perm.
    - rewrite !fmap_app.
      fold n. rewrite <- Hst at 2.
      rewrite !lookup_total_remove_axes. reflexivity.
    - done.
    - rewrite length_app, Hlen. simpl. fold n. lia.
    - apply NoDup_app. split; [done|]. split.
      + intros z Hz [->|[->|[]%elem_of_nil]%elem_of_cons]%elem_of_cons; done.
      + apply NoDup_cons. split; [|apply NoDup_singleton].
        intros ->%list_elem_of_singleton. done.
    - apply Forall_app. split; [done|]. repeat constructor; done. }
  unfold diag_size_of, diagonal_axes.
  fold p1 p2.
  assert (forall (x y : nat) (off : Z), 0 <= off ->
    (let a' := {| data := data a; data_offset := data_offset a;
                  shape := remove_axes (shape a) p1 p2
                             ++ [shape a !!! x; shape a !!! y];
                  strides := remove_axes (strides a) p1 p2
                             ++ [strides a !!! x; strides a !!! y];
                  dtype_of := dtype_of a; size := size a;
                  c_contiguous := -1; f_contiguous := -1 |} in
     let d := Z.max 0 (Z.min (shape a !!! x) (shape a !!! y - off)) in
     cupy.getitem_window a' (None, Some d) (Some off, Some (off + d)) h
     = if d =? 0 then cupy.getitem_window a' (None, Some d) (Some off, Some (off + d)) h
       else (Ok {| data := data a;
                   data_offset := data_offset a + 0 * (strides a !!! x)
                                  + off * (strides a !!! y);
                   shape := remove_axes (shape a) p1 p2 ++ [d; d];
                   strides := strides a';
                   dtype_of := dtype_of a;
                   size := internal.prod (remove_axes (shape a) p1 p2 ++ [d; d]);
                   c_contiguous := -1; f_contiguous := -1 |}, h))) as Hwin.
  { intros x y off Hoff a' d. destruct (Z.eqb_spec d 0) as [|Hd]; [done|].
    unfold cupy.getitem_window. subst a'. cbn [shape strides data data_offset dtype_of].
    rewrite !reverse_last2. cbn [fst snd].
    rewrite slice_axis_prefix by (subst d; lia).
    rewrite slice_axis_window by (subst d; lia).
    rewrite reverse_involutive. reflexivity. }
  unfold diag_size_of, diagonal_axes. fold p1 p2.
  destruct (offset >=? 0) eqn:Hoff.
  - apply Z.geb_le in Hoff.
    unfold bind at 1. unfold bind at 1.
    rewrite E1, E2 at 1. rewrite Htr by done.
    cbv beta iota. unfold ret at 1. cbv beta iota.
    cbn [shape strides data data_offset dtype_of].
    destruct (py_getitem_last2 (remove_axes (shape a) p1 p2)
                (shape a !!! p1) (shape a !!! p2)) as [G2 G1].
    unfold bind at 1. rewrite G2. cbn [or_raise ret].
    unfold bind at 1. rewrite G1. cbn [or_raise ret].
    rewrite slice_to_last2.
    destruct (Z.eqb_spec (Z.max 0 (Z.min (shape a !!! p1) (shape a !!! p2 - offset))) 0)
      as [Hd|Hd]; [reflexivity|].
    unfold bind at 1. rewrite Hwin by lia.
    rewrite (proj2 (Z.eqb_neq _ _) Hd).
    cbn [shape strides data data_offset dtype_of cupy.view].
    destruct (py_getitem_last2 (remove_axes (strides a) p1 p2)
                (strides a !!! p1) (strides a !!! p2)) as [S2 S1].
    unfold bind at 1. rewrite S1. cbn [or_raise ret].
    unfold bind at 1. rewrite S2. cbn [or_raise ret].
    rewrite !slice_to_last2. unfold ret.
    rewrite Z.mul_0_l, Z.add_0_r. reflexivity.
  - assert (offset < 0) as Hneg by (rewrite Z.geb_leb in Hoff; apply Z.leb_gt in Hoff; lia).
    unfold bind at 1. unfold bind at 1.
    rewrite E1, E2 at 1. rewrite Htr by done.
    cbv beta iota. unfold ret at 1. cbv beta iota.
    cbn [shape strides data data_offset dtype_of].
    destruct (py_getitem_last2 (remove_axes (shape a) p1 p2)
                (shape a !!! p2) (shape a !!! p1)) as [G2 G1].
    unfold bind at 1. rewrite G2. cbn [or_raise ret].
    unfold bind at 1. rewrite G1. cbn [or_raise ret].
    rewrite slice_to_last2.
    destruct (Z.eqb_spec (Z.max 0 (Z.min (shape a !!! p2) (shape a !!! p1 - - offset))) 0)
      as [Hd|Hd]; [reflexivity|].
    unfold bind at 1. rewrite Hwin by lia.
    rewrite (proj2 (Z.eqb_neq _ _) Hd).
    cbn [shape strides data data_offset dtype_of cupy.view].
    destruct (py_getitem_last2 (remove_axes (strides a) p1 p2)
                (strides a !!! p2) (strides a !!! p1)) as [S2 S1].
    unfold bind at 1. rewrite S1. cbn [or_raise ret].
    unfold bind at 1. rewrite S2. cbn [or_raise ret].
    rewrite !slice_to_last2. unfold ret.
    rewrite Z.mul_0_l, Z.add_0_r. reflexivity.
Qed.
(** ** C-contiguous arrays over a whole buffer *)

Lemma at_index_c_array (h : heap) buf sh dt vals idx :
  h !! buf = Some vals -> valid_index sh idx ->
  at_index h (cupy.c_array buf sh dt) idx = vals !! Z.to_nat (dot idx (c_strides sh)).
Proof.
  intros Hb Hv. unfold at_index, address, load.
  cbn [data data_offset strides cupy.c_array]. rewrite Z.add_0_l.
  pose proof (dot_valid_bounds sh idx Hv).
  replace (0 <=? dot idx (c_strides sh)) with true by (symmetry; apply Z.leb_le; lia).
  by rewrite Hb.
Qed.

Lemma read_flat_c_array (h : heap) buf sh dt vals i :
  h !! buf = Some vals -> Forall (fun d => 0 <= d) sh ->
  0 <= i < internal.prod sh ->
  read_flat h (cupy.c_array buf sh dt) i = vals !! Z.to_nat i.
Proof.
  intros Hb Hsh Hi. unfold read_flat. cbn [size shape cupy.c_array].
  replace ((0 <=? i) && (i <? internal.prod sh)) with true
    by (symmetry; apply andb_true_iff; split; [apply Z.leb_le|apply Z.ltb_lt]; lia).
  destruct (unravel_in_range sh i Hsh Hi) as [Hv Hdot].
  rewrite (at_index_c_array h buf sh dt vals) by done.
  by rewrite Hdot.
Qed.

Lemma wf_c_array (h : heap) buf sh dt vals :
  h !! buf = Some vals -> Forall (fun d => 0 <= d) sh ->
  length vals = Z.to_nat (internal.prod sh) ->
  wf_array h (cupy.c_array buf sh dt).
Proof.
  intros Hb Hsh Hlen. split; simpl.
  - by exists vals.
  - done.
  - apply length_c_strides.
  - done.
  - done.
  - intros idx Hv. rewrite (at_index_c_array h buf sh dt vals) by done.
    apply lookup_lt_is_Some. pose proof (dot_valid_bounds sh idx Hv). lia.
Qed.

Lemma elements_c_array (h : heap) buf sh dt vals :
  h !! buf = Some vals -> Forall (fun d => 0 <= d) sh ->
  length vals = Z.to_nat (internal.prod sh) ->
  elements h (cupy.c_array buf sh dt) = Some vals.
Proof.
  intros Hb Hsh Hlen. unfold elements, indices_upto. cbn [size cupy.c_array].
  apply mapM_Some_2. apply Forall2_same_length_lookup_2.
  - rewrite length_seqZ. lia.
  - intros j i v Hi Hv. apply lookup_seqZ in Hi as [-> Hj].
    rewrite (read_flat_c_array h buf sh dt vals) by (done || lia).
    rewrite <- Hv. f_equal. lia.
Qed.

(** ** [diagonal]: the shape of the result and the main diagonal *)

(** C7: for valid distinct axes, [diagonal] returns an array whose shape is
    the shape of the source without the two axes, followed by
    [diag_size = max(0, min(trailing_dim0, trailing_dim1 - offset))], taken
    over the two axes as reordered (swapped, with the offset negated, when
    the offset is negative).  When [diag_size] is 0 the result is an empty
    array in a buffer that the call allocates, not an error and not a view;
    otherwise the store is unchanged and the result is over the buffer of
    the source. *)
Theorem diagonal_shape a offset axis1 axis2 h :
  length (strides a) = length (shape a) ->
  0 <= axis1 < ndim a -> 0 <= axis2 < ndim a -> axis1 <> axis2 ->
  let diag_size := diag_size_of (shape a) offset axis1 axis2 in
  exists r h',
    diagonal a offset axis1 axis2 h = (Ok r, h')
    /\ shape r = remove_axes (shape a) (Z.to_nat axis1) (Z.to_nat axis2) ++ [diag_size]
    /\ (diag_size = 0 ->
        h !! data r = None /\ h' = h ++ [[]] /\ size r = 0 /\ elements h' r = Some [])
    /\ (diag_size <> 0 -> h' = h /\ data r = data a).
Proof.
  intros Hst H1 H2 Hne diag_size.
  rewrite (diagonal_run a offset axis1 axis2 h Hst H1 H2 Hne).
  destruct (diagonal_axes offset axis1 axis2) as [[x y] off].
  cbv zeta. fold diag_size.
  destruct (Z.eqb_spec diag_size 0) as [Hd|Hd].
  - rewrite Hd.
    assert (internal.prod (remove_axes (shape a) (Z.to_nat axis1) (Z.to_nat axis2) ++ [0]) = 0)
      as Hprod.
    { rewrite prod_app, prod_cons. lia. }
    eexists _, _. split; [reflexivity|]. simpl. rewrite Hprod. simpl.
    repeat split; try done.
    + by apply lookup_ge_None.
    + unfold elements. cbn [size cupy.c_array]. by rewrite Hprod.
  - eexists _, _. split; [reflexivity|]. simpl. repeat split; done.
Qed.

Lemma diagonal_shape_witness :
  exists r h',
    diagonal Ex.a33 3 0 1 Ex.store0 = (Ok r, h')
    /\ shape r = [0]
    /\ h' = Ex.store0 ++ [[]].
Proof.
  assert (length (strides Ex.a33) = length (shape Ex.a33)) as Hst by reflexivity.
  assert (0 <= 0 < ndim Ex.a33) as H1 by (vm_compute; split; [discriminate|reflexivity]).
  assert (0 <= 1 < ndim Ex.a33) as H2 by (vm_compute; split; [discriminate|reflexivity]).
  assert (0 <> 1) as Hne by discriminate.
  destruct (diagonal_shape Ex.a33 3 0 1 Ex.store0 Hst H1 H2 Hne)
    as (r & h' & Hrun & Hsh & Hz & _).
  exists r, h'. split; [exact Hrun|]. split; [exact Hsh|].
  exact (proj1 (proj2 (Hz eq_refl))).
Defined.

(** C8: on a square two-dimensional array of side [n], the main diagonal
    [diagonal(a, 0, 0, 1)] is a rank-1 array of length [n] whose [i]-th
    element is [a[i, i]]; it is a view: no buffer is allocated or written,
    the result is over the buffer of [a], and its stride is the sum of the
    two strides of [a]. *)
Theorem diagonal_main_square a n s0 s1 h :
  wf_array h a ->
  shape a = [n; n] -> strides a = [s0; s1] -> 0 < n ->
  exists r,
    diagonal a 0 0 1 h = (Ok r, h)
    /\ shape r = [n] /\ size r = n
    /\ data r = data a /\ strides r = [s1 + s0]
    /\ forall i, 0 <= i < n ->
         exists v, at_index h a [i; i] = Some v /\ read_flat h r i = Some v.
Proof.
  intros Hwf Hsh Hst Hn.
  assert (length (strides a) = length (shape a)) as Hlen by (by rewrite Hsh, Hst).
  assert (0 <= 0 < ndim a) as H1 by (unfold ndim; rewrite Hsh; simpl; lia).
  assert (0 <= 1 < ndim a) as H2 by (unfold ndim; rewrite Hsh; simpl; lia).
  rewrite (diagonal_run a 0 0 1 h Hlen H1 H2) by done.
  unfold diag_size_of, diagonal_axes. simpl.
  rewrite Hsh, Hst. unfold remove_axes. simpl.
  change ([n; n] !!! 0%nat) with n. change ([n; n] !!! 1%nat) with n.
  change ([s0; s1] !!! 0%nat) with s0. change ([s0; s1] !!! 1%nat) with s1.
  replace (Z.max 0 (Z.min n (n - 0))) with n by lia.
  rewrite (proj2 (Z.eqb_neq n 0)) by lia.
  eexists. split; [reflexivity|]. simpl.
  assert (internal.prod [n] = n) as Hp by (rewrite prod_cons; change (internal.prod []) with 1; lia).
  repeat split; try done.
  intros i Hi.
  destruct (wf_bounds h a Hwf [i; i]) as [v Hv].
  { rewrite Hsh. repeat constructor; lia. }
  exists v. split; [done|].
  unfold read_flat. cbn [size shape]. rewrite Hp.
  replace ((0 <=? i) && (i <? n)) with true
    by (symmetry; apply andb_true_iff; split; [apply Z.leb_le|apply Z.ltb_lt]; lia).
  simpl. rewrite Z.mod_small by lia.
  rewrite <- Hv. unfold at_index, address. simpl. rewrite Hst. simpl.
  f_equal. lia.
Qed.

Lemma diagonal_main_square_witness :
  exists r,
    diagonal Ex.a33 0 0 1 Ex.store0 = (Ok r, Ex.store0)
    /\ strides r = [1 + 3]
    /\ read_flat Ex.store0 r 1 = Some 5.
Proof.
  assert (wf_array Ex.store0 Ex.a33) as Hwf.
  { apply (wf_c_array Ex.store0 3 [3; 3] int32 [1; 2; 3; 4; 5; 6; 7; 8; 9]).
    - reflexivity.
    - repeat constructor; discriminate.
    - reflexivity. }
  assert (0 < 3) as Hn by reflexivity.
  destruct (diagonal_main_square Ex.a33 3 3 1 Ex.store0 Hwf eq_refl eq_refl Hn)
    as (r & Hrun & _ & _ & _ & Hs & Hel).
  exists r. split; [exact Hrun|]. split; [exact Hs|].
  destruct (Hel 1) as (v & Hv & Hr); [split; [discriminate|reflexivity]|].
  rewrite Hr, <- Hv. reflexivity.
Defined.

Lemma choose_ignores_out_witness :
  is_Some (Ex.store0 !! data Ex.a23)
  /\ choose Ex.sel_bad Ex.choices34 None "clip" Ex.store0
     = (Ok (cupy.c_array 6 [4] float32), Ex.store0 ++ [[10; 11; 32; 23]])
  /\ (Ex.store0 ++ [[10; 11; 32; 23]]) !! data Ex.a23 = Ex.store0 !! data Ex.a23.
Proof.
  assert (is_Some (Ex.store0 !! data Ex.a23)) as Hout by (eexists; reflexivity).
  assert (choose Ex.sel_bad Ex.choices34 (Some Ex.a23) "clip" Ex.store0
          = (Ok (cupy.c_array 6 [4] float32), Ex.store0 ++ [[10; 11; 32; 23]]))
    as Hrun by (vm_compute; reflexivity).
  destruct (choose_ignores_out _ _ _ _ _ _ _ Hout Hrun) as (Hany & Hbuf & _).
  split; [exact Hout|]. split; [exact (Hany None)|exact Hbuf].
Defined.
(** ** Contiguous views, [reshape] and [ravel] *)

Lemma leb_ltb_true i n : 0 <= i < n -> (0 <=? i) && (i <? n) = true.
Proof. intros H. apply andb_true_iff. split; [apply Z.leb_le|apply Z.ltb_lt]; lia. Qed.

Lemma flat_valid sh i :
  Forall (fun d => 0 <= d) sh -> 0 <= i < internal.prod sh ->
  exists idx, (unravel sh i).1 = idx /\ valid_index sh idx /\ dot idx (c_strides sh) = i.
Proof. intros Hsh Hi. eexists. split; [reflexivity|]. by apply unravel_in_range. Qed.

Lemma read_flat_contig h a i :
  strides a = c_strides (shape a) -> Forall (fun d => 0 <= d) (shape a) ->
  size a = internal.prod (shape a) -> 0 <= i < size a ->
  read_flat h a i = load h (data a) (data_offset a + i).
Proof.
  intros Hst Hsh Hsz Hi. unfold read_flat. rewrite leb_ltb_true by done.
  unfold at_index, address. rewrite Hst.
  destruct (unravel_in_range (shape a) i Hsh) as [_ ->]; [lia|]. reflexivity.
Qed.

Lemma is_c_contiguous_strides h a :
  wf_array h a -> cupy.is_c_contiguous a = true -> strides a = c_strides (shape a).
Proof.
  intros Hwf. unfold cupy.is_c_contiguous.
  destruct (c_contiguous a <? 0); intros H%bool_decide_eq_true; [done|].
  by apply (wf_flag h a Hwf).
Qed.

(** What [reshape] returns on a well-formed array and a shape of the same
    size: an array of that shape with the same elements in C order. *)
Lemma reshape_ok h a sh :
  wf_array h a -> Forall (fun d => 0 <= d) sh -> internal.prod sh = size a ->
  exists a' h',
    cupy.reshape a sh h = (Ok a', h')
    /\ h `prefix_of` h'
    /\ shape a' = sh /\ size a' = size a /\ dtype_of a' = dtype_of a
    /\ wf_array h' a'
    /\ forall i, 0 <= i < size a -> read_flat h' a' i = read_flat h a i.
Proof.
  intros Hwf Hsh Hprod. unfold cupy.reshape.
  rewrite (bool_decide_eq_true_2 _ Hprod).
  destruct (cupy.is_c_contiguous a) eqn:Hc.
  - pose proof (is_c_contiguous_strides h a Hwf Hc) as Hst.
    eexists _, h. split; [reflexivity|]. split; [done|].
    assert (forall i, 0 <= i < size a ->
              read_flat h {| data := data a; data_offset := data_offset a;
                             shape := sh; strides := c_strides sh;
                             dtype_of := dtype_of a; size := size a;
                             c_contiguous := 1; f_contiguous := -1 |} i
              = read_flat h a i) as Hread.
    { intros i Hi. rewrite !read_flat_contig; try done.
      - apply (wf_dims h a Hwf).
      - apply (wf_size h a Hwf). }
    repeat split; try done.
    + apply (wf_alloc h a Hwf).
    + simpl. apply length_c_strides.
    + intros idx Hv. simpl in Hv.
      pose proof (dot_valid_bounds sh idx Hv) as Hb.
      destruct (read_flat_wf h a (dot idx (c_strides sh)) Hwf) as [v Hv']; [lia|].
      exists v. rewrite <- Hv', <- Hread by lia.
      unfold read_flat. cbn [size shape]. rewrite leb_ltb_true by lia.
      by rewrite unravel_dot.
  - destruct (elements_wf h a Hwf) as [vals Hvals].
    unfold bind, cupy.copy, bind, get_heap. rewrite Hvals. simpl.
    pose proof (length_elements h a vals Hvals) as Hlen.
    assert ((h ++ [vals]) !! length h = Some vals) as Hbuf by (by apply list_lookup_middle).
    eexists _, _. split; [reflexivity|]. split; [by apply prefix_app_r|].
    cbn [shape size dtype_of].
    rewrite (wf_size h a Hwf) in *. rewrite <- Hprod in *.
    assert (forall i, 0 <= i < internal.prod sh ->
              read_flat (h ++ [vals]) (cupy.c_array (length h) sh (dtype_of a)) i
              = read_flat h a i) as Hread.
    { intros i Hi. rewrite (read_flat_c_array _ _ _ _ vals) by done.
      apply (elements_lookup h a); [done|]. rewrite (wf_size h a Hwf). lia. }
    split; [done|]. split; [done|]. split; [done|]. split; [|exact Hread].
    exact (wf_c_array (h ++ [vals]) (length h) sh (dtype_of a) vals Hbuf Hsh Hlen).
Qed.

Lemma ravel_ok h a :
  wf_array h a ->
  exists a' h',
    cupy.ravel a h = (Ok a', h')
    /\ h `prefix_of` h'
    /\ shape a' = [size a] /\ size a' = size a /\ dtype_of a' = dtype_of a
    /\ wf_array h' a'
    /\ forall i, 0 <= i < size a -> read_flat h' a' i = read_flat h a i.
Proof.
  intros Hwf. unfold cupy.ravel. apply reshape_ok; [done| |].
  - constructor; [|constructor]. rewrite (wf_size h a Hwf).
    apply prod_nonneg, (wf_dims h a Hwf).
  - rewrite prod_cons. change (internal.prod []) with 1. lia.
Qed.
(** ** [take] and [choose]: a mismatched output argument *)

(** The first steps of [take]: the source as it is indexed, and the shapes
    on both sides of the axis. *)
Lemma take_prologue h a axis :
  wf_array h a -> valid_axis a axis ->
  exists a' h',
    match axis with
    | None => bind (cupy.ravel a) (fun a => ret (a, [], []))
    | Some axis =>
        if axis >=? ndim a
        then raise (ValueError "Axis overrun")
        else ret (a, slice_to (shape a) axis, slice_from (shape a) (axis + 1))
    end h
    = (Ok (a', match axis with None => [] | Some axis => slice_to (shape a) axis end,
               match axis with None => [] | Some axis => slice_from (shape a) (axis + 1) end),
       h')
    /\ h `prefix_of` h'
    /\ dtype_of a' = dtype_of a
    /\ wf_array h' a'
    /\ size a' = size a
    /\ forall i, read_flat h' a' i = read_flat h a i.
Proof.
  intros Hwf Hax. destruct axis as [axis|].
  - simpl in Hax.
    replace (axis >=? ndim a) with false
      by (symmetry; rewrite Z.geb_leb; apply Z.leb_gt; lia).
    exists a, h. repeat split; try done; apply Hwf.
  - destruct (ravel_ok h a Hwf) as (a' & h' & Hr & Hp & Hsh & Hsz & Hdt & Hwf' & Hrd).
    exists a', h'. unfold bind. rewrite Hr. do 5 (split; [done|]).
    intros i. destruct (decide (0 <= i < size a)) as [Hi|Hi]; [by apply Hrd|].
    unfold read_flat. rewrite Hsz.
    destruct ((0 <=? i) && (i <? size a)) eqn:E; [|done].
    apply andb_true_iff in E as [E1%Z.leb_le E2%Z.ltb_lt]. lia.
Qed.

(** C1, as the code has it: with array or array-like indices and a valid (or
    unset) axis, [take] rejects an [out] whose dtype differs from the one of
    the source with the type-mismatch error, and otherwise an [out] whose
    shape is not the expected one with the shape-mismatch error; the call
    leaves every buffer of the store, the one of [out] included, as it was.
    [choose], in every mode, does with an [out] what it does without one: a
    mismatched [out] is no error, and no buffer of the store is changed. *)
Theorem out_mismatch a indices ishape axis out h :
  wf_array h a -> valid_axis a axis ->
  indices_shape indices = Some ishape ->
  dtype_of out <> dtype_of a \/ shape out <> take_out_shape a ishape axis ->
  (exists h',
     take a indices axis (Some out) h
     = (Raise (if bool_decide (dtype_of out = dtype_of a)
               then ValueError "Output shape mismatch"
               else TypeError "Output dtype mismatch"), h')
     /\ h `prefix_of` h')
  /\ (forall sel choices mode r h',
        choose sel choices (Some out) mode h = (r, h') ->
        choose sel choices None mode h = (r, h') /\ h `prefix_of` h').
Proof.
  intros Hwf Hax Hish Hbad. split.
  - destruct (take_prologue h a axis Hwf Hax)
      as (a' & h1 & Hpro & Hp & Hdt & _).
    unfold take. unfold bind at 1. rewrite Hpro.
    assert (forall (i : ndarray) h2, shape i = ishape -> h1 `prefix_of` h2 ->
      exists h',
        take_gather a'
          match axis with None => [] | Some axis => slice_to (shape a) axis end
          match axis with None => [] | Some axis => slice_from (shape a) (axis + 1) end
          i (Some out) h2
        = (Raise (if bool_decide (dtype_of out = dtype_of a)
                  then ValueError "Output shape mismatch"
                  else TypeError "Output dtype mismatch"), h')
        /\ h `prefix_of` h') as Hcheck.
    { intros i h2 Hi Hp2. exists h2. split; [|by etrans].
      unfold take_gather. unfold bind at 1. rewrite Hdt, Hi.
      destruct (bool_decide (dtype_of out = dtype_of a)) eqn:Hd; simpl; [|done].
      apply bool_decide_eq_true in Hd.
      destruct Hbad as [Hbad|Hbad]; [done|].
      assert (shape out <> match axis with None => [] | Some axis => slice_to (shape a) axis end
                ++ ishape
                ++ match axis with None => []
                   | Some axis => slice_from (shape a) (axis + 1) end) as Hne.
      { destruct axis; [exact Hbad|]. simpl in Hbad. by rewrite app_nil_r. }
      by rewrite (bool_decide_eq_false_2 _ Hne). }
    destruct indices as [k|i|l]; simpl in Hish; [done| |].
    + injection Hish as Hish. by apply Hcheck.
    + injection Hish as Hish. unfold bind at 1. simpl.
      apply Hcheck; [exact Hish|]. by apply prefix_app_r.
  - intros sel choices mode r h' Hrun. split; [exact Hrun|].
    exact (only_allocates_choose _ _ _ _ _ _ _ Hrun).
Qed.

Lemma Ex_wf_a23 : wf_array Ex.store0 Ex.a23.
Proof.
  apply (wf_c_array Ex.store0 0 [2; 3] int64 [10; 20; 30; 40; 50; 60]).
  - reflexivity.
  - repeat constructor; discriminate.
  - reflexivity.
Defined.

Lemma out_mismatch_witness :
  dtype_of Ex.sel_good <> dtype_of Ex.a23
  /\ exists h',
       take Ex.a23 (IList [0; 2]) (Some 1) (Some Ex.sel_good) Ex.store0
       = (Raise (TypeError "Output dtype mismatch"), h')
       /\ Ex.store0 `prefix_of` h'.
Proof.
  assert (dtype_of Ex.sel_good <> dtype_of Ex.a23) as Hd by discriminate.
  assert (valid_axis Ex.a23 (Some 1)) as Hax
    by (vm_compute; split; [discriminate|reflexivity]).
  split; [exact Hd|].
  exact (proj1 (out_mismatch Ex.a23 (IList [0; 2]) [2] (Some 1) Ex.sel_good Ex.store0
                  Ex_wf_a23 Hax eq_refl (or_introl Hd))).
Defined.

(** C1 does not hold as stated: [choose] returns its result when [out] has
    another dtype and another shape than the result, and [take] with a scalar
    index writes into an [out] of another dtype without an error. *)
Lemma out_mismatch_counterexample :
  (dtype_of Ex.a23 <> dtype_of Ex.choices34 /\ shape Ex.a23 <> [4]
   /\ choose Ex.sel_good Ex.choices34 (Some Ex.a23) "raise" Ex.store0
      = (Ok (cupy.c_array 6 [4] float32), Ex.store0 ++ [[10; 31; 22; 23]]))
  /\ (dtype_of Ex.out2 <> dtype_of Ex.a23
      /\ take Ex.a23 (IScalar 1) (Some 1) (Some Ex.out2) Ex.store0
         = (Ok Ex.out2, <[4%nat := [20; 50]]> Ex.store0)).
Proof.
  split; [split; [discriminate|split; [discriminate|]]|split; [discriminate|]].
  - vm_compute. reflexivity.
  - vm_compute. reflexivity.
Qed.
(** ** Writing the elements of a C-contiguous array *)

Lemma write_prefix_c_array (h : heap) buf sh dt b0 vals :
  h !! buf = Some b0 -> Forall (fun d => 0 <= d) sh ->
  (length vals <= length b0)%nat -> Z.of_nat (length vals) <= internal.prod sh ->
  foldl (fun h' '(i, v) =>
           store h' buf (address (cupy.c_array buf sh dt) (unravel sh i).1) v)
        h (zip (seqZ 0 (Z.of_nat (length vals))) vals)
  = <[buf := vals ++ drop (length vals) b0]> h.
Proof.
  intros Hb Hsh. induction vals as [|v vs IH] using rev_ind; intros Hlen Hsz.
  - simpl. rewrite drop_0. symmetry. by apply list_insert_id.
  - rewrite length_app in *. simpl in *.
    replace (Z.of_nat (length vs + 1)) with (Z.of_nat (S (length vs))) by lia.
    rewrite seqZ_S, Z.add_0_l. rewrite zip_with_app by (rewrite length_seqZ; lia).
    rewrite foldl_app.
    rewrite IH by lia. simpl.
    unfold address. cbn [data_offset strides cupy.c_array].
    destruct (unravel_in_range sh (Z.of_nat (length vs)) Hsh) as [_ ->]; [lia|].
    unfold store. rewrite !Z.add_0_l.
    replace (0 <=? Z.of_nat (length vs)) with true by (symmetry; apply Z.leb_le; lia).
    rewrite list_lookup_insert_eq by (by eapply lookup_lt_Some).
    rewrite list_insert_insert_eq. f_equal.
    rewrite Nat2Z.id.
    destruct (lookup_lt_is_Some_2 b0 (length vs)) as [x Hx]; [lia|].
    rewrite (drop_S b0 x (length vs) Hx).
    rewrite insert_app_r_alt by lia.
    replace (length vs - length vs)%nat with 0%nat by lia. simpl.
    rewrite <- app_assoc. simpl. do 3 f_equal. lia.
Qed.

Lemma write_elements_c_array (h : heap) buf sh dt b0 vals :
  h !! buf = Some b0 -> Forall (fun d => 0 <= d) sh ->
  length b0 = Z.to_nat (internal.prod sh) ->
  length vals = Z.to_nat (internal.prod sh) ->
  write_elements h (cupy.c_array buf sh dt) vals = <[buf := vals]> h.
Proof.
  intros Hb Hsh Hb0 Hvals. unfold write_elements, indices_upto.
  cbn [data shape size cupy.c_array].
  pose proof (prod_nonneg sh Hsh).
  replace (internal.prod sh) with (Z.of_nat (length vals)) at 1 by lia.
  rewrite (write_prefix_c_array h buf sh dt b0 vals) by (done || lia).
  rewrite drop_ge by lia. by rewrite app_nil_r.
Qed.
(** ** Broadcast views *)

Lemma dot_app i1 i2 s1 s2 :
  length i1 = length s1 -> dot (i1 ++ i2) (s1 ++ s2) = dot i1 s1 + dot i2 s2.
Proof.
  revert s1. induction i1 as [|i i1 IH]; intros [|s s1] Hl; simpl in *; try done.
  rewrite IH by lia. lia.
Qed.

Lemma unravel_app l m i :
  unravel (l ++ m) i
  = ((unravel l (unravel m i).2).1 ++ (unravel m i).1, (unravel l (unravel m i).2).2).
Proof.
  induction l as [|d l IH]; simpl.
  - by destruct (unravel m i).
  - rewrite IH. by destruct (unravel l (unravel m i).2).
Qed.

Lemma c_strides_app l m :
  c_strides (l ++ m) = map (fun s => s * internal.prod m) (c_strides l) ++ c_strides m.
Proof.
  induction l as [|d l IH]; simpl; [done|].
  by rewrite IH, prod_app.
Qed.

Lemma dot_scale idx st c : dot idx (map (fun s => s * c) st) = dot idx st * c.
Proof.
  revert st. induction idx as [|i idx IH]; intros [|s st]; simpl; try lia.
  rewrite IH. lia.
Qed.

Lemma broadcast_strides_ok sh st tgt :
  broadcastable sh tgt -> length st = length sh ->
  is_Some (cupy.broadcast_strides sh st tgt).
Proof.
  intros Hb. revert st. induction Hb as [|d t sh tgt Hd Hb IH]; intros [|s st] Hl;
    simpl in *; try done.
  destruct (IH st) as [r ->]; [lia|]. simpl.
  destruct (Z.eqb_spec d t); [done|].
  destruct (Z.eqb_spec d 1); [done|]. lia.
Qed.

Lemma broadcast_strides_inv sh st tgt st' :
  cupy.broadcast_strides sh st tgt = Some st' ->
  broadcastable sh tgt /\ length st = length sh /\ length st' = length sh.
Proof.
  revert st tgt st'.
  induction sh as [|d sh IH]; intros [|s st] [|t tgt] st' H; simpl in H; try done.
  - injection H as <-. repeat split. constructor.
  - destruct (cupy.broadcast_strides sh st tgt) as [r|] eqn:E; [|done]. simpl in H.
    destruct (IH _ _ _ E) as (Hb & Hl & Hl').
    destruct (Z.eqb_spec d t).
    + injection H as <-. repeat split; simpl; try lia. constructor; [by left|done].
    + destruct (Z.eqb_spec d 1); [|done].
      injection H as <-. repeat split; simpl; try lia. constructor; [by right|done].
Qed.

(** A broadcast view shows at [idx] the source element at
    [broadcast_index sh idx]. *)
Lemma broadcast_strides_dot sh st tgt st' idx :
  cupy.broadcast_strides sh st tgt = Some st' -> valid_index tgt idx ->
  dot idx st' = dot (broadcast_index sh idx) st
  /\ valid_index sh (broadcast_index sh idx).
Proof.
  revert st tgt st' idx.
  induction sh as [|d sh IH]; intros [|s st] [|t tgt] st' idx H Hv; simpl in H; try done.
  - injection H as <-. inversion Hv; subst. split; [done|constructor].
  - destruct (cupy.broadcast_strides sh st tgt) as [r|] eqn:E; [|done]. simpl in H.
    inversion Hv as [|? k ? idx' Hk Hv']; subst.
    destruct (IH _ _ _ _ E Hv') as [Hdot Hval].
    unfold broadcast_index in *. simpl.
    destruct (Z.eqb_spec d t) as [->|Hne].
    + injection H as <-. simpl. rewrite Hdot.
      destruct (Z.eqb_spec t 1) as [->|]; split; try (constructor; [lia|done]).
      * assert (k = 0) as -> by lia. lia.
      * lia.
    + destruct (Z.eqb_spec d 1) as [->|]; [|done].
      injection H as <-. simpl. rewrite Hdot. split; [lia|].
      constructor; [lia|done].
Qed.

Lemma pad_left_same {A} n (x : A) l : length l = n -> cupy.pad_left n x l = l.
Proof. intros <-. unfold cupy.pad_left. by rewrite Nat.sub_diag. Qed.

(** Broadcasting an array to a shape of the same rank. *)
Lemma broadcast_to_same_rank h a tgt :
  wf_array h a -> length (shape a) = length tgt ->
  broadcastable (shape a) tgt -> Forall (fun d => 0 <= d) tgt ->
  exists b,
    cupy.broadcast_to a tgt = Some b
    /\ data b = data a /\ shape b = tgt /\ size b = internal.prod tgt
    /\ dtype_of b = dtype_of a
    /\ wf_array h b
    /\ forall idx, valid_index tgt idx ->
         valid_index (shape a) (broadcast_index (shape a) idx)
         /\ at_index h b idx = at_index h a (broadcast_index (shape a) idx).
Proof.
  intros Hwf Hlen Hb Htgt. unfold cupy.broadcast_to.
  rewrite !pad_left_same by (rewrite ?(wf_strides h a Hwf); done).
  destruct (broadcast_strides_ok (shape a) (strides a) tgt Hb (wf_strides h a Hwf))
    as [st Hst].
  rewrite Hst. simpl. eexists. split; [reflexivity|]. simpl.
  assert (forall idx, valid_index tgt idx ->
            valid_index (shape a) (broadcast_index (shape a) idx)
            /\ at_index h {| data := data a; data_offset := data_offset a;
                             shape := tgt; strides := st; dtype_of := dtype_of a;
                             size := internal.prod tgt;
                             c_contiguous := -1; f_contiguous := -1 |} idx
               = at_index h a (broadcast_index (shape a) idx)) as Hread.
  { intros idx Hv.
    destruct (broadcast_strides_dot _ _ _ _ _ Hst Hv) as [Hdot Hval].
    split; [done|]. unfold at_index, address. simpl. by rewrite Hdot. }
  do 4 (split; [done|]). split; [|exact Hread].
  split; simpl; try done.
  - apply (wf_alloc h a Hwf).
  - destruct (broadcast_strides_inv _ _ _ _ Hst) as (_ & _ & ->). done.
  - intros idx Hv. destruct (Hread idx Hv) as [Hval ->].
    by apply (wf_bounds h a Hwf).
Qed.
(** ** The index argument of the take kernel *)

Lemma broadcast_index_app s1 s2 i1 i2 :
  length s1 = length i1 ->
  broadcast_index (s1 ++ s2) (i1 ++ i2) = broadcast_index s1 i1 ++ broadcast_index s2 i2.
Proof. intros Hl. unfold broadcast_index. by rewrite zip_with_app. Qed.

Lemma broadcast_index_ones n idx :
  length idx = n -> broadcast_index (replicate n 1) idx = replicate n 0.
Proof.
  revert idx. induction n as [|n IH]; intros [|k idx] Hl; simpl in *; try done.
  unfold broadcast_index in *. simpl. f_equal. apply IH. lia.
Qed.

Lemma broadcast_index_valid sh idx : valid_index sh idx -> broadcast_index sh idx = idx.
Proof.
  induction 1 as [|d k sh idx Hk Hv IH]; [done|].
  unfold broadcast_index in *. simpl. rewrite IH. f_equal.
  destruct (Z.eqb_spec d 1); [lia|done].
Qed.

Lemma dot_zeros n st : dot (replicate n 0) st = 0.
Proof. revert st. induction n as [|n IH]; intros [|s st]; simpl; try done. by rewrite IH. Qed.

Lemma c_strides_ones n : c_strides (replicate n 1) = replicate n 1.
Proof. induction n as [|n IH]; simpl; [done|]. by rewrite IH, prod_replicate_1. Qed.

Lemma Forall_pos_app (l m : list Z) :
  Forall (fun d => 0 < d) (l ++ m) ->
  Forall (fun d => 0 < d) l /\ Forall (fun d => 0 < d) m.
Proof. apply Forall_app. Qed.

(** The reshaped indices, broadcast to the shape of the output, show at the
    output linear index [i] the index of slot [(i / rdim) mod cdim]. *)
Lemma gather_slot l m r i :
  Forall (fun d => 0 < d) (l ++ m ++ r) ->
  dot (broadcast_index (replicate (length l) 1 ++ m ++ replicate (length r) 1)
         (unravel (l ++ m ++ r) i).1)
      (c_strides (replicate (length l) 1 ++ m ++ replicate (length r) 1))
  = index_slot (internal.prod r) (internal.prod m) i.
Proof.
  intros Hpos. apply Forall_pos_app in Hpos as [Hl Hmr].
  apply Forall_pos_app in Hmr as [Hm Hr].
  rewrite !unravel_app. cbn [fst snd].
  destruct (unravel_spec r i Hr) as (_ & _ & Hqr).
  set (ir := (unravel r i).1). set (qr := (unravel r i).2) in *.
  destruct (unravel_spec m qr Hm) as (Hvm & Hdm & _).
  set (im := (unravel m qr).1) in *. set (qm := (unravel m qr).2).
  set (il := (unravel l qm).1).
  assert (length il = length l) as Hlil by apply length_unravel.
  assert (length im = length m) as Hlim by apply length_unravel.
  assert (length ir = length r) as Hlir by apply length_unravel.
  rewrite broadcast_index_app by (by rewrite length_replicate).
  rewrite broadcast_index_app by done.
  rewrite !broadcast_index_ones by done.
  rewrite (broadcast_index_valid m im Hvm).
  rewrite !c_strides_app, !c_strides_ones.
  rewrite dot_app by (by rewrite length_map, !length_replicate).
  rewrite dot_app by (by rewrite length_map, length_c_strides).
  rewrite !dot_zeros, dot_scale, Hdm, prod_replicate_1.
  unfold index_slot. subst qr. rewrite Hqr. lia.
Qed.

(** Reading a well-formed array at a multi-index is reading it at the linear
    index of that multi-index. *)
Lemma read_flat_dot h a idx :
  wf_array h a -> valid_index (shape a) idx ->
  read_flat h a (dot idx (c_strides (shape a))) = at_index h a idx.
Proof.
  intros Hwf Hv. unfold read_flat.
  pose proof (dot_valid_bounds (shape a) idx Hv) as Hb.
  rewrite (wf_size h a Hwf). rewrite leb_ltb_true by done.
  by rewrite unravel_dot.
Qed.

(** ** The gather of [take] *)

Lemma broadcastable_ones l : broadcastable (replicate (length l) 1) l.
Proof. induction l; simpl; constructor; [by right|done]. Qed.

Lemma broadcastable_refl m : broadcastable m m.
Proof. induction m; constructor; [by left|done]. Qed.

Lemma broadcastable_app s1 s2 t1 t2 :
  broadcastable s1 t1 -> broadcastable s2 t2 -> broadcastable (s1 ++ s2) (t1 ++ t2).
Proof. apply Forall2_app. Qed.

Lemma Forall_nonneg_ones n : Forall (fun d => 0 <= d) (replicate n 1).
Proof. apply Forall_replicate. simpl. lia. Qed.

Lemma insert_alloc_prefix (h h3 : heap) b vals :
  (h ++ [b]) `prefix_of` h3 -> h `prefix_of` <[length h := vals]> h3.
Proof.
  intros [k ->]. rewrite <- app_assoc. simpl.
  rewrite insert_app_r_alt by lia. rewrite Nat.sub_diag. simpl.
  by apply prefix_app_r.
Qed.

Lemma take_kernel_body h h3 a idx idx' bidx l r i :
  let oshape := l ++ shape idx ++ r in
  let S' := replicate (length l) 1 ++ shape idx ++ replicate (length r) 1 in
  wf_array h a -> wf_array h idx -> h `prefix_of` h3 ->
  Forall (fun d => 0 <= d) l -> Forall (fun d => 0 <= d) r ->
  shape idx' = S' -> wf_array h3 idx' ->
  (forall j, 0 <= j < size idx -> read_flat h3 idx' j = read_flat h idx j) ->
  size bidx = internal.prod oshape -> shape bidx = oshape ->
  (forall ix, valid_index oshape ix ->
     valid_index (shape idx') (broadcast_index (shape idx') ix)
     /\ at_index h3 bidx ix = at_index h3 idx' (broadcast_index (shape idx') ix)) ->
  0 <= i < internal.prod oshape ->
  (ind ← read_flat h3 bidx i;
   read_flat h3 a ((i ÷ (internal.prod r * size idx) * size idx + ind) * internal.prod r
                   + Z.rem i (internal.prod r)))
  = gather_element h a idx (internal.prod r) i.
Proof.
  intros oshape S' Hwfa Hwfi Hp Hl Hr Hsh' Hwf' Hreads Hbsz Hbsh Hb Hi.
  assert (Forall (fun d => 0 <= d) oshape) as Hdims.
  { unfold oshape. rewrite !Forall_app. repeat split; [done| |done].
    apply (wf_dims h idx Hwfi). }
  assert (Forall (fun d => 0 < d) oshape) as Hpos by (apply prod_pos_dims; [done|lia]).
  pose proof Hpos as Hpos'. unfold oshape in Hpos'.
  apply Forall_pos_app in Hpos' as [Hlpos Hmr].
  apply Forall_pos_app in Hmr as [Hmpos Hrpos].
  pose proof (prod_pos _ Hmpos) as Hm0. pose proof (prod_pos _ Hrpos) as Hr0.
  rewrite <- (wf_size h idx Hwfi) in Hm0.
  unfold gather_element.
  assert (read_flat h3 bidx i = read_flat h idx (index_slot (internal.prod r) (size idx) i))
    as ->.
  { unfold read_flat at 1. rewrite Hbsz, leb_ltb_true by done. rewrite Hbsh.
    destruct (unravel_in_range oshape i Hdims Hi) as [Hv _].
    destruct (Hb _ Hv) as [Hval ->].
    rewrite <- (read_flat_dot h3 idx') by done.
    rewrite Hsh'. unfold oshape, S'. rewrite gather_slot by done.
    rewrite <- (wf_size h idx Hwfi).
    apply Hreads. unfold index_slot. apply Z.mod_pos_bound. lia. }
  destruct (read_flat h idx (index_slot (internal.prod r) (size idx) i)) as [ind|];
    [|done].
  simpl. rewrite (read_flat_prefix h h3) by (done || apply Hwfa).
  f_equal. unfold gather_offset, left_block, right_block.
  rewrite Z.quot_div_nonneg by lia. rewrite Z.rem_mod_nonneg by lia. reflexivity.
Qed.

(** The gather into a newly allocated output: the values the kernel computes
    are those of the specification, and the call is undefined exactly when
    one of them is read outside the indices or the source. *)
Lemma take_gather_run h a l r idx :
  wf_array h a -> wf_array h idx ->
  Forall (fun d => 0 <= d) l -> Forall (fun d => 0 <= d) r ->
  let oshape := l ++ shape idx ++ r in
  exists h',
    h `prefix_of` h'
    /\ match mapM (gather_element h a idx (internal.prod r))
               (indices_upto (internal.prod oshape)) with
       | Some vals =>
           take_gather a l r idx None h
           = (Ok (cupy.c_array (length h) oshape (dtype_of a)), h')
           /\ h' !! length h = Some vals
       | None => take_gather a l r idx None h = (Undefined, h')
       end.
Proof.
  intros Hwfa Hwfi Hl Hr oshape.
  set (S' := replicate (length l) 1 ++ shape idx ++ replicate (length r) 1).
  set (zeros := replicate (Z.to_nat (internal.prod oshape)) 0).
  set (h2 := h ++ [zeros]).
  assert (h `prefix_of` h2) as Hp2 by (by apply prefix_app_r).
  assert (Forall (fun d => 0 <= d) oshape) as Hdims.
  { unfold oshape. rewrite !Forall_app. repeat split; [done| |done].
    apply (wf_dims h idx Hwfi). }
  assert (internal.prod S' = size idx) as HS'.
  { unfold S'. rewrite !prod_app, !prod_replicate_1, (wf_size h idx Hwfi). lia. }
  assert (Forall (fun d => 0 <= d) S') as HS'dims.
  { unfold S'. rewrite !Forall_app. repeat split; try apply Forall_nonneg_ones.
    apply (wf_dims h idx Hwfi). }
  destruct (reshape_ok h2 idx S' (wf_array_prefix h h2 idx Hp2 Hwfi) HS'dims HS')
    as (idx' & h3 & Hresh & Hp3 & Hsh' & Hsz' & _ & Hwf' & Hreads).
  assert (h `prefix_of` h3) as Hp by (by etrans).
  assert (length (shape idx') = length oshape) as Hrank.
  { rewrite Hsh'. unfold S', oshape. rewrite !length_app, !length_replicate. done. }
  assert (broadcastable (shape idx') oshape) as Hbc.
  { rewrite Hsh'. unfold S', oshape.
    repeat apply broadcastable_app;
      [apply broadcastable_ones|apply broadcastable_refl|apply broadcastable_ones]. }
  destruct (broadcast_to_same_rank h3 idx' oshape Hwf' Hrank Hbc Hdims)
    as (bidx & Hbto & _ & Hbsh & Hbsz & _ & _ & Hb).
  assert (mapM (fun i =>
                  ind ← read_flat h3 bidx i;
                  read_flat h3 a
                    ((i ÷ (internal.prod r * size idx) * size idx + ind) * internal.prod r
                     + Z.rem i (internal.prod r)))
               (indices_upto (internal.prod oshape))
          = mapM (gather_element h a idx (internal.prod r))
                 (indices_upto (internal.prod oshape))) as Hbody.
  { apply Forall_mapM_ext. apply Forall_seqZ. intros i Hi.
    apply (take_kernel_body h h3 a idx idx' bidx l r i); try done; try lia.
    intros j Hj. rewrite Hreads by done.
    apply read_flat_prefix; [done|apply Hwfi]. }
  assert (h3 !! length h = Some zeros) as Hz.
  { eapply prefix_lookup_Some; [exact Hp3|]. by apply list_lookup_middle. }
  (* run the call *)
  assert (take_gather a l r idx None h
          = match mapM (gather_element h a idx (internal.prod r))
                    (indices_upto (internal.prod oshape)) with
            | Some vals => (Ok (cupy.c_array (length h) oshape (dtype_of a)),
                            <[length h := vals]> h3)
            | None => (Undefined, h3)
            end) as Hrun.
  { unfold take_gather. unfold bind at 1. unfold cupy.empty, bind at 1, alloc.
    cbn [ret]. fold oshape. fold zeros. fold h2. unfold bind at 1. fold S'.
    rewrite Hresh.
    unfold _take_kernel. unfold bind at 1.
    cbn [shape cupy.c_array]. rewrite Hbto. cbn [or_raise ret].
    unfold elementwise.call_out, elementwise.run.
    unfold bind at 1. unfold bind at 1. unfold get_heap at 1.
    cbn [size cupy.c_array]. rewrite Hbody.
    destruct (mapM (gather_element h a idx (internal.prod r))
                (indices_upto (internal.prod oshape))) as [vals|] eqn:Hvals.
    - cbn [device ret]. unfold bind at 1. cbn [modify_heap ret].
      assert (length vals = Z.to_nat (internal.prod oshape)) as Hlen.
      { apply length_mapM in Hvals. unfold indices_upto in Hvals.
        rewrite length_seqZ in Hvals. lia. }
      rewrite (write_elements_c_array h3 (length h) oshape (dtype_of a) zeros vals);
        try done. unfold zeros. by rewrite length_replicate.
    - reflexivity. }
  rewrite Hrun.
  destruct (mapM (gather_element h a idx (internal.prod r))
              (indices_upto (internal.prod oshape))) as [vals|] eqn:Hvals.
  - eexists. split; [|split; [reflexivity|]].
    + by apply (insert_alloc_prefix h h3 zeros).
    + apply list_lookup_insert_eq. by eapply lookup_lt_Some.
  - exists h3. split; [done|reflexivity].
Qed.
Lemma Forall_nonneg_slice_to (l : list Z) k :
  Forall (fun d => 0 <= d) l -> Forall (fun d => 0 <= d) (slice_to l k).
Proof. intros H. unfold slice_to. by apply Forall_take. Qed.

Lemma Forall_nonneg_slice_from (l : list Z) k :
  Forall (fun d => 0 <= d) l -> Forall (fun d => 0 <= d) (slice_from l k).
Proof. intros H. unfold slice_from. by apply Forall_drop. Qed.

(** [take] with an index array and no output argument, as a whole: it
    returns a newly allocated array of the expected shape holding the
    gathered values, or it is undefined because a worker reads outside an
    array. *)
Lemma take_run h a idx axis :
  wf_array h a -> wf_array h idx -> valid_axis a axis ->
  let oshape := take_out_shape a (shape idx) axis in
  exists h',
    h `prefix_of` h'
    /\ match mapM (gather_element h a idx (take_right_dim a axis))
               (indices_upto (internal.prod oshape)) with
       | Some vals =>
           exists r,
             take a (IArray idx) axis None h = (Ok r, h')
             /\ shape r = oshape /\ dtype_of r = dtype_of a
             /\ h !! data r = None
             /\ elements h' r = Some vals
       | None => take a (IArray idx) axis None h = (Undefined, h')
       end.
Proof.
  intros Hwfa Hwfi Hax oshape.
  destruct (take_prologue h a axis Hwfa Hax)
    as (a' & h1 & Hpro & Hp & Hdt & Hwf' & Hsz & Hrd).
  set (l := match axis with None => [] | Some axis => slice_to (shape a) axis end) in *.
  set (r := match axis with None => []
            | Some axis => slice_from (shape a) (axis + 1) end) in *.
  assert (Forall (fun d => 0 <= d) l) as Hl.
  { unfold l. destruct axis; [|constructor].
    apply Forall_nonneg_slice_to, (wf_dims h a Hwfa). }
  assert (Forall (fun d => 0 <= d) r) as Hr.
  { unfold r. destruct axis; [|constructor].
    apply Forall_nonneg_slice_from, (wf_dims h a Hwfa). }
  assert (oshape = l ++ shape idx ++ r) as Ho.
  { unfold oshape, take_out_shape, l, r. destruct axis; [done|]. by rewrite app_nil_r. }
  assert (take_right_dim a axis = internal.prod r) as Hrd'.
  { unfold take_right_dim, r. by destruct axis. }
  pose proof (wf_array_prefix h h1 idx Hp Hwfi) as Hwfi1.
  destruct (take_gather_run h1 a' l r idx Hwf' Hwfi1 Hl Hr) as (h' & Hp' & Hg).
  assert (mapM (gather_element h1 a' idx (internal.prod r))
               (indices_upto (internal.prod (l ++ shape idx ++ r)))
          = mapM (gather_element h a idx (take_right_dim a axis))
                 (indices_upto (internal.prod oshape))) as Hm.
  { rewrite Ho, Hrd'. apply mapM_ext. intros i. unfold gather_element.
    rewrite (read_flat_prefix h h1 idx) by (done || apply Hwfi).
    destruct (read_flat h idx _); [simpl; apply Hrd|done]. }
  rewrite Hm in Hg.
  assert (take a (IArray idx) axis None h = take_gather a' l r idx None h1) as Ht.
  { unfold take. unfold bind at 1. by rewrite Hpro. }
  exists h'. split; [by etrans|].
  destruct (mapM (gather_element h a idx (take_right_dim a axis))
              (indices_upto (internal.prod oshape))) as [vals|] eqn:Hvals.
  - destruct Hg as [Hrun Hbuf]. eexists. split; [by rewrite Ht|].
    cbn [shape dtype_of data cupy.c_array].
    split; [done|]. split; [done|]. split.
    + apply lookup_ge_None. destruct Hp as [k ->]. rewrite length_app. lia.
    + apply elements_c_array; [done| |].
      * rewrite !Forall_app.
        repeat split; [done| |done]. apply (wf_dims h idx Hwfi).
      * apply length_mapM in Hvals. unfold indices_upto in Hvals.
        rewrite length_seqZ in Hvals. rewrite <- Ho. lia.
  - by rewrite Ht.
Qed.
(** ** [take]: shape and elements of the result *)

(** C4: with an index array and a valid axis, every array that [take]
    returns has the shape [a.shape[:axis] + indices.shape + a.shape[axis+1:]],
    which is [indices.shape] when the axis is unset (the source is then
    flattened); and [take] does return an array whenever each worker of the
    gather reads inside the indices and the source. *)
Theorem take_shape a idx axis h :
  wf_array h a -> wf_array h idx -> valid_axis a axis ->
  let oshape := match axis with
                | None => shape idx
                | Some axis =>
                    slice_to (shape a) axis ++ shape idx ++ slice_from (shape a) (axis + 1)
                end in
  (forall r h', take a (IArray idx) axis None h = (Ok r, h') -> shape r = oshape)
  /\ ((forall i, 0 <= i < internal.prod oshape ->
         is_Some (gather_element h a idx (take_right_dim a axis) i)) ->
      exists r h', take a (IArray idx) axis None h = (Ok r, h') /\ shape r = oshape).
Proof.
  intros Hwfa Hwfi Hax oshape.
  destruct (take_run h a idx axis Hwfa Hwfi Hax) as (h1 & Hp & Hrun).
  change (take_out_shape a (shape idx) axis) with oshape in Hrun.
  destruct (mapM (gather_element h a idx (take_right_dim a axis))
              (indices_upto (internal.prod oshape))) as [vals|] eqn:Hvals.
  - destruct Hrun as (r & Hr & Hsh & _). split.
    + intros r' h' Hr'. rewrite Hr in Hr'. injection Hr' as <- <-. exact Hsh.
    + intros _. by exists r, h1.
  - split.
    + intros r' h' Hr'. rewrite Hrun in Hr'. discriminate.
    + intros Hall. apply mapM_None_1 in Hvals.
      apply Exists_exists in Hvals as (i & Hi & Hnone).
      apply elem_of_seqZ in Hi. destruct (Hall i) as [v Hv]; [lia|]. congruence.
Qed.

Lemma Ex_wf_c23 : wf_array Ex.store1 Ex.c23.
Proof.
  apply (wf_c_array Ex.store1 2 [2; 3] int64 [10; 20; 30; 40; 50; 60]).
  - reflexivity.
  - repeat constructor; discriminate.
  - reflexivity.
Defined.

Lemma Ex_wf_b21 : wf_array Ex.store1 Ex.b21.
Proof.
  apply (wf_c_array Ex.store1 0 [2; 1] int64 [7; 8]).
  - reflexivity.
  - repeat constructor; discriminate.
  - reflexivity.
Defined.

Lemma Ex_wf_zeros3 : wf_array Ex.store1 Ex.zeros3.
Proof.
  apply (wf_c_array Ex.store1 1 [3] int64 [0; 0; 0]).
  - reflexivity.
  - repeat constructor; discriminate.
  - reflexivity.
Defined.

Lemma Ex_valid_axis_1 : valid_axis Ex.c23 (Some 1).
Proof. vm_compute. split; [discriminate|reflexivity]. Defined.

Lemma take_shape_witness :
  exists r h',
    take Ex.c23 (IArray Ex.zeros3) (Some 1) None Ex.store1 = (Ok r, h')
    /\ shape r = [2; 3].
Proof.
  apply (proj2 (take_shape Ex.c23 Ex.zeros3 (Some 1) Ex.store1
                  Ex_wf_c23 Ex_wf_zeros3 Ex_valid_axis_1)).
  intros i Hi.
  assert (i = 0 \/ i = 1 \/ i = 2 \/ i = 3 \/ i = 4 \/ i = 5) as Hcases
    by (change (internal.prod _) with 6 in Hi; lia).
  destruct Hcases as [-> | [-> | [-> | [-> | [-> | -> ] ] ] ] ]; vm_compute; eauto.
Defined.

(** C3: the gather of [take] along an axis does not select the elements
    that [take] documents ("elements of an array at specified indices along
    an axis") and that its scalar path selects: the kernel advances the block
    on the left of the axis by the number of indices ([li * cdim]), not by
    the length of the axis.  On a source of shape (2, 1) holding
    [[7], [8]], with the indices [0, 0, 0] (all within the axis of length 1)
    and axis 1, the worker of the output element 3 is given the offset
    [(1 * 3 + 0) * 1 + 0 = 3], outside the two elements of the flattened
    source: the call is undefined, where the elements at index 0 along the
    axis are 7 and 8, as the call with the scalar index 0 returns them.
    Where the offset stays inside the source, the element is not the
    documented one: on a source of shape (2, 3) holding
    [[10, 20, 30], [40, 50, 60]], with the indices [0] and axis 1, the
    result is [[10], [20]], where the element at index 0 along the axis of
    the second row is 40, as the call with the scalar index 0 returns it. *)
Theorem take_gather_bug :
  (wf_array Ex.store1 Ex.b21 /\ wf_array Ex.store1 Ex.zeros3
   /\ shape Ex.b21 = [2; 1] /\ size Ex.b21 = 2
   /\ valid_axis Ex.b21 (Some 1)
   /\ elements Ex.store1 Ex.b21 = Some [7; 8]
   /\ elements Ex.store1 Ex.zeros3 = Some [0; 0; 0]
   /\ gather_offset (take_right_dim Ex.b21 (Some 1)) (size Ex.zeros3) 0 3 = 3
   /\ read_flat Ex.store1 Ex.b21 3 = None
   /\ take Ex.b21 (IArray Ex.zeros3) (Some 1) None Ex.store1
      = (Undefined, Ex.store1 ++ [[0; 0; 0; 0; 0; 0]])
   /\ exists r h',
        take Ex.b21 (IScalar 0) (Some 1) None Ex.store1 = (Ok r, h')
        /\ shape r = [2] /\ at_index h' r [0] = Some 7 /\ at_index h' r [1] = Some 8)
  /\ (wf_array Ex.store0 Ex.a23
      /\ shape Ex.a23 = [2; 3]
      /\ valid_axis Ex.a23 (Some 1)
      /\ elements Ex.store0 Ex.a23 = Some [10; 20; 30; 40; 50; 60]
      /\ at_index Ex.store0 Ex.a23 [1; 0] = Some 40
      /\ (exists r h',
            take Ex.a23 (IList [0]) (Some 1) None Ex.store0 = (Ok r, h')
            /\ shape r = [2; 1]
            /\ at_index h' r [0; 0] = Some 10 /\ at_index h' r [1; 0] = Some 20)
      /\ exists r h',
           take Ex.a23 (IScalar 0) (Some 1) None Ex.store0 = (Ok r, h')
           /\ shape r = [2] /\ at_index h' r [0] = Some 10 /\ at_index h' r [1] = Some 40).
Proof.
  split.
  - split; [exact Ex_wf_b21|]. split; [exact Ex_wf_zeros3|].
    split_and!; try reflexivity.
    + split; [discriminate|reflexivity].
    + eexists _, _. split; [vm_compute; reflexivity|]. by split_and!.
  - split; [exact Ex_wf_a23|].
    split_and!; try reflexivity.
    + split; [discriminate|reflexivity].
    + eexists _, _. split; [vm_compute; reflexivity|]. by split_and!.
    + eexists _, _. split; [vm_compute; reflexivity|]. by split_and!.
Qed.
(** ** Unit axes *)

Lemma expand_dims_0_at h a idx :
  at_index h (cupy.expand_dims a 0) idx = at_index h a (tail idx).
Proof.
  unfold at_index, address. simpl. rewrite !drop_0.
  destruct idx as [|j idx]; simpl; [|f_equal; f_equal; lia].
  by destruct (strides a).
Qed.

Lemma wf_expand_dims_0 h a : wf_array h a -> wf_array h (cupy.expand_dims a 0).
Proof.
  intros Hwf. split; simpl; rewrite ?drop_0.
  - apply (wf_alloc h a Hwf).
  - constructor; [lia|apply (wf_dims h a Hwf)].
  - f_equal. apply (wf_strides h a Hwf).
  - rewrite prod_cons, (wf_size h a Hwf). lia.
  - lia.
  - intros idx Hv. rewrite expand_dims_0_at.
    inversion Hv; subst. simpl. by apply (wf_bounds h a Hwf).
Qed.

Lemma expand_dims_0_read_flat h a i :
  wf_array h a -> read_flat h (cupy.expand_dims a 0) i = read_flat h a i.
Proof.
  intros Hwf. unfold read_flat. cbn [size cupy.expand_dims].
  destruct ((0 <=? i) && (i <? size a)); [|done].
  rewrite expand_dims_0_at. cbn [shape cupy.expand_dims]. simpl. rewrite drop_0. simpl.
  by destruct (unravel (shape a) i).
Qed.

Lemma iter_expand_dims_0 h a k :
  wf_array h a ->
  let a' := Nat.iter k (fun a => cupy.expand_dims a 0) a in
  wf_array h a'
  /\ shape a' = replicate k 1 ++ shape a
  /\ size a' = size a /\ dtype_of a' = dtype_of a /\ data a' = data a
  /\ (forall i, read_flat h a' i = read_flat h a i)
  /\ (forall idx, at_index h a' idx = at_index h a (drop k idx)).
Proof.
  intros Hwf. induction k as [|k IH]; simpl.
  - split; [exact Hwf|]. repeat split; done.
  - destruct IH as (Hwf' & Hsh & Hsz & Hdt & Hda & Hrd & Hat).
    split; [by apply wf_expand_dims_0|].
    rewrite !drop_0, Hsh. repeat split; try done.
    + intros i. rewrite expand_dims_0_read_flat by done. apply Hrd.
    + intros idx. rewrite expand_dims_0_at, Hat.
      destruct idx; simpl; by rewrite ?drop_nil.
Qed.

Lemma expand_dims_1_at h a c idx :
  shape a <> [] -> length (strides a) = length (shape a) ->
  at_index h (cupy.expand_dims a 1) (c :: idx) = at_index h a (c :: tail idx).
Proof.
  intros Hne Hlen. unfold at_index, address. simpl.
  destruct (shape a) as [|d sh]; [done|].
  destruct (strides a) as [|s st]; [done|]. simpl. rewrite !drop_0.
  destruct idx as [|j idx]; simpl; f_equal; f_equal; lia.
Qed.

Lemma wf_expand_dims_1 h a :
  wf_array h a -> shape a <> [] -> wf_array h (cupy.expand_dims a 1).
Proof.
  intros Hwf Hne.
  pose proof (wf_dims h a Hwf) as Hd. pose proof (wf_strides h a Hwf) as Hs.
  pose proof (wf_size h a Hwf) as Hz.
  split.
  - apply (wf_alloc h a Hwf).
  - simpl. destruct (shape a) as [|d sh]; [done|]. simpl. rewrite drop_0.
    inversion Hd; subst. repeat constructor; try done; lia.
  - simpl. destruct (shape a) as [|d sh]; [done|].
    destruct (strides a) as [|s st]; [done|]. simpl in *. rewrite !drop_0. lia.
  - simpl. destruct (shape a) as [|d sh]; [done|]. simpl. rewrite drop_0.
    rewrite Hz, !prod_cons. lia.
  - simpl. lia.
  - intros idx Hv.
    assert (exists c j idx', idx = c :: j :: idx'
                             /\ valid_index (shape a) (c :: idx')) as (c & j & idx' & -> & Hv').
    { simpl in Hv. destruct (shape a) as [|d sh]; [done|]. simpl in Hv.
      rewrite drop_0 in Hv.
      inversion Hv as [|? c ? idx1 Hc Hv1]; subst.
      inversion Hv1 as [|? j ? idx2 Hj Hv2]; subst.
      exists c, j, idx2. split; [done|]. by constructor. }
    rewrite expand_dims_1_at by done. simpl. by apply (wf_bounds h a Hwf).
Qed.

Lemma iter_expand_dims_1 h a k n sh :
  wf_array h a -> shape a = n :: sh ->
  let a' := Nat.iter k (fun a => cupy.expand_dims a 1) a in
  wf_array h a'
  /\ shape a' = n :: replicate k 1 ++ sh
  /\ dtype_of a' = dtype_of a /\ data a' = data a.
Proof.
  intros Hwf Hsh. induction k as [|k IH]; simpl.
  - split; [exact Hwf|]. repeat split; done.
  - destruct IH as (Hwf' & Hsh' & Hdt & Hda).
    split; [apply wf_expand_dims_1; [done|by rewrite Hsh']|].
    rewrite Hsh'. simpl. rewrite drop_0. repeat split; done.
Qed.
(** ** The operands of [choose] and their broadcast *)

Lemma broadcast_dims_spec s1 s2 b :
  cupy.broadcast_dims s1 s2 = Some b ->
  broadcastable s1 b /\ broadcastable s2 b
  /\ length s1 = length b /\ length s2 = length b
  /\ (Forall (fun d => 0 <= d) s1 -> Forall (fun d => 0 <= d) s2 ->
      Forall (fun d => 0 <= d) b).
Proof.
  revert s2 b. induction s1 as [|d1 s1 IH]; intros [|d2 s2] b H; simpl in H; try done.
  - injection H as <-. repeat split; try constructor.
  - destruct (cupy.broadcast_dims s1 s2) as [r|] eqn:E; [|done]. simpl in H.
    destruct (IH _ _ E) as (H1 & H2 & L1 & L2 & Hn).
    assert (forall x, (x = d1 \/ x = d2) -> (d1 = x \/ d1 = 1) -> (d2 = x \/ d2 = 1) ->
              b = x :: r ->
              broadcastable (d1 :: s1) b /\ broadcastable (d2 :: s2) b
              /\ length (d1 :: s1) = length b /\ length (d2 :: s2) = length b
              /\ (Forall (fun d => 0 <= d) (d1 :: s1) -> Forall (fun d => 0 <= d) (d2 :: s2) ->
                  Forall (fun d => 0 <= d) b)) as Hgen.
    { intros x Hx Hx1 Hx2 ->. repeat split; simpl; try lia.
      - by constructor.
      - by constructor.
      - intros F1 F2. inversion F1; inversion F2; subst.
        constructor; [destruct Hx; subst; done|by apply Hn]. }
    destruct (Z.eqb_spec d1 d2) as [->|].
    { injection H as <-. apply (Hgen d2); auto. }
    destruct (Z.eqb_spec d1 1) as [->|].
    { injection H as <-. apply (Hgen d2); auto. }
    destruct (Z.eqb_spec d2 1) as [->|]; [|done].
    injection H as <-. apply (Hgen d1); auto.
Qed.

Lemma choose_operands_spec h a choices n cshape :
  wf_array h a -> wf_array h choices -> shape choices = n :: cshape ->
  exists sel chs cs',
    choose_operands a choices = (sel, chs)
    /\ wf_array h sel /\ wf_array h chs
    /\ shape chs = n :: cs'
    /\ length (shape chs) = S (length (shape sel))
    /\ dtype_of chs = dtype_of choices
    /\ size sel = size a
    /\ (forall i, read_flat h sel i = read_flat h a i).
Proof.
  intros Hwfa Hwfc Hsh. unfold choose_operands, ndim. rewrite Hsh. simpl length.
  destruct (Z.ltb_spec (Z.of_nat (length (shape a))) (Z.of_nat (S (length cshape)) - 1))
    as [Hlt|Hge].
  - set (k := Z.to_nat (Z.of_nat (S (length cshape)) - 1 - Z.of_nat (length (shape a)))).
    destruct (iter_expand_dims_0 h a k Hwfa) as (Hwf' & Hsh' & Hsz & _ & _ & Hrd & _).
    eexists _, choices, cshape. split; [reflexivity|].
    split_and!; try done.
    rewrite Hsh, Hsh', length_app, length_replicate. simpl. lia.
  - destruct (Z.gtb_spec (Z.of_nat (length (shape a))) (Z.of_nat (S (length cshape)) - 1))
      as [Hgt|Hle].
    + set (k := Z.to_nat (Z.of_nat (length (shape a)) + 1 - Z.of_nat (S (length cshape)))).
      destruct (iter_expand_dims_1 h choices k n cshape Hwfc Hsh) as (Hwf' & Hsh' & Hdt & _).
      eexists a, _, _. split; [reflexivity|].
      split_and!; try done.
      rewrite Hsh'. simpl. rewrite length_app, length_replicate. lia.
    + eexists a, choices, cshape. split; [reflexivity|].
      split_and!; try done. rewrite Hsh. simpl. lia.
Qed.
Lemma pad_left_one {A} (x : A) l : cupy.pad_left (S (length l)) x l = x :: l.
Proof.
  unfold cupy.pad_left. by replace (S (length l) - length l)%nat with 1%nat by lia.
Qed.

Lemma broadcast_shapes_choose ssel n cs' sh :
  length cs' = length ssel ->
  cupy.broadcast_shapes ssel (n :: cs') = Some sh ->
  exists b, sh = n :: b /\ cupy.broadcast_dims ssel cs' = Some b.
Proof.
  intros Hl. unfold cupy.broadcast_shapes. simpl length. rewrite Hl.
  rewrite Nat.max_r by lia. rewrite pad_left_one.
  rewrite <- Hl. change (S (length cs')) with (length (n :: cs')).
  rewrite pad_left_same by done. cbn -[Z.eqb].
  destruct (cupy.broadcast_dims ssel cs') as [r|]; [|done]. cbn -[Z.eqb].
  destruct (Z.eqb_spec 1 n) as [<-|]; intros H; injection H as <-; by exists r.
Qed.

(** The broadcast step of [choose], for operands that broadcast to the shape
    [bshape] and at least one choice. *)
Lemma choose_broadcast h a choices n cshape bshape :
  wf_array h a -> wf_array h choices -> shape choices = n :: cshape -> 0 < n ->
  choose_shape a choices = Some bshape ->
  exists sel chs ba bcs bcs0 ba0,
    choose_operands a choices = (sel, chs)
    /\ wf_array h sel /\ size sel = size a
    /\ (forall i, read_flat h sel i = read_flat h a i)
    /\ cupy.broadcast_arrays sel chs h = (Ok (ba, bcs), h)
    /\ cupy.getitem bcs 0 h = (Ok bcs0, h) /\ shape bcs0 = bshape
    /\ cupy.getitem ba 0 h = (Ok ba0, h)
    /\ shape ba0 = bshape /\ size ba0 = internal.prod bshape /\ wf_array h ba0
    /\ (forall idx, valid_index bshape idx ->
          at_index h ba0 idx = selector_at h a choices idx
          /\ 0 <= selector_slot a choices idx < size a
          /\ selector_at h a choices idx = read_flat h a (selector_slot a choices idx))
    /\ shape bcs = n :: bshape /\ dtype_of bcs = dtype_of choices /\ wf_array h bcs
    /\ (forall c idx, valid_index (n :: bshape) (c :: idx) ->
          at_index h bcs (c :: idx) = choice_at h a choices c idx)
    /\ Forall (fun d => 0 <= d) bshape.
Proof.
  intros Hwfa Hwfc Hsh Hn Hcs.
  destruct (choose_operands_spec h a choices n cshape Hwfa Hwfc Hsh)
    as (sel & chs & cs' & Hops & Hwfs & Hwfch & Hshc & Hrank & Hdt & Hsz & Hrd).
  unfold choose_shape, selector_at, selector_slot, choice_at in *. rewrite Hops in *.
  assert (length cs' = length (shape sel)) as Hl
    by (rewrite Hshc in Hrank; simpl in Hrank; lia).
  destruct (cupy.broadcast_shapes (shape sel) (shape chs)) as [sh|] eqn:Hbs; [|done].
  rewrite Hshc in Hbs.
  destruct (broadcast_shapes_choose _ _ _ _ Hl Hbs) as (b & -> & Hbd).
  simpl in Hcs. injection Hcs as ->.
  destruct (broadcast_dims_spec _ _ _ Hbd) as (Hb1 & Hb2 & L1 & L2 & Hnn).
  assert (Forall (fun d => 0 <= d) bshape) as Hdims.
  { apply Hnn; [apply (wf_dims h sel Hwfs)|].
    pose proof (wf_dims h chs Hwfch) as Hd. rewrite Hshc in Hd. by inversion Hd. }
  (* the choices *)
  assert (broadcastable (shape chs) (n :: bshape)) as Hbc
    by (rewrite Hshc; constructor; [by left|done]).
  destruct (broadcast_to_same_rank h chs (n :: bshape) Hwfch) as
    (bcs & Hbcs & _ & Hbsh & Hbsz & Hbdt & Hwfb & Hbat); [rewrite Hshc; simpl; lia|done| |].
  { constructor; [lia|done]. }
  (* the selector *)
  destruct (broadcast_strides_ok (shape sel) (strides sel) bshape Hb1
              (wf_strides h sel Hwfs)) as [st Hst].
  assert (cupy.broadcast_to sel (n :: bshape)
          = Some {| data := data sel; data_offset := data_offset sel;
                    shape := n :: bshape; strides := 0 :: st;
                    dtype_of := dtype_of sel; size := internal.prod (n :: bshape);
                    c_contiguous := -1; f_contiguous := -1 |}) as Hba.
  { unfold cupy.broadcast_to. simpl length. rewrite <- L1.
    rewrite pad_left_one. rewrite <- (wf_strides h sel Hwfs) at 1.
    rewrite pad_left_one. cbn -[Z.eqb]. rewrite Hst. cbn -[Z.eqb].
    destruct (1 =? n); reflexivity. }
  destruct (strides bcs) as [|s0 sts] eqn:Hsts.
  { pose proof (wf_strides h bcs Hwfb) as Hls. rewrite Hbsh, Hsts in Hls. done. }
  eexists sel, chs, _, bcs, _, _. split; [done|]. split; [done|].
  split; [done|]. split; [done|].
  split.
  { unfold cupy.broadcast_arrays. rewrite Hshc, Hbs. simpl.
    rewrite Hba. simpl. rewrite Hbcs. reflexivity. }
  split.
  { unfold cupy.getitem. rewrite Hbsh, Hsts.
    rewrite subscript_nonneg by lia. reflexivity. }
  split; [done|].
  split.
  { unfold cupy.getitem. cbn [shape strides].
    rewrite subscript_nonneg by lia. reflexivity. }
  cbn [shape size].
  assert (forall idx, valid_index bshape idx ->
            valid_index (shape sel) (broadcast_index (shape sel) idx)
            /\ at_index h {| data := data sel;
                             data_offset := data_offset sel + Z.of_nat (Z.to_nat 0) * 0;
                             shape := bshape; strides := st; dtype_of := dtype_of sel;
                             size := internal.prod bshape;
                             c_contiguous := -1; f_contiguous := -1 |} idx
               = at_index h sel (broadcast_index (shape sel) idx)) as Hsat.
  { intros idx Hv.
    destruct (broadcast_strides_dot _ _ _ _ _ Hst Hv) as [Hdot Hval].
    split; [done|]. unfold at_index, address. simpl. rewrite Hdot. f_equal. lia. }
  split; [done|]. split; [done|].
  split.
  { split; simpl; try done.
    - apply (wf_alloc h sel Hwfs).
    - destruct (broadcast_strides_inv _ _ _ _ Hst) as (_ & _ & ->). done.
    - intros idx Hv. destruct (Hsat idx Hv) as [Hval ->].
      by apply (wf_bounds h sel Hwfs). }
  split.
  { intros idx Hv. destruct (Hsat idx Hv) as [Hval Heq]. split; [done|].
    pose proof (dot_valid_bounds _ _ Hval) as Hb.
    rewrite <- (wf_size h sel Hwfs), Hsz in Hb. split; [done|].
    rewrite <- Hrd. symmetry. by apply read_flat_dot. }
  split; [done|]. split; [by rewrite Hbdt|]. split; [done|].
  split; [|done].
  intros c idx Hv. by apply Hbat.
Qed.
(** ** The gather of [choose] *)

Lemma mapM_lookup_seqZ {B} (f : Z -> option B) n vals i :
  mapM f (indices_upto n) = Some vals -> 0 <= i < n ->
  vals !! Z.to_nat i = f i.
Proof.
  intros Hm Hi. apply mapM_Some_1 in Hm.
  assert (indices_upto n !! Z.to_nat i = Some i) as Hl.
  { unfold indices_upto. rewrite lookup_seqZ_lt by lia. f_equal. lia. }
  destruct (Forall2_lookup_l _ _ _ _ _ Hm Hl) as (w & Hw & Hf). congruence.
Qed.

(** A launch of a choose kernel: the worker [i] reads the selector [s] at [i]
    and the choices at [i + n_channel * f s], where [f] maps the selector to
    a choice number within [0, n). *)
Lemma choose_gather h sa bcs n bshape (f : Z -> Z) dt :
  wf_array h sa -> shape sa = bshape ->
  wf_array h bcs -> shape bcs = n :: bshape ->
  (forall i s, 0 <= i < internal.prod bshape -> read_flat h sa i = Some s ->
     0 <= f s < n) ->
  exists vals,
    elementwise.call (shape sa) dt
      (fun h i => s ← read_flat h sa i;
                  read_flat h bcs (i + internal.prod bshape * f s)) h
    = (Ok (cupy.c_array (length h) bshape dt), h ++ [vals])
    /\ length vals = Z.to_nat (internal.prod bshape)
    /\ forall idx, valid_index bshape idx ->
         exists s v,
           at_index h sa idx = Some s
           /\ at_index h bcs (f s :: idx) = Some v
           /\ vals !! Z.to_nat (dot idx (c_strides bshape)) = Some v.
Proof.
  intros Hwfs Hsh Hwfb Hbsh Hf.
  pose proof (wf_size h sa Hwfs) as Hsz. rewrite Hsh in Hsz.
  pose proof (wf_size h bcs Hwfb) as Hbsz. rewrite Hbsh, prod_cons in Hbsz.
  assert (forall i, 0 <= i < internal.prod bshape ->
            exists s v, read_flat h sa i = Some s
                        /\ read_flat h bcs (i + internal.prod bshape * f s) = Some v)
    as Hbody.
  { intros i Hi.
    destruct (read_flat_wf h sa i Hwfs) as [s Hs]; [lia|].
    pose proof (Hf i s Hi Hs) as Hc.
    destruct (read_flat_wf h bcs (i + internal.prod bshape * f s) Hwfb) as [v Hv];
      [nia|]. by exists s, v. }
  destruct (mapM (fun i => s ← read_flat h sa i;
                           read_flat h bcs (i + internal.prod bshape * f s))
              (indices_upto (internal.prod bshape))) as [vals|] eqn:Hvals.
  2:{ apply mapM_None_1 in Hvals. apply Exists_exists in Hvals as (i & Hi & Hnone).
      apply elem_of_seqZ in Hi. destruct (Hbody i) as (s & v & Hs & Hv); [lia|].
      rewrite Hs in Hnone. simpl in Hnone. congruence. }
  exists vals.
  assert (length vals = Z.to_nat (internal.prod bshape)) as Hlen.
  { apply length_mapM in Hvals. unfold indices_upto in Hvals.
    rewrite length_seqZ in Hvals. lia. }
  split.
  { unfold elementwise.call, elementwise.run.
    unfold bind at 1. unfold bind at 1. unfold get_heap at 1.
    rewrite Hsh, Hvals. reflexivity. }
  split; [done|].
  intros idx Hv.
  pose proof (dot_valid_bounds bshape idx Hv) as Hb.
  destruct (Hbody _ Hb) as (s & v & Hs & Hr).
  exists s, v.
  pose proof (Hf _ s Hb Hs) as Hc.
  assert (read_flat h sa (dot idx (c_strides bshape)) = at_index h sa idx) as Hrf.
  { rewrite <- Hsh. apply read_flat_dot; [done|by rewrite Hsh]. }
  split; [by rewrite <- Hrf|].
  split.
  - rewrite <- Hr.
    rewrite <- (read_flat_dot h bcs (f s :: idx)) by
      (done || (rewrite Hbsh; constructor; done)).
    rewrite Hbsh. simpl. f_equal. lia.
  - rewrite (mapM_lookup_seqZ _ _ _ _ Hvals Hb).
    rewrite Hs. simpl. exact Hr.
Qed.
(** ** [choose]: the modes [clip] and [raise] *)

(** [choose] up to its dispatch on the mode. *)
Lemma choose_run h a choices out mode n cshape bshape :
  wf_array h a -> wf_array h choices -> shape choices = n :: cshape -> 0 < n ->
  choose_shape a choices = Some bshape ->
  exists sel chs ba bcs ba0,
    choose a choices out mode h = choose_mode sel ba bcs n (internal.prod bshape) mode h
    /\ choose_operands a choices = (sel, chs)
    /\ cupy.broadcast_arrays sel chs h = (Ok (ba, bcs), h)
    /\ wf_array h sel /\ size sel = size a
    /\ (forall i, read_flat h sel i = read_flat h a i)
    /\ cupy.getitem ba 0 h = (Ok ba0, h)
    /\ shape ba0 = bshape /\ wf_array h ba0
    /\ (forall idx, valid_index bshape idx ->
          at_index h ba0 idx = selector_at h a choices idx
          /\ 0 <= selector_slot a choices idx < size a
          /\ selector_at h a choices idx = read_flat h a (selector_slot a choices idx))
    /\ shape bcs = n :: bshape /\ dtype_of bcs = dtype_of choices /\ wf_array h bcs
    /\ (forall c idx, valid_index (n :: bshape) (c :: idx) ->
          at_index h bcs (c :: idx) = choice_at h a choices c idx)
    /\ Forall (fun d => 0 <= d) bshape.
Proof.
  intros Hwfa Hwfc Hsh Hn Hcs.
  destruct (choose_broadcast h a choices n cshape bshape Hwfa Hwfc Hsh Hn Hcs)
    as (sel & chs & ba & bcs & bcs0 & ba0 & Hops & Hwfs & Hsz & Hrd & Hbr & Hg0 & Hsh0
        & Hgb & Hbsh & _ & Hwf0 & Hsel & Hcsh & Hcdt & Hwfb & Hch & Hdims).
  exists sel, chs, ba, bcs, ba0. split; [|by split_and!].
  unfold choose. unfold bind at 1.
  assert (py_getitem (shape choices) 0 = Some n) as ->.
  { rewrite Hsh. unfold py_getitem. simpl length.
    rewrite subscript_nonneg by lia. reflexivity. }
  cbn [or_raise ret].
  change (if ndim a <? ndim choices - 1
          then (Nat.iter (Z.to_nat (ndim choices - 1 - ndim a))
                  (fun a => cupy.expand_dims a 0) a, choices)
          else if ndim a >? ndim choices - 1
          then (a, Nat.iter (Z.to_nat (ndim a + 1 - ndim choices))
                     (fun choices => cupy.expand_dims choices 1) choices)
          else (a, choices))
    with (choose_operands a choices).
  rewrite Hops. unfold bind at 1. rewrite Hbr.
  unfold bind at 1. rewrite Hg0. by rewrite Hsh0.
Qed.

(** C6: in mode [clip], a selector element below 0 selects choice 0, one that
    is [n] or more selects choice [n - 1], and one within [0, n) selects
    itself; no error is raised, whatever the selector values: the result is
    returned, with at each position the element of the selected choice. *)
Theorem choose_clip a choices out n cshape bshape h :
  wf_array h a -> wf_array h choices -> shape choices = n :: cshape -> 0 < n ->
  choose_shape a choices = Some bshape ->
  exists r h',
    choose a choices out "clip" h = (Ok r, h')
    /\ shape r = bshape /\ dtype_of r = dtype_of choices
    /\ forall idx, valid_index bshape idx ->
         exists s c v,
           selector_at h a choices idx = Some s
           /\ (s < 0 -> c = 0) /\ (n <= s -> c = n - 1) /\ (0 <= s < n -> c = s)
           /\ choice_at h a choices c idx = Some v
           /\ at_index h' r idx = Some v.
Proof.
  intros Hwfa Hwfc Hsh Hn Hcs.
  destruct (choose_run h a choices out "clip" n cshape bshape Hwfa Hwfc Hsh Hn Hcs)
    as (sel & chs & ba & bcs & ba0 & Hrun & _ & _ & _ & _ & _ & Hgb & Hbsh & Hwf0 & Hsel
        & Hcsh & Hcdt & Hwfb & Hch & Hdims).
  set (f := fun a : Z => if a <? 0 then 0 else if a >=? n then n - 1 else a).
  assert (forall s, 0 <= f s < n) as Hf.
  { intros s. unfold f. destruct (Z.ltb_spec s 0); [lia|].
    rewrite Z.geb_leb. destruct (Z.leb_spec n s); lia. }
  destruct (choose_gather h ba0 bcs n bshape f (dtype_of bcs) Hwf0 Hbsh Hwfb Hcsh)
    as (vals & Hcall & Hlen & Hel); [intros; apply Hf|].
  eexists _, _. split.
  { rewrite Hrun. unfold choose_mode.
    change ("clip" =? "raise")%string with false.
    change ("clip" =? "wrap")%string with false.
    change ("clip" =? "clip")%string with true. cbv iota.
    unfold bind at 1. rewrite Hgb. unfold _choose_clip_kernel. exact Hcall. }
  cbn [shape dtype_of cupy.c_array]. split; [done|]. split; [done|].
  intros idx Hv. destruct (Hel idx Hv) as (s & v & Hs & Hc & Hval).
  exists s, (f s), v.
  rewrite <- (proj1 (Hsel idx Hv)). split; [done|].
  split; [unfold f; destruct (Z.ltb_spec s 0); lia|].
  split.
  { unfold f. destruct (Z.ltb_spec s 0); [lia|].
    rewrite Z.geb_leb. destruct (Z.leb_spec n s); lia. }
  split.
  { unfold f. destruct (Z.ltb_spec s 0); [lia|].
    rewrite Z.geb_leb. destruct (Z.leb_spec n s); lia. }
  split.
  { rewrite <- Hch; [done|]. constructor; [apply Hf|done]. }
  rewrite (at_index_c_array _ _ _ _ vals); [done| |done].
  by apply list_lookup_middle.
Qed.
Lemma elements_ext h a b :
  size a = size b -> (forall i, read_flat h a i = read_flat h b i) ->
  elements h a = elements h b.
Proof. intros Hsz Hrd. unfold elements. rewrite Hsz. by apply mapM_ext. Qed.

(** C5: in mode [raise], if a selector element is outside [0, n) the call
    raises the value error "invalid entry in choice array" and nothing else
    happens: no gather, and the store is the one the call started from.  If
    every selector element is within [0, n) no error is raised: the call
    returns the gather, with at each position the element of the choice the
    selector names. *)
Theorem choose_raise a choices out n cshape bshape h :
  wf_array h a -> wf_array h choices -> shape choices = n :: cshape -> 0 < n ->
  choose_shape a choices = Some bshape ->
  exists sels,
    elements h a = Some sels
    /\ (Exists (fun s => s < 0 \/ n <= s) sels ->
        choose a choices out "raise" h
        = (Raise (ValueError "invalid entry in choice array"), h))
    /\ (Forall (fun s => 0 <= s < n) sels ->
        exists r h',
          choose a choices out "raise" h = (Ok r, h')
          /\ shape r = bshape /\ dtype_of r = dtype_of choices
          /\ forall idx, valid_index bshape idx ->
               exists s v,
                 selector_at h a choices idx = Some s
                 /\ choice_at h a choices s idx = Some v
                 /\ at_index h' r idx = Some v).
Proof.
  intros Hwfa Hwfc Hsh Hn Hcs.
  destruct (choose_run h a choices out "raise" n cshape bshape Hwfa Hwfc Hsh Hn Hcs)
    as (sel & chs & ba & bcs & ba0 & Hrun & _ & _ & Hwfs & Hsz & Hrd & Hgb & Hbsh & Hwf0 & Hsel
        & Hcsh & Hcdt & Hwfb & Hch & Hdims).
  destruct (elements_wf h a Hwfa) as [sels Hsels]. exists sels. split; [done|].
  assert (elements h sel = Some sels) as Hsels'
    by (by rewrite (elements_ext h sel a)).
  assert (cupy.all_lt sel n h = (Ok (forallb (fun x => x <? n) sels), h)) as Hlt.
  { unfold cupy.all_lt, bind, get_heap. by rewrite Hsels'. }
  assert (cupy.all_ge 0 sel h = (Ok (forallb (fun x => 0 <=? x) sels), h)) as Hge.
  { unfold cupy.all_ge, bind, get_heap. by rewrite Hsels'. }
  assert (choose_mode sel ba bcs n (internal.prod bshape) "raise" h
          = if forallb (fun x => x <? n) sels && forallb (fun x => 0 <=? x) sels
            then _choose_kernel ba0 bcs (internal.prod bshape) h
            else (Raise (ValueError "invalid entry in choice array"), h)) as Hmode.
  { unfold choose_mode.
    change ("raise" =? "raise")%string with true. cbv iota.
    unfold bind at 1. rewrite Hlt.
    destruct (forallb (fun x => x <? n) sels).
    - unfold bind at 1. rewrite Hge.
      destruct (forallb (fun x => 0 <=? x) sels); [|reflexivity].
      cbn [negb andb]. cbv iota. unfold bind at 1. by rewrite Hgb.
    - reflexivity. }
  rewrite Hrun, Hmode.
  split.
  - intros Hbad.
    destruct (forallb (fun x => x <? n) sels) eqn:Elt; [|reflexivity].
    destruct (forallb (fun x => 0 <=? x) sels) eqn:Ege; [|reflexivity].
    exfalso. apply Exists_exists in Hbad as (s & Hin & Hs).
    rewrite forallb_forall in Elt, Ege.
    apply list_elem_of_In in Hin.
    specialize (Elt s Hin). specialize (Ege s Hin). simpl in *. lia.
  - intros Hall.
    assert (forallb (fun x => x <? n) sels = true) as ->.
    { apply forallb_forall. intros s Hin%list_elem_of_In.
      rewrite Forall_forall in Hall. specialize (Hall s Hin). simpl. lia. }
    assert (forallb (fun x => 0 <=? x) sels = true) as ->.
    { apply forallb_forall. intros s Hin%list_elem_of_In.
      rewrite Forall_forall in Hall. specialize (Hall s Hin). simpl. lia. }
    cbn [andb].
    destruct (choose_gather h ba0 bcs n bshape (fun s => s) (dtype_of bcs)
                Hwf0 Hbsh Hwfb Hcsh) as (vals & Hcall & Hlen & Hel).
    { intros i s Hi Hs.
      pose proof (wf_dims h ba0 Hwf0) as Hd0. rewrite Hbsh in Hd0.
      destruct (unravel_in_range bshape i Hd0 Hi) as [Hv Hdot].
      destruct (Hsel _ Hv) as [Hat (Hj & Hjr)].
      assert (read_flat h a (selector_slot a choices (unravel bshape i).1) = Some s) as Hsj.
      { rewrite <- Hjr, <- Hat. rewrite <- Hs.
        rewrite <- Hdot at 2. rewrite <- Hbsh.
        symmetry. apply read_flat_dot; [done|by rewrite Hbsh]. }
      rewrite <- (elements_lookup h a sels _ Hsels Hj) in Hsj.
      rewrite Forall_forall in Hall. apply Hall.
      by eapply list_elem_of_lookup_2. }
    eexists _, _. split; [unfold _choose_kernel; exact Hcall|].
    cbn [shape dtype_of cupy.c_array]. split; [done|]. split; [done|].
    intros idx Hv. destruct (Hel idx Hv) as (s & v & Hs & Hc & Hval).
    exists s, v. rewrite <- (proj1 (Hsel idx Hv)). split; [done|].
    split.
    + rewrite <- Hch; [done|]. constructor; [|done].
      destruct (Hsel _ Hv) as [Hat (Hj & Hjr)].
      rewrite Hat, Hjr in Hs.
      rewrite <- (elements_lookup h a sels _ Hsels Hj) in Hs.
      rewrite Forall_forall in Hall. apply Hall.
      by eapply list_elem_of_lookup_2.
    + rewrite (at_index_c_array _ _ _ _ vals); [done| |done].
      by apply list_lookup_middle.
Qed.
(** ** [choose]: wrapping the selector *)

Lemma remainder_range x n : 0 < n -> 0 <= cupy.remainder x n < n.
Proof.
  intros Hn. unfold cupy.remainder. destruct (Z.eqb_spec n 0); [lia|].
  apply Z.mod_pos_bound. lia.
Qed.

(** [a % n] on a well-formed array: a new C-contiguous array of the shape of
    [a], holding the remainders of its elements. *)
Lemma mod_scalar_run h a n vals :
  wf_array h a -> elements h a = Some vals ->
  let m := cupy.c_array (length h) (shape a) (dtype_of a) in
  let h' := h ++ [map (fun x => cupy.remainder x n) vals] in
  cupy.mod_scalar a n h = (Ok m, h')
  /\ wf_array h' m
  /\ forall i, 0 <= i < size a ->
       read_flat h' m i = (fun x => cupy.remainder x n) <$> read_flat h a i.
Proof.
  intros Hwf Hvals m h'.
  assert (h' !! length h = Some (map (fun x => cupy.remainder x n) vals)) as Hbuf
    by (by apply list_lookup_middle).
  pose proof (length_elements h a vals Hvals) as Hlen.
  rewrite (wf_size h a Hwf) in Hlen.
  split; [|split].
  - unfold cupy.mod_scalar, bind, get_heap. rewrite Hvals. reflexivity.
  - eapply wf_c_array; [exact Hbuf|apply (wf_dims h a Hwf)|].
    by rewrite length_map.
  - intros i Hi. unfold m.
    rewrite (read_flat_c_array h' _ _ _ _ i Hbuf);
      [|apply (wf_dims h a Hwf)|rewrite <- (wf_size h a Hwf); done].
    rewrite <- (elements_lookup h a vals i Hvals Hi).
    apply list_lookup_fmap.
Qed.

Lemma shape_iter_expand_dims_0 a k :
  shape (Nat.iter k (fun a => cupy.expand_dims a 0) a) = replicate k 1 ++ shape a.
Proof. induction k as [|k IH]; simpl; [done|]. by rewrite drop_0, IH. Qed.

(** The operands of [choose] are prepared from the shape of the selector
    only. *)
Lemma choose_operands_same_shape a a' choices :
  shape a = shape a' ->
  exists k chs,
    choose_operands a choices = (Nat.iter k (fun a => cupy.expand_dims a 0) a, chs)
    /\ choose_operands a' choices = (Nat.iter k (fun a => cupy.expand_dims a 0) a', chs).
Proof.
  intros Hsh. unfold choose_operands, ndim. rewrite <- Hsh.
  destruct (Z.of_nat (length (shape a)) <? Z.of_nat (length (shape choices)) - 1).
  - by eexists _, _.
  - destruct (Z.of_nat (length (shape a)) >? Z.of_nat (length (shape choices)) - 1).
    + by exists 0%nat, (Nat.iter (Z.to_nat (Z.of_nat (length (shape a)) + 1
                                     - Z.of_nat (length (shape choices))))
                          (fun choices => cupy.expand_dims choices 1) choices).
    + by exists 0%nat, choices.
Qed.

Lemma choose_same_shape a a' choices :
  shape a = shape a' ->
  choose_shape a choices = choose_shape a' choices
  /\ (forall idx, selector_slot a choices idx = selector_slot a' choices idx)
  /\ (choose_operands a choices).2 = (choose_operands a' choices).2
  /\ shape (choose_operands a choices).1 = shape (choose_operands a' choices).1.
Proof.
  intros Hsh.
  destruct (choose_operands_same_shape a a' choices Hsh) as (k & chs & H1 & H2).
  unfold choose_shape, selector_slot. rewrite H1, H2. cbn [fst snd].
  by rewrite !shape_iter_expand_dims_0, Hsh.
Qed.

Lemma broadcast_arrays_snd a a' b (h h' : heap) x y x' y' :
  shape a = shape a' ->
  cupy.broadcast_arrays a b h = (Ok (x, y), h) ->
  cupy.broadcast_arrays a' b h' = (Ok (x', y'), h') ->
  y = y'.
Proof.
  intros Hsh. unfold cupy.broadcast_arrays. rewrite <- Hsh.
  destruct (cupy.broadcast_shapes (shape a) (shape b)) as [sh|]; [|done]. simpl.
  destruct (cupy.broadcast_to a sh); [|done].
  destruct (cupy.broadcast_to a' sh); [|done]. simpl.
  destruct (cupy.broadcast_to b sh); [|done]. simpl.
  intros [= _ <-] [= _ <-]. reflexivity.
Qed.

(** C2: on a selector [s] and choices with the leading dimension [n] that
    broadcast together, [choose(s, choices, mode='wrap')] and
    [choose(s % n, choices, mode='raise')] both return, and they return the
    same array: the same shape, the same dtype and the same elements.  (The
    elements of an integer array are its values; [%] is Python's
    remainder.) *)
Theorem choose_wrap_is_raise_mod s choices out n cshape bshape h :
  wf_array h s -> wf_array h choices -> shape choices = n :: cshape -> 0 < n ->
  choose_shape s choices = Some bshape ->
  exists r1 h1 s' h0 r2 h2 vals,
    choose s choices out "wrap" h = (Ok r1, h1)
    /\ cupy.mod_scalar s n h = (Ok s', h0)
    /\ choose s' choices out "raise" h0 = (Ok r2, h2)
    /\ shape r1 = bshape /\ shape r2 = bshape
    /\ dtype_of r1 = dtype_of choices /\ dtype_of r2 = dtype_of choices
    /\ elements h1 r1 = Some vals /\ elements h2 r2 = Some vals.
Proof.
  intros Hwfs Hwfc Hsh Hn Hcs.
  set (rem := fun x => cupy.remainder x n).
  (* s % n *)
  destruct (elements_wf h s Hwfs) as [svals Hsvals].
  destruct (mod_scalar_run h s n svals Hwfs Hsvals) as (Hmod & Hwfs' & Hrs').
  set (s' := cupy.c_array (length h) (shape s) (dtype_of s)) in *.
  set (h0 := h ++ [map (fun x => cupy.remainder x n) svals]) in *.
  assert (h `prefix_of` h0) as Hp0 by (by apply prefix_app_r).
  destruct (choose_same_shape s s' choices eq_refl) as (Hcs' & Hslot & Hchs & Hssel).
  (* the left-hand side *)
  destruct (choose_run h s choices out "wrap" n cshape bshape Hwfs Hwfc Hsh Hn Hcs)
    as (sel & chs & ba & bcs & ba0 & Hrun1 & Hops1 & Hbr1 & _ & _ & _ & Hgb1 & Hbsh1
        & Hwf01 & Hsel1 & Hcsh1 & Hcdt1 & Hwfb1 & _ & Hdims).
  destruct (elements_wf h ba0 Hwf01) as [bvals Hbvals].
  destruct (mod_scalar_run h ba0 n bvals Hwf01 Hbvals) as (Hmodb & Hwfm & Hrm).
  rewrite Hbsh1 in Hmodb, Hwfm, Hrm.
  set (m := cupy.c_array (length h) bshape (dtype_of ba0)) in *.
  set (h1a := h ++ [map (fun x => cupy.remainder x n) bvals]) in *.
  assert (h `prefix_of` h1a) as Hp1 by (by apply prefix_app_r).
  pose proof (wf_size h ba0 Hwf01) as Hsz0. rewrite Hbsh1 in Hsz0.
  destruct (choose_gather h1a m bcs n bshape (fun x => x) (dtype_of bcs) Hwfm eq_refl
              (wf_array_prefix h h1a bcs Hp1 Hwfb1) Hcsh1)
    as (vals1 & Hcall1 & Hlen1 & Hel1).
  { intros i x Hi Hx. rewrite Hrm in Hx by lia.
    destruct (read_flat h ba0 i); [|done]. injection Hx as <-.
    by apply remainder_range. }
  (* the right-hand side *)
  rewrite Hcs' in Hcs.
  destruct (choose_run h0 s' choices out "raise" n cshape bshape Hwfs'
              (wf_array_prefix h h0 choices Hp0 Hwfc) Hsh Hn Hcs)
    as (sel' & chs' & ba' & bcs' & ba0' & Hrun2 & Hops2 & Hbr2 & Hwfsel' & Hsz' & Hrd'
        & Hgb2 & Hbsh2 & Hwf02 & Hsel2 & Hcsh2 & Hcdt2 & Hwfb2 & _ & _).
  rewrite Hops1, Hops2 in Hchs, Hssel. simpl in Hchs, Hssel. subst chs'.
  assert (bcs' = bcs) as ->.
  { symmetry. exact (broadcast_arrays_snd sel sel' chs h h0 ba bcs ba' bcs' Hssel Hbr1 Hbr2). }
  pose proof (wf_size h s Hwfs) as Hszs.
  assert (forall idx, valid_index bshape idx ->
            at_index h0 ba0' idx = rem <$> selector_at h s choices idx) as Hsel'.
  { intros idx Hv. destruct (Hsel2 idx Hv) as (-> & Hj & ->).
    destruct (Hsel1 idx Hv) as (_ & _ & ->).
    rewrite <- Hslot in *. apply Hrs'.
    change (size s') with (internal.prod (shape s)) in Hj. by rewrite Hszs. }
  assert (elements h0 s' = Some (map (fun x => cupy.remainder x n) svals)) as Hsm.
  { apply elements_c_array; [by apply list_lookup_middle|apply (wf_dims h s Hwfs)|].
    rewrite length_map, (length_elements h s svals Hsvals). by rewrite Hszs. }
  assert (elements h0 sel' = Some (map (fun x => cupy.remainder x n) svals)) as Hsm'
    by (by rewrite (elements_ext h0 sel' s')).
  assert (forallb (fun x => x <? n) (map (fun x => cupy.remainder x n) svals) = true)
    as Hlt.
  { apply forallb_forall. intros x Hin. apply in_map_iff in Hin as (y & <- & _).
    pose proof (remainder_range y n Hn). simpl. lia. }
  assert (forallb (fun x => 0 <=? x) (map (fun x => cupy.remainder x n) svals) = true)
    as Hge.
  { apply forallb_forall. intros x Hin. apply in_map_iff in Hin as (y & <- & _).
    pose proof (remainder_range y n Hn). simpl. lia. }
  destruct (choose_gather h0 ba0' bcs n bshape (fun x => x) (dtype_of bcs)
              Hwf02 Hbsh2 Hwfb2 Hcsh1) as (vals2 & Hcall2 & Hlen2 & Hel2).
  { intros i x Hi Hx.
    pose proof (wf_dims h0 ba0' Hwf02) as Hd. rewrite Hbsh2 in Hd.
    destruct (unravel_in_range bshape i Hd Hi) as [Hv Hdot].
    assert (at_index h0 ba0' (unravel bshape i).1 = Some x) as Hat.
    { rewrite <- Hx. rewrite <- Hdot at 2. rewrite <- Hbsh2.
      symmetry. apply read_flat_dot; [done|by rewrite Hbsh2]. }
    rewrite Hsel' in Hat by done.
    destruct (selector_at h s choices (unravel bshape i).1); [|done].
    injection Hat as <-. by apply remainder_range. }
  (* the two arrays of values *)
  assert (vals1 = vals2) as <-.
  { apply list_eq. intros i.
    destruct (decide (Z.of_nat i < internal.prod bshape)) as [Hi|Hi].
    - destruct (unravel_in_range bshape (Z.of_nat i) Hdims) as [Hv Hdot]; [lia|].
      destruct (Hel1 _ Hv) as (x1 & v1 & Hx1 & Hv1 & Hl1).
      destruct (Hel2 _ Hv) as (x2 & v2 & Hx2 & Hv2 & Hl2).
      rewrite Hdot, Nat2Z.id in Hl1, Hl2. rewrite Hl1, Hl2.
      assert (x1 = x2) as <-.
      { rewrite Hsel' in Hx2 by done.
        rewrite <- (read_flat_dot h1a m) in Hx1 by done.
        cbn [shape cupy.c_array m] in Hx1. rewrite Hdot in Hx1.
        rewrite Hrm in Hx1 by lia.
        replace (read_flat h ba0 (Z.of_nat i))
          with (at_index h ba0 (unravel bshape (Z.of_nat i)).1) in Hx1.
        - rewrite (proj1 (Hsel1 _ Hv)) in Hx1. unfold rem in Hx2. congruence.
        - rewrite <- Hdot at 2. rewrite <- Hbsh1.
          symmetry. apply read_flat_dot; [done|by rewrite Hbsh1]. }
      rewrite (at_index_prefix h h1a) in Hv1 by (done || apply Hwfb1).
      rewrite (at_index_prefix h h0) in Hv2 by (done || apply Hwfb1).
      congruence.
    - rewrite !lookup_ge_None_2 by lia. done. }
  assert (forall (hh : heap),
            elements (hh ++ [vals1]) (cupy.c_array (length hh) bshape (dtype_of bcs))
            = Some vals1) as Helems.
  { intros hh. apply elements_c_array; [by apply list_lookup_middle|done|done]. }
  eexists _, _, s', h0, _, _, vals1.
  split.
  { rewrite Hrun1. unfold choose_mode.
    change ("wrap" =? "raise")%string with false.
    change ("wrap" =? "wrap")%string with true. cbv iota.
    unfold bind at 1. rewrite Hgb1. unfold bind at 1. rewrite Hmodb.
    unfold _choose_kernel. exact Hcall1. }
  split; [exact Hmod|].
  split.
  { rewrite Hrun2. unfold choose_mode.
    change ("raise" =? "raise")%string with true. cbv iota.
    unfold cupy.all_lt, cupy.all_ge.
    unfold bind at 1. unfold bind at 1. unfold bind at 1. unfold get_heap at 1.
    rewrite Hsm'. cbn [device ret]. rewrite Hlt.
    unfold bind at 1. unfold bind at 1. unfold bind at 1. unfold get_heap at 1.
    rewrite Hsm'. cbn [device ret]. rewrite Hge. cbn [negb andb]. cbv iota.
    unfold bind at 1. rewrite Hgb2. unfold _choose_kernel. exact Hcall2. }
  cbn [shape dtype_of cupy.c_array]. by split_and!.
Qed.

Lemma Ex_wf_sel_bad : wf_array Ex.store0 Ex.sel_bad.
Proof.
  apply (wf_c_array Ex.store0 1 [4] int32 [0; -1; 5; 1]).
  - reflexivity.
  - repeat constructor; discriminate.
  - reflexivity.
Defined.

Lemma Ex_wf_sel_good : wf_array Ex.store0 Ex.sel_good.
Proof.
  apply (wf_c_array Ex.store0 5 [4] int32 [0; 2; 1; 1]).
  - reflexivity.
  - repeat constructor; discriminate.
  - reflexivity.
Defined.

Lemma Ex_wf_choices34 : wf_array Ex.store0 Ex.choices34.
Proof.
  apply (wf_c_array Ex.store0 2 [3; 4] float32
           [10; 11; 12; 13; 20; 21; 22; 23; 30; 31; 32; 33]).
  - reflexivity.
  - repeat constructor; discriminate.
  - reflexivity.
Defined.

Lemma choose_clip_witness :
  exists r h',
    choose Ex.sel_bad Ex.choices34 None "clip" Ex.store0 = (Ok r, h')
    /\ shape r = [4]
    /\ at_index h' r [1] = Some 11 /\ at_index h' r [2] = Some 32.
Proof.
  assert (0 < 3) as Hn by reflexivity.
  destruct (choose_clip Ex.sel_bad Ex.choices34 None 3 [4] [4] Ex.store0
              Ex_wf_sel_bad Ex_wf_choices34 eq_refl Hn eq_refl)
    as (r & h' & Hrun & Hsh & _ & Hel).
  exists r, h'. split; [exact Hrun|]. split; [exact Hsh|]. split.
  - destruct (Hel [1]) as (s & c & v & Hs & Hneg & _ & _ & Hc & Hr).
    { repeat constructor; (discriminate || reflexivity). }
    vm_compute in Hs. injection Hs as <-.
    rewrite (Hneg eq_refl) in Hc. vm_compute in Hc. injection Hc as <-. exact Hr.
  - destruct (Hel [2]) as (s & c & v & Hs & _ & Hbig & _ & Hc & Hr).
    { repeat constructor; (discriminate || reflexivity). }
    vm_compute in Hs. injection Hs as <-.
    rewrite Hbig in Hc by discriminate. vm_compute in Hc. injection Hc as <-. exact Hr.
Defined.

Lemma choose_raise_witness :
  choose Ex.sel_bad Ex.choices34 None "raise" Ex.store0
  = (Raise (ValueError "invalid entry in choice array"), Ex.store0)
  /\ exists r h',
       choose Ex.sel_good Ex.choices34 None "raise" Ex.store0 = (Ok r, h')
       /\ shape r = [4] /\ at_index h' r [1] = Some 31.
Proof.
  assert (0 < 3) as Hn by reflexivity.
  split.
  - destruct (choose_raise Ex.sel_bad Ex.choices34 None 3 [4] [4] Ex.store0
                Ex_wf_sel_bad Ex_wf_choices34 eq_refl Hn eq_refl)
      as (sels & Hs & Hbad & _).
    apply Hbad. vm_compute in Hs. injection Hs as <-.
    apply Exists_cons_tl, Exists_cons_hd. left. reflexivity.
  - destruct (choose_raise Ex.sel_good Ex.choices34 None 3 [4] [4] Ex.store0
                Ex_wf_sel_good Ex_wf_choices34 eq_refl Hn eq_refl)
      as (sels & Hs & _ & Hgood).
    vm_compute in Hs. injection Hs as <-.
    destruct Hgood as (r & h' & Hrun & Hsh & _ & Hel).
    { repeat constructor; (discriminate || reflexivity). }
    exists r, h'. split; [exact Hrun|]. split; [exact Hsh|].
    destruct (Hel [1]) as (s & v & Hsel & Hc & Hr).
    { repeat constructor; (discriminate || reflexivity). }
    vm_compute in Hsel. injection Hsel as <-.
    vm_compute in Hc. injection Hc as <-. exact Hr.
Defined.

Lemma choose_wrap_is_raise_mod_witness :
  exists r1 h1 s' h0 r2 h2 vals,
    choose Ex.sel_bad Ex.choices34 None "wrap" Ex.store0 = (Ok r1, h1)
    /\ cupy.mod_scalar Ex.sel_bad 3 Ex.store0 = (Ok s', h0)
    /\ choose s' Ex.choices34 None "raise" h0 = (Ok r2, h2)
    /\ shape r1 = [4] /\ shape r2 = [4]
    /\ dtype_of r1 = dtype_of Ex.choices34 /\ dtype_of r2 = dtype_of Ex.choices34
    /\ elements h1 r1 = Some vals /\ elements h2 r2 = Some vals.
Proof.
  assert (0 < 3) as Hn by reflexivity.
  exact (choose_wrap_is_raise_mod Ex.sel_bad Ex.choices34 None 3 [4] [4] Ex.store0
           Ex_wf_sel_bad Ex_wf_choices34 eq_refl Hn eq_refl).
Defined.

(** * Further properties of the three functions *)

(** ** [diagonal]: exchanging the axes, the elements, aliasing, bad axes *)

Lemma remove_axes_comm {A} (l : list A) p1 p2 : remove_axes l p1 p2 = remove_axes l p2 p1.
Proof. unfold remove_axes. by rewrite Nat.min_comm, Nat.max_comm. Qed.

(** X1: [diagonal(a, offset, axis1, axis2)] and
    [diagonal(a, -offset, axis2, axis1)] are the same call: the same outcome,
    descriptor and store, for valid distinct axes. *)
Theorem diagonal_swap_axes a offset axis1 axis2 h :
  length (strides a) = length (shape a) ->
  0 <= axis1 < ndim a -> 0 <= axis2 < ndim a -> axis1 <> axis2 ->
  diagonal a offset axis1 axis2 h = diagonal a (- offset) axis2 axis1 h.
Proof.
  intros Hst H1 H2 Hne.
  rewrite (diagonal_run a offset axis1 axis2 h Hst H1 H2 Hne).
  rewrite (diagonal_run a (- offset) axis2 axis1 h Hst H2 H1) by done.
  unfold diag_size_of, diagonal_axes.
  rewrite !(remove_axes_comm _ (Z.to_nat axis2) (Z.to_nat axis1)).
  destruct (Z.lt_trichotomy offset 0) as [Hneg|[->|Hpos]].
  - replace (offset >=? 0) with false by (symmetry; rewrite Z.geb_leb; apply Z.leb_gt; lia).
    replace (- offset >=? 0) with true by (symmetry; apply Z.geb_le; lia).
    reflexivity.
  - simpl.
    replace (Z.max 0 (Z.min (shape a !!! Z.to_nat axis2) (shape a !!! Z.to_nat axis1 - 0)))
      with (Z.max 0 (Z.min (shape a !!! Z.to_nat axis1) (shape a !!! Z.to_nat axis2 - 0)))
      by lia.
    destruct (_ =? 0); [reflexivity|].
    rewrite !Z.mul_0_l.
    by rewrite (Z.add_comm (strides a !!! Z.to_nat axis2)).
  - replace (offset >=? 0) with true by (symmetry; apply Z.geb_le; lia).
    replace (- offset >=? 0) with false
      by (symmetry; rewrite Z.geb_leb; apply Z.leb_gt; lia).
    rewrite Z.opp_involutive. reflexivity.
Qed.

Lemma diagonal_swap_axes_witness :
  diagonal Ex.a33 1 0 1 Ex.store0 = diagonal Ex.a33 (-1) 1 0 Ex.store0.
Proof.
  assert (0 <= 0 < ndim Ex.a33) as H1 by (vm_compute; split; [discriminate|reflexivity]).
  assert (0 <= 1 < ndim Ex.a33) as H2 by (vm_compute; split; [discriminate|reflexivity]).
  assert (0 <> 1) as Hne by discriminate.
  exact (diagonal_swap_axes Ex.a33 1 0 1 Ex.store0 eq_refl H1 H2 Hne).
Defined.
Lemma dot_fmap_Permutation (f g : nat -> Z) (l1 l2 : list nat) :
  l1 ≡ₚ l2 -> dot (f <$> l1) (g <$> l1) = dot (f <$> l2) (g <$> l2).
Proof.
  induction 1 as [|x l l' _ IH|x y l|l l' l'' _ IH1 _ IH2].
  - done.
  - rewrite !fmap_cons. cbn [dot]. by rewrite IH.
  - rewrite !fmap_cons. cbn [dot]. lia.
  - by rewrite IH1.
Qed.

Lemma remove_axes_Permutation {A} (l : list A) p1 p2 u v :
  p1 <> p2 -> l !! p1 = Some u -> l !! p2 = Some v ->
  l ≡ₚ remove_axes l p1 p2 ++ [u; v].
Proof.
  intros Hne H1 H2. unfold remove_axes.
  destruct (decide (p1 < p2)%nat) as [Hlt|Hge].
  - rewrite Nat.max_r, Nat.min_l by lia.
    etrans; [apply (delete_Permutation l p2 v H2)|].
    etrans; [apply perm_skip, (delete_Permutation (delete p2 l) p1 u);
             by rewrite list_lookup_delete_lt|].
    etrans; [apply perm_swap|].
    apply (Permutation_app_comm [u; v]).
  - rewrite Nat.max_l, Nat.min_r by lia.
    etrans; [apply (delete_Permutation l p1 u H1)|].
    etrans; [apply perm_skip, (delete_Permutation (delete p1 l) p2 v);
             rewrite list_lookup_delete_lt by lia; done|].
    apply (Permutation_app_comm [u; v]).
Qed.

(** The strided offset of a multi-index, with two of its axes taken out and
    put last. *)
Lemma dot_remove_axes (idx st : list Z) p1 p2 :
  length idx = length st -> p1 <> p2 ->
  (p1 < length st)%nat -> (p2 < length st)%nat ->
  dot idx st = dot (remove_axes idx p1 p2) (remove_axes st p1 p2)
               + idx !!! p1 * st !!! p1 + idx !!! p2 * st !!! p2.
Proof.
  intros Hlen Hne H1 H2.
  rewrite <- (lookup_total_seq idx) at 1. rewrite <- (lookup_total_seq st) at 1.
  rewrite Hlen.
  rewrite (dot_fmap_Permutation _ _ _ _
             (remove_axes_Permutation (seq 0 (length st)) p1 p2 p1 p2 Hne
                (lookup_seq_lt _ _ _ H1) (lookup_seq_lt _ _ _ H2))).
  rewrite !fmap_app.
  rewrite dot_app by (by rewrite !length_fmap).
  rewrite lookup_total_remove_axes.
  rewrite <- Hlen, lookup_total_remove_axes. simpl. lia.
Qed.

Lemma valid_index_remove_axes sh idx p1 p2 :
  valid_index sh idx -> valid_index (remove_axes sh p1 p2) (remove_axes idx p1 p2).
Proof. intros H. unfold remove_axes. by do 2 apply Forall2_delete. Qed.

Lemma valid_index_lookup sh idx p :
  valid_index sh idx -> (p < length sh)%nat -> 0 <= idx !!! p < sh !!! p.
Proof.
  intros Hv Hp.
  pose proof (Forall2_length _ _ _ Hv) as Hl.
  unfold valid_index in Hv.
  apply (Forall2_lookup_lr _ sh idx p (sh !!! p) (idx !!! p) Hv).
  - by apply list_lookup_lookup_total_lt.
  - apply list_lookup_lookup_total_lt. lia.
Qed.

Lemma diagonal_axes_cases offset axis1 axis2 x y off :
  diagonal_axes offset axis1 axis2 = (x, y, off) ->
  0 <= off
  /\ ((x = Z.to_nat axis1 /\ y = Z.to_nat axis2) \/ (x = Z.to_nat axis2 /\ y = Z.to_nat axis1)).
Proof.
  unfold diagonal_axes. destruct (offset >=? 0) eqn:E; intros [= <- <- <-].
  - apply Z.geb_le in E. split; [lia|by left].
  - rewrite Z.geb_leb in E. apply Z.leb_gt in E. split; [lia|by right].
Qed.

(** The view that [diagonal] returns addresses, at a position without the
    two axes followed by the coordinate on the first of them, the element
    that the source addresses at the position on the diagonal. *)
Lemma diagonal_view a offset axis1 axis2 h idx x y off :
  length (strides a) = length (shape a) ->
  0 <= axis1 < ndim a -> 0 <= axis2 < ndim a -> axis1 <> axis2 ->
  diagonal_axes offset axis1 axis2 = (x, y, off) ->
  valid_index (shape a) idx ->
  idx !!! y = idx !!! x + off ->
  exists r, diagonal a offset axis1 axis2 h = (Ok r, h)
    /\ data r = data a
    /\ valid_index (shape r)
         (remove_axes idx (Z.to_nat axis1) (Z.to_nat axis2) ++ [idx !!! x])
    /\ address r (remove_axes idx (Z.to_nat axis1) (Z.to_nat axis2) ++ [idx !!! x])
       = address a idx.
Proof.
  intros Hst H1 H2 Hne Hax Hv Hdiag.
  pose proof (Forall2_length _ _ _ Hv) as Hlen.
  unfold ndim in H1, H2.
  assert (Z.to_nat axis1 <> Z.to_nat axis2) as Hne' by lia.
  assert (Z.to_nat axis1 < length (shape a))%nat as Hp1 by lia.
  assert (Z.to_nat axis2 < length (shape a))%nat as Hp2 by lia.
  destruct (diagonal_axes_cases _ _ _ _ _ _ Hax) as [Hoff Hxy].
  assert ((x < length (shape a))%nat /\ (y < length (shape a))%nat /\ x <> y
          /\ remove_axes idx (Z.to_nat axis1) (Z.to_nat axis2) = remove_axes idx x y
          /\ remove_axes (strides a) (Z.to_nat axis1) (Z.to_nat axis2)
             = remove_axes (strides a) x y)
    as (Hx & Hy & Hxne & Hri & Hrs).
  { destruct Hxy as [[-> ->]|[-> ->]]; split_and!; try done; try lia;
      apply remove_axes_comm. }
  pose proof (valid_index_lookup _ _ x Hv Hx) as Hbx.
  pose proof (valid_index_lookup _ _ y Hv Hy) as Hby.
  assert (0 <= idx !!! x < diag_size_of (shape a) offset axis1 axis2) as Hd.
  { unfold diag_size_of. rewrite Hax. lia. }
  pose proof (diagonal_run a offset axis1 axis2 h Hst
                ltac:(unfold ndim; lia) ltac:(unfold ndim; lia) Hne) as Hrun.
  rewrite Hax in Hrun. cbv zeta in Hrun.
  replace (diag_size_of (shape a) offset axis1 axis2 =? 0) with false in Hrun
    by (symmetry; apply Z.eqb_neq; lia).
  eexists. split; [exact Hrun|]. split; [reflexivity|]. split.
  - cbn [shape]. apply Forall2_app.
    + by apply valid_index_remove_axes.
    + constructor; [exact Hd|constructor].
  - unfold address. cbn [data data_offset strides].
    rewrite dot_app.
    2:{ rewrite !length_remove_axes; try done; lia. }
    rewrite (dot_remove_axes idx (strides a) x y) by (try done; lia).
    rewrite Hri, Hrs, Hdiag. simpl. lia.
Qed.

Lemma load_store (h : heap) b addr v :
  is_Some (load h b addr) -> load (store h b addr v) b addr = Some v.
Proof.
  unfold load, store. destruct (0 <=? addr) eqn:E; [|by intros [? ?]].
  destruct (h !! b) as [buf|] eqn:Hb; simpl; [|by intros [? ?]].
  intros Hin. rewrite list_lookup_insert_eq by (by eapply lookup_lt_Some).
  simpl. apply list_lookup_insert_eq. by apply lookup_lt_is_Some.
Qed.

(** X2: The elements of the view that [diagonal] returns, for an array of
    any number of axes: for every position of the source that is in range and
    lies on the diagonal (its coordinate on the second of the two axes, in
    the order [diagonal] puts them, is its coordinate on the first plus the
    offset made non-negative), [diagonal] returns a view, without touching
    the store, that shows the source element of that position at the
    position without the two axes followed by the coordinate on the first
    axis, which is in range for the view. *)
Theorem diagonal_element a offset axis1 axis2 h idx x y off :
  length (strides a) = length (shape a) ->
  0 <= axis1 < ndim a -> 0 <= axis2 < ndim a -> axis1 <> axis2 ->
  diagonal_axes offset axis1 axis2 = (x, y, off) ->
  valid_index (shape a) idx ->
  idx !!! y = idx !!! x + off ->
  exists r, diagonal a offset axis1 axis2 h = (Ok r, h)
    /\ valid_index (shape r)
         (remove_axes idx (Z.to_nat axis1) (Z.to_nat axis2) ++ [idx !!! x])
    /\ at_index h r (remove_axes idx (Z.to_nat axis1) (Z.to_nat axis2) ++ [idx !!! x])
       = at_index h a idx.
Proof.
  intros Hst H1 H2 Hne Hax Hv Hdiag.
  destruct (diagonal_view a offset axis1 axis2 h idx x y off Hst H1 H2 Hne Hax Hv Hdiag)
    as (r & Hrun & Hdata & Hvr & Haddr).
  exists r. split_and!; [done|done|].
  unfold at_index. by rewrite Hdata, Haddr.
Qed.

Lemma diagonal_element_witness :
  exists r, diagonal Ex.a23 1 0 1 Ex.store0 = (Ok r, Ex.store0)
    /\ valid_index (shape r) (remove_axes [1; 2] 0 1 ++ [1])
    /\ at_index Ex.store0 r (remove_axes [1; 2] 0 1 ++ [1])
       = at_index Ex.store0 Ex.a23 [1; 2].
Proof.
  assert (0 <= 0 < ndim Ex.a23) as H1 by (vm_compute; split; [discriminate|reflexivity]).
  assert (0 <= 1 < ndim Ex.a23) as H2 by (vm_compute; split; [discriminate|reflexivity]).
  assert (0 <> 1) as Hne by discriminate.
  assert (valid_index (shape Ex.a23) [1; 2]) as Hv.
  { repeat constructor; vm_compute; discriminate || reflexivity. }
  exact (diagonal_element Ex.a23 1 0 1 Ex.store0 [1; 2] 0%nat 1%nat 1
           eq_refl H1 H2 Hne eq_refl Hv eq_refl).
Defined.

(** X3: The array that [diagonal] returns is a view, not a copy: for a
    well-formed source, a value stored through the view at the position of a
    diagonal element is the value the source then holds at the position on
    its diagonal. *)
Theorem diagonal_view_aliases a offset axis1 axis2 h idx x y off :
  wf_array h a ->
  0 <= axis1 < ndim a -> 0 <= axis2 < ndim a -> axis1 <> axis2 ->
  diagonal_axes offset axis1 axis2 = (x, y, off) ->
  valid_index (shape a) idx ->
  idx !!! y = idx !!! x + off ->
  exists r, diagonal a offset axis1 axis2 h = (Ok r, h)
    /\ forall v,
         let ridx := remove_axes idx (Z.to_nat axis1) (Z.to_nat axis2) ++ [idx !!! x] in
         at_index (store h (data r) (address r ridx) v) a idx = Some v.
Proof.
  intros Hwf H1 H2 Hne Hax Hv Hdiag.
  destruct (diagonal_view a offset axis1 axis2 h idx x y off
              (wf_strides h a Hwf) H1 H2 Hne Hax Hv Hdiag)
    as (r & Hrun & Hdata & Hvr & Haddr).
  exists r. split; [done|]. intros v ridx. subst ridx.
  rewrite Hdata, Haddr. unfold at_index. apply load_store.
  apply (wf_bounds h a Hwf idx Hv).
Qed.

Lemma diagonal_view_aliases_witness :
  exists r, diagonal Ex.a23 1 0 1 Ex.store0 = (Ok r, Ex.store0)
    /\ forall v,
         let ridx := remove_axes [1; 2] 0 1 ++ [1] in
         at_index (store Ex.store0 (data r) (address r ridx) v) Ex.a23 [1; 2] = Some v.
Proof.
  assert (0 <= 0 < ndim Ex.a23) as H1 by (vm_compute; split; [discriminate|reflexivity]).
  assert (0 <= 1 < ndim Ex.a23) as H2 by (vm_compute; split; [discriminate|reflexivity]).
  assert (0 <> 1) as Hne by discriminate.
  assert (valid_index (shape Ex.a23) [1; 2]) as Hv.
  { repeat constructor; vm_compute; discriminate || reflexivity. }
  exact (diagonal_view_aliases Ex.a23 1 0 1 Ex.store0 [1; 2] 0%nat 1%nat 1
           Ex_wf_a23 H1 H2 Hne eq_refl Hv eq_refl).
Defined.

(** X4: [diagonal] with an axis that is not below the number of axes, or
    with both axes the last axis, raises [IndexError] ("list assignment
    index out of range", from the deletions in the list of axes) and leaves
    the store as it is. *)
Theorem diagonal_axis_out_of_range a offset axis1 axis2 h :
  ndim a <= axis1 \/ ndim a <= axis2 \/ (axis1 = ndim a - 1 /\ axis2 = ndim a - 1) ->
  diagonal a offset axis1 axis2 h
  = (Raise (IndexError "list assignment index out of range"), h).
Proof.
  intros Hax. unfold diagonal, ndim in *.
  set (n := length (shape a)) in *.
  set (tr := map Z.of_nat (seq 0 n)).
  assert (length tr = n) as Hlen by (subst tr; by rewrite length_map, length_seq).
  destruct (decide (Z.of_nat n <= Z.max axis1 axis2)) as [Hbig|Hsmall].
  - assert (py_del tr (Z.max axis1 axis2) = None) as Hdel.
    { unfold py_del, subscript. rewrite Hlen.
      replace (Z.max axis1 axis2 <? 0) with false by (symmetry; apply Z.ltb_ge; lia).
      replace (Z.max axis1 axis2 <? Z.of_nat n) with false
        by (symmetry; apply Z.ltb_ge; lia).
      by rewrite andb_false_r. }
    destruct (axis1 <? axis2) eqn:E.
    + apply Z.ltb_lt in E. rewrite Z.max_r in Hdel by lia.
      unfold bind at 1. by rewrite Hdel.
    + apply Z.ltb_ge in E. rewrite Z.max_l in Hdel by lia.
      unfold bind at 1. by rewrite Hdel.
  - destruct Hax as [?|[?|[-> ->]]]; [lia|lia|].
    rewrite Z.ltb_irrefl.
    destruct (decide (n = 0%nat)) as [Hn|Hn].
    + unfold bind at 1. unfold py_del, subscript. rewrite Hlen, Hn. reflexivity.
    + assert (py_del tr (Z.of_nat n - 1) = Some (delete (n - 1)%nat tr)) as Hdel.
      { unfold py_del. rewrite Hlen, subscript_nonneg by lia. simpl.
        do 2 f_equal. lia. }
      unfold bind at 1. rewrite Hdel. cbn [or_raise ret].
      unfold bind at 1. unfold py_del, subscript.
      rewrite length_delete by (apply lookup_lt_is_Some; lia). rewrite Hlen.
      replace (Z.of_nat n - 1 <? 0) with false by (symmetry; apply Z.ltb_ge; lia).
      replace (Z.of_nat n - 1 <? Z.of_nat (n - 1)) with false
        by (symmetry; apply Z.ltb_ge; lia).
      by rewrite andb_false_r.
Qed.

Lemma diagonal_axis_out_of_range_witness :
  diagonal Ex.a33 0 0 2 Ex.store0
  = (Raise (IndexError "list assignment index out of range"), Ex.store0).
Proof.
  apply (diagonal_axis_out_of_range Ex.a33 0 0 2 Ex.store0).
  right. left. vm_compute. discriminate.
Defined.
(** ** [choose]: the three modes, side by side *)

(** The choice number that mode [clip] makes of a selector element. *)
Lemma clip_range n s :
  0 < n -> 0 <= (if s <? 0 then 0 else if s >=? n then n - 1 else s) < n.
Proof.
  intros Hn. destruct (Z.ltb_spec s 0); [lia|].
  rewrite Z.geb_leb. destruct (Z.leb_spec n s); lia.
Qed.

Lemma clip_in_range n s :
  0 <= s < n -> (if s <? 0 then 0 else if s >=? n then n - 1 else s) = s.
Proof.
  intros Hs. destruct (Z.ltb_spec s 0); [lia|].
  rewrite Z.geb_leb. destruct (Z.leb_spec n s); lia.
Qed.

(** Two well-formed arrays of one shape that show the same elements at
    every position hold the same elements in C order. *)
Lemma elements_by_index h1 a1 h2 a2 :
  wf_array h1 a1 -> wf_array h2 a2 -> shape a1 = shape a2 ->
  (forall idx, valid_index (shape a1) idx -> at_index h1 a1 idx = at_index h2 a2 idx) ->
  elements h1 a1 = elements h2 a2.
Proof.
  intros Hwf1 Hwf2 Hsh Hat.
  pose proof (wf_size h1 a1 Hwf1) as Hs1. pose proof (wf_size h2 a2 Hwf2) as Hs2.
  unfold elements. rewrite Hs1, Hs2, <- Hsh. apply mapM_ext. intros i.
  unfold read_flat. rewrite Hs1, Hs2, <- Hsh.
  destruct ((0 <=? i) && (i <? internal.prod (shape a1))) eqn:E; [|done].
  apply andb_true_iff in E as [E1%Z.leb_le E2%Z.ltb_lt].
  apply Hat. apply unravel_in_range; [apply (wf_dims h1 a1 Hwf1)|lia].
Qed.

(** The selector element that the broadcast puts at a position is an element
    of the selector. *)
Lemma selector_at_elem_of h a choices n cshape bshape sels idx s :
  wf_array h a -> wf_array h choices -> shape choices = n :: cshape -> 0 < n ->
  choose_shape a choices = Some bshape ->
  elements h a = Some sels ->
  valid_index bshape idx -> selector_at h a choices idx = Some s -> s ∈ sels.
Proof.
  intros Hwfa Hwfc Hsh Hn Hcs Hsels Hv Hs.
  destruct (choose_run h a choices None "clip" n cshape bshape Hwfa Hwfc Hsh Hn Hcs)
    as (sel & chs & ba & bcs & ba0 & _ & _ & _ & _ & _ & _ & _ & _ & _ & Hsel & _).
  destruct (Hsel idx Hv) as (_ & Hj & Hjr).
  rewrite Hjr in Hs. rewrite <- (elements_lookup h a sels _ Hsels Hj) in Hs.
  by eapply list_elem_of_lookup_2.
Qed.

(** A run of [choose] in a mode that launches a kernel on the selector as
    it is: the kernel [kernel] of mode [mode] reads the choice [f s] for the
    selector element [s]. *)
Lemma choose_direct_run h a choices out mode n cshape bshape (f : Z -> Z) :
  wf_array h a -> wf_array h choices -> shape choices = n :: cshape -> 0 < n ->
  choose_shape a choices = Some bshape ->
  (forall idx s, valid_index bshape idx -> selector_at h a choices idx = Some s ->
     0 <= f s < n) ->
  (forall sel ba bcs ba0,
     cupy.getitem ba 0 h = (Ok ba0, h) ->
     (exists sels, elements h sel = Some sels /\ elements h a = Some sels) ->
     choose_mode sel ba bcs n (internal.prod bshape) mode h
     = elementwise.call (shape ba0) (dtype_of bcs)
         (fun h i => s ← read_flat h ba0 i;
                     read_flat h bcs (i + internal.prod bshape * f s)) h) ->
  exists r h',
    choose a choices out mode h = (Ok r, h')
    /\ shape r = bshape /\ dtype_of r = dtype_of choices
    /\ h `prefix_of` h' /\ h !! data r = None /\ wf_array h' r
    /\ forall idx, valid_index bshape idx ->
         exists s v,
           selector_at h a choices idx = Some s
           /\ choice_at h a choices (f s) idx = Some v
           /\ at_index h' r idx = Some v.
Proof.
  intros Hwfa Hwfc Hsh Hn Hcs Hf Hmode.
  destruct (choose_run h a choices out mode n cshape bshape Hwfa Hwfc Hsh Hn Hcs)
    as (sel & chs & ba & bcs & ba0 & Hrun & _ & _ & Hwfs & Hsz & Hrd & Hgb & Hbsh & Hwf0
        & Hsel & Hcsh & Hcdt & Hwfb & Hch & Hdims).
  destruct (elements_wf h a Hwfa) as [sels Hsels].
  assert (elements h sel = Some sels) as Hsels'
    by (by rewrite (elements_ext h sel a)).
  destruct (choose_gather h ba0 bcs n bshape f (dtype_of bcs) Hwf0 Hbsh Hwfb Hcsh)
    as (vals & Hcall & Hlen & Hel).
  { intros i s Hi Hs.
    destruct (unravel_in_range bshape i Hdims Hi) as [Hv Hdot].
    apply (Hf _ s Hv). rewrite <- (proj1 (Hsel _ Hv)).
    rewrite <- Hs. rewrite <- Hdot at 2. rewrite <- Hbsh.
    symmetry. apply read_flat_dot; [done|by rewrite Hbsh]. }
  assert ((h ++ [vals]) !! length h = Some vals) as Hbuf by (by apply list_lookup_middle).
  eexists _, _. split.
  { rewrite Hrun, (Hmode sel ba bcs ba0 Hgb) by (by exists sels). exact Hcall. }
  cbn [shape dtype_of data cupy.c_array]. split_and!; try done.
  - by apply prefix_app_r.
  - apply lookup_ge_None. lia.
  - eapply wf_c_array; [exact Hbuf|done|lia].
  - intros idx Hv. destruct (Hel idx Hv) as (s & v & Hs & Hc & Hval).
    exists s, v. rewrite <- (proj1 (Hsel idx Hv)). split; [done|].
    split.
    + rewrite <- Hch; [done|]. constructor; [|done].
      apply (Hf idx s Hv). by rewrite <- (proj1 (Hsel idx Hv)).
    + by rewrite (at_index_c_array _ _ _ _ vals).
Qed.

Lemma choose_clip_run h a choices out n cshape bshape :
  wf_array h a -> wf_array h choices -> shape choices = n :: cshape -> 0 < n ->
  choose_shape a choices = Some bshape ->
  exists r h',
    choose a choices out "clip" h = (Ok r, h')
    /\ shape r = bshape /\ dtype_of r = dtype_of choices
    /\ h `prefix_of` h' /\ h !! data r = None /\ wf_array h' r
    /\ forall idx, valid_index bshape idx ->
         exists s v,
           selector_at h a choices idx = Some s
           /\ choice_at h a choices
                (if s <? 0 then 0 else if s >=? n then n - 1 else s) idx = Some v
           /\ at_index h' r idx = Some v.
Proof.
  intros Hwfa Hwfc Hsh Hn Hcs.
  apply (choose_direct_run h a choices out "clip" n cshape bshape
           (fun s => if s <? 0 then 0 else if s >=? n then n - 1 else s)
           Hwfa Hwfc Hsh Hn Hcs).
  - intros idx s _ _. by apply clip_range.
  - intros sel ba bcs ba0 Hgb _. unfold choose_mode.
    change ("clip" =? "raise")%string with false.
    change ("clip" =? "wrap")%string with false.
    change ("clip" =? "clip")%string with true. cbv iota.
    unfold bind at 1. by rewrite Hgb.
Qed.

Lemma choose_raise_run h a choices out n cshape bshape sels :
  wf_array h a -> wf_array h choices -> shape choices = n :: cshape -> 0 < n ->
  choose_shape a choices = Some bshape ->
  elements h a = Some sels -> Forall (fun s => 0 <= s < n) sels ->
  exists r h',
    choose a choices out "raise" h = (Ok r, h')
    /\ shape r = bshape /\ dtype_of r = dtype_of choices
    /\ h `prefix_of` h' /\ h !! data r = None /\ wf_array h' r
    /\ forall idx, valid_index bshape idx ->
         exists s v,
           selector_at h a choices idx = Some s
           /\ choice_at h a choices s idx = Some v
           /\ at_index h' r idx = Some v.
Proof.
  intros Hwfa Hwfc Hsh Hn Hcs Hsels Hall.
  apply (choose_direct_run h a choices out "raise" n cshape bshape (fun s => s)
           Hwfa Hwfc Hsh Hn Hcs).
  - intros idx s Hv Hs. rewrite Forall_forall in Hall. apply Hall.
    by eapply (selector_at_elem_of h a choices).
  - intros sel ba bcs ba0 Hgb (sels' & Hsel' & Hsa).
    assert (sels' = sels) as -> by congruence.
    unfold choose_mode.
    change ("raise" =? "raise")%string with true. cbv iota.
    assert (forallb (fun x => x <? n) sels = true) as Hlt.
    { apply forallb_forall. intros s Hin%list_elem_of_In.
      rewrite Forall_forall in Hall. specialize (Hall s Hin). simpl. lia. }
    assert (forallb (fun x => 0 <=? x) sels = true) as Hge.
    { apply forallb_forall. intros s Hin%list_elem_of_In.
      rewrite Forall_forall in Hall. specialize (Hall s Hin). simpl. lia. }
    unfold cupy.all_lt, cupy.all_ge.
    unfold bind at 1. unfold bind at 1. unfold bind at 1. unfold get_heap at 1.
    rewrite Hsel'. cbn [device ret]. rewrite Hlt.
    unfold bind at 1. unfold bind at 1. unfold bind at 1. unfold get_heap at 1.
    rewrite Hsel'. cbn [device ret]. rewrite Hge. cbn [negb andb]. cbv iota.
    unfold bind at 1. by rewrite Hgb.
Qed.

Lemma choose_wrap_run h a choices out n cshape bshape :
  wf_array h a -> wf_array h choices -> shape choices = n :: cshape -> 0 < n ->
  choose_shape a choices = Some bshape ->
  exists r h',
    choose a choices out "wrap" h = (Ok r, h')
    /\ shape r = bshape /\ dtype_of r = dtype_of choices
    /\ h `prefix_of` h' /\ h !! data r = None /\ wf_array h' r
    /\ forall idx, valid_index bshape idx ->
         exists s v,
           selector_at h a choices idx = Some s
           /\ choice_at h a choices (s mod n) idx = Some v
           /\ at_index h' r idx = Some v.
Proof.
  intros Hwfa Hwfc Hsh Hn Hcs.
  destruct (choose_run h a choices out "wrap" n cshape bshape Hwfa Hwfc Hsh Hn Hcs)
    as (sel & chs & ba & bcs & ba0 & Hrun & _ & _ & _ & _ & _ & Hgb & Hbsh
        & Hwf0 & Hsel & Hcsh & Hcdt & Hwfb & Hch & Hdims).
  destruct (elements_wf h ba0 Hwf0) as [bvals Hbvals].
  destruct (mod_scalar_run h ba0 n bvals Hwf0 Hbvals) as (Hmodb & Hwfm & Hrm).
  rewrite Hbsh in Hmodb, Hwfm, Hrm.
  set (m := cupy.c_array (length h) bshape (dtype_of ba0)) in *.
  set (h1 := h ++ [map (fun x => cupy.remainder x n) bvals]) in *.
  assert (h `prefix_of` h1) as Hp1 by (by apply prefix_app_r).
  pose proof (wf_size h ba0 Hwf0) as Hsz0. rewrite Hbsh in Hsz0.
  destruct (choose_gather h1 m bcs n bshape (fun x => x) (dtype_of bcs) Hwfm eq_refl
              (wf_array_prefix h h1 bcs Hp1 Hwfb) Hcsh)
    as (vals & Hcall & Hlen & Hel).
  { intros i x Hi Hx. rewrite Hrm in Hx by lia.
    destruct (read_flat h ba0 i); [|done]. injection Hx as <-.
    by apply remainder_range. }
  assert ((h1 ++ [vals]) !! length h1 = Some vals) as Hbuf
    by (by apply list_lookup_middle).
  eexists _, _. split.
  { rewrite Hrun. unfold choose_mode.
    change ("wrap" =? "raise")%string with false.
    change ("wrap" =? "wrap")%string with true. cbv iota.
    unfold bind at 1. rewrite Hgb. unfold bind at 1. rewrite Hmodb.
    unfold _choose_kernel. exact Hcall. }
  cbn [shape dtype_of data cupy.c_array]. split_and!; try done.
  - etrans; [exact Hp1|]. by apply prefix_app_r.
  - apply lookup_ge_None. subst h1. rewrite length_app. simpl. lia.
  - eapply wf_c_array; [exact Hbuf|done|lia].
  - intros idx Hv. destruct (Hel idx Hv) as (x & v & Hx & Hc & Hval).
    rewrite <- (read_flat_dot h1 m) in Hx by done.
    cbn [shape cupy.c_array m] in Hx.
    pose proof (dot_valid_bounds bshape idx Hv) as Hb.
    rewrite Hrm in Hx by lia.
    replace (read_flat h ba0 (dot idx (c_strides bshape)))
      with (at_index h ba0 idx) in Hx
      by (rewrite <- Hbsh; symmetry; apply read_flat_dot; [done|by rewrite Hbsh]).
    rewrite (proj1 (Hsel idx Hv)) in Hx.
    destruct (selector_at h a choices idx) as [s|]; [|done].
    injection Hx as <-.
    assert (cupy.remainder s n = s mod n) as Hrem.
    { unfold cupy.remainder. destruct (Z.eqb_spec n 0); [lia|done]. }
    rewrite Hrem in *.
    exists s, v. split; [done|]. split.
    + rewrite <- Hch; [|constructor; [by apply Z.mod_pos_bound|done]].
      by rewrite <- (at_index_prefix h h1) by (done || apply Hwfb).
    + by rewrite (at_index_c_array _ _ _ _ vals).
Qed.
(** X5: in mode [wrap], [choose] raises no error, whatever the selector
    values: on a selector and choices that broadcast together, with [n >= 1]
    choices, it returns an array of the broadcast shape and of the dtype of
    the choices that holds, at each position, the element of the choice
    whose number is the selector element modulo [n] (a number within
    [0, n), also for a negative selector element). *)
Theorem choose_wrap a choices out n cshape bshape h :
  wf_array h a -> wf_array h choices -> shape choices = n :: cshape -> 0 < n ->
  choose_shape a choices = Some bshape ->
  exists r h',
    choose a choices out "wrap" h = (Ok r, h')
    /\ shape r = bshape /\ dtype_of r = dtype_of choices
    /\ forall idx, valid_index bshape idx ->
         exists s v,
           selector_at h a choices idx = Some s
           /\ 0 <= s mod n < n
           /\ choice_at h a choices (s mod n) idx = Some v
           /\ at_index h' r idx = Some v.
Proof.
  intros Hwfa Hwfc Hsh Hn Hcs.
  destruct (choose_wrap_run h a choices out n cshape bshape Hwfa Hwfc Hsh Hn Hcs)
    as (r & h' & Hrun & Hrsh & Hdt & _ & _ & _ & Hel).
  exists r, h'. split_and!; try done.
  intros idx Hv. destruct (Hel idx Hv) as (s & v & Hs & Hc & Hr).
  exists s, v. split_and!; try done; apply Z.mod_pos_bound; lia.
Qed.

Lemma choose_wrap_witness :
  exists r h',
    choose Ex.sel_bad Ex.choices34 None "wrap" Ex.store0 = (Ok r, h')
    /\ shape r = [4]
    /\ at_index h' r [1] = Some 31 /\ at_index h' r [2] = Some 32.
Proof.
  assert (0 < 3) as Hn by reflexivity.
  destruct (choose_wrap Ex.sel_bad Ex.choices34 None 3 [4] [4] Ex.store0
              Ex_wf_sel_bad Ex_wf_choices34 eq_refl Hn eq_refl)
    as (r & h' & Hrun & Hsh & _ & Hel).
  exists r, h'. split; [exact Hrun|]. split; [exact Hsh|]. split.
  - destruct (Hel [1]) as (s & v & Hs & _ & Hc & Hr).
    { repeat constructor; (discriminate || reflexivity). }
    vm_compute in Hs. injection Hs as <-.
    vm_compute in Hc. injection Hc as <-. exact Hr.
  - destruct (Hel [2]) as (s & v & Hs & _ & Hc & Hr).
    { repeat constructor; (discriminate || reflexivity). }
    vm_compute in Hs. injection Hs as <-.
    vm_compute in Hc. injection Hc as <-. exact Hr.
Defined.

(** X6: when every selector element is within [0, n), the three modes of
    [choose] do the same: [raise], [wrap] and [clip] each return an array of
    the broadcast shape, and the three arrays hold the same elements. *)
Theorem choose_modes_agree a choices out n cshape bshape h sels :
  wf_array h a -> wf_array h choices -> shape choices = n :: cshape -> 0 < n ->
  choose_shape a choices = Some bshape ->
  elements h a = Some sels -> Forall (fun s => 0 <= s < n) sels ->
  exists vals r1 h1 r2 h2 r3 h3,
    choose a choices out "raise" h = (Ok r1, h1)
    /\ choose a choices out "wrap" h = (Ok r2, h2)
    /\ choose a choices out "clip" h = (Ok r3, h3)
    /\ shape r1 = bshape /\ shape r2 = bshape /\ shape r3 = bshape
    /\ elements h1 r1 = Some vals
    /\ elements h2 r2 = Some vals
    /\ elements h3 r3 = Some vals.
Proof.
  intros Hwfa Hwfc Hsh Hn Hcs Hsels Hall.
  destruct (choose_raise_run h a choices out n cshape bshape sels
              Hwfa Hwfc Hsh Hn Hcs Hsels Hall)
    as (r1 & h1 & Hrun1 & Hsh1 & _ & _ & _ & Hwf1 & Hel1).
  destruct (choose_wrap_run h a choices out n cshape bshape Hwfa Hwfc Hsh Hn Hcs)
    as (r2 & h2 & Hrun2 & Hsh2 & _ & _ & _ & Hwf2 & Hel2).
  destruct (choose_clip_run h a choices out n cshape bshape Hwfa Hwfc Hsh Hn Hcs)
    as (r3 & h3 & Hrun3 & Hsh3 & _ & _ & _ & Hwf3 & Hel3).
  assert (forall idx s, valid_index bshape idx ->
            selector_at h a choices idx = Some s -> 0 <= s < n) as Hin.
  { intros idx s Hv Hs. rewrite Forall_forall in Hall. apply Hall.
    by eapply (selector_at_elem_of h a choices). }
  destruct (elements_wf h1 r1 Hwf1) as [vals Hvals].
  exists vals, r1, h1, r2, h2, r3, h3. split_and!; try done.
  - rewrite <- Hvals. symmetry. apply elements_by_index; try done; [congruence|].
    rewrite Hsh1. intros idx Hv.
    destruct (Hel1 idx Hv) as (s & v & Hs & Hc & ->).
    destruct (Hel2 idx Hv) as (s' & v' & Hs' & Hc' & ->).
    assert (s' = s) as -> by congruence.
    rewrite Z.mod_small in Hc' by (by eapply Hin). congruence.
  - rewrite <- Hvals. symmetry. apply elements_by_index; try done; [congruence|].
    rewrite Hsh1. intros idx Hv.
    destruct (Hel1 idx Hv) as (s & v & Hs & Hc & ->).
    destruct (Hel3 idx Hv) as (s' & v' & Hs' & Hc' & ->).
    assert (s' = s) as -> by congruence.
    rewrite clip_in_range in Hc' by (by eapply Hin). congruence.
Qed.

Lemma choose_modes_agree_witness :
  exists vals r1 h1 r2 h2 r3 h3,
    choose Ex.sel_good Ex.choices34 None "raise" Ex.store0 = (Ok r1, h1)
    /\ choose Ex.sel_good Ex.choices34 None "wrap" Ex.store0 = (Ok r2, h2)
    /\ choose Ex.sel_good Ex.choices34 None "clip" Ex.store0 = (Ok r3, h3)
    /\ shape r1 = [4] /\ shape r2 = [4] /\ shape r3 = [4]
    /\ elements h1 r1 = Some vals
    /\ elements h2 r2 = Some vals
    /\ elements h3 r3 = Some vals.
Proof.
  assert (0 < 3) as Hn by reflexivity.
  assert (Forall (fun s => 0 <= s < 3) [0; 2; 1; 1]) as Hall.
  { repeat constructor; (discriminate || reflexivity). }
  exact (choose_modes_agree Ex.sel_good Ex.choices34 None 3 [4] [4] Ex.store0 [0; 2; 1; 1]
           Ex_wf_sel_good Ex_wf_choices34 eq_refl Hn eq_refl eq_refl Hall).
Defined.

(** X7: [choose] with a mode other than [raise], [wrap] and [clip] never
    returns an array and never changes the store: it raises.  When the
    operands are as the three modes need them (a selector and [n >= 1]
    choices that broadcast together), the error is the type error "clipmode
    not understood". *)
Theorem choose_unknown_mode a choices out mode h :
  mode <> "raise"%string -> mode <> "wrap"%string -> mode <> "clip"%string ->
  exists e,
    choose a choices out mode h = (Raise e, h)
    /\ (wf_array h a -> wf_array h choices ->
        (exists n cshape, shape choices = n :: cshape /\ 0 < n) ->
        is_Some (choose_shape a choices) ->
        e = TypeError "clipmode not understood").
Proof.
  intros H1 H2 H3.
  apply String.eqb_neq in H1, H2, H3.
  assert (forall sel ba bcs n nc,
            choose_mode sel ba bcs n nc mode h
            = (Raise (TypeError "clipmode not understood"), h)) as Hmode.
  { intros. unfold choose_mode. by rewrite H1, H2, H3. }
  assert (exists e, choose a choices out mode h = (Raise e, h)) as [e He].
  { unfold choose. unfold bind at 1.
    destruct (py_getitem (shape choices) 0) as [n|]; cbn [or_raise ret raise];
      [|by eexists].
    destruct (if ndim a <? ndim choices - 1
              then (Nat.iter (Z.to_nat (ndim choices - 1 - ndim a))
                      (fun a => cupy.expand_dims a 0) a, choices)
              else if ndim a >? ndim choices - 1
              then (a, Nat.iter (Z.to_nat (ndim a + 1 - ndim choices))
                         (fun choices => cupy.expand_dims choices 1) choices)
              else (a, choices)) as [sel chs].
    unfold bind at 1. unfold cupy.broadcast_arrays.
    destruct (sh ← cupy.broadcast_shapes (shape sel) (shape chs);
              a' ← cupy.broadcast_to sel sh;
              b' ← cupy.broadcast_to chs sh; Some (a', b')) as [[ba bcs]|];
      cbn [or_raise ret raise]; [|by eexists].
    unfold bind at 1. unfold cupy.getitem.
    destruct (shape bcs) as [|d sh]; [by eexists|].
    destruct (strides bcs) as [|t st]; [by eexists|].
    unfold bind at 1.
    destruct (subscript d 0) as [p|]; cbn [or_raise ret raise]; [|by eexists].
    rewrite Hmode. by eexists. }
  exists e. split; [exact He|].
  intros Hwfa Hwfc (n & cshape & Hsh & Hn) [bshape Hcs].
  destruct (choose_run h a choices out mode n cshape bshape Hwfa Hwfc Hsh Hn Hcs)
    as (sel & chs & ba & bcs & ba0 & Hrun & _).
  rewrite Hrun, Hmode in He. congruence.
Qed.

Lemma choose_unknown_mode_witness :
  choose Ex.sel_good Ex.choices34 None "nearest" Ex.store0
  = (Raise (TypeError "clipmode not understood"), Ex.store0).
Proof.
  assert ("nearest" <> "raise")%string as H1 by discriminate.
  assert ("nearest" <> "wrap")%string as H2 by discriminate.
  assert ("nearest" <> "clip")%string as H3 by discriminate.
  assert (0 < 3) as Hn by reflexivity.
  destruct (choose_unknown_mode Ex.sel_good Ex.choices34 None "nearest" Ex.store0 H1 H2 H3)
    as (e & Hrun & He).
  rewrite Hrun.
  rewrite (He Ex_wf_sel_good Ex_wf_choices34
             (ex_intro _ 3 (ex_intro _ [4] (conj eq_refl Hn)))
             (ex_intro _ [4] eq_refl)).
  reflexivity.
Defined.

(** X8: [choose] with nothing to choose from never returns an array and
    never changes the store: on choices without axes it raises [IndexError]
    ("tuple index out of range", from [choices.shape[0]]), in every mode and
    before anything else is looked at; on choices with a leading dimension
    of 0 it raises too. *)
Theorem choose_no_choices a choices out mode h :
  (shape choices = [] ->
   choose a choices out mode h = (Raise (IndexError "tuple index out of range"), h))
  /\ (wf_array h a -> wf_array h choices ->
      forall cshape, shape choices = 0 :: cshape ->
      exists e, choose a choices out mode h = (Raise e, h)).
Proof.
  split.
  - intros Hsh. unfold choose. unfold bind at 1. by rewrite Hsh.
  - intros Hwfa Hwfc cshape Hsh.
    destruct (choose_operands_spec h a choices 0 cshape Hwfa Hwfc Hsh)
      as (sel & chs & cs' & Hops & _ & _ & Hshc & Hrank & _).
    assert (length cs' = length (shape sel)) as Hl
      by (rewrite Hshc in Hrank; simpl in Hrank; lia).
    unfold choose. unfold bind at 1.
    assert (py_getitem (shape choices) 0 = Some 0) as -> by (by rewrite Hsh).
    cbn [or_raise ret].
    change (if ndim a <? ndim choices - 1
            then (Nat.iter (Z.to_nat (ndim choices - 1 - ndim a))
                    (fun a => cupy.expand_dims a 0) a, choices)
            else if ndim a >? ndim choices - 1
            then (a, Nat.iter (Z.to_nat (ndim a + 1 - ndim choices))
                       (fun choices => cupy.expand_dims choices 1) choices)
            else (a, choices))
      with (choose_operands a choices).
    rewrite Hops. unfold bind at 1. unfold cupy.broadcast_arrays.
    destruct (cupy.broadcast_shapes (shape sel) (shape chs)) as [sh|] eqn:Hbs;
      cbn [mbind option_bind or_raise raise]; [|by eexists].
    rewrite Hshc in Hbs.
    destruct (broadcast_shapes_choose _ _ _ _ Hl Hbs) as (b & -> & _).
    destruct (cupy.broadcast_to sel (0 :: b)) as [ba|];
      cbn [mbind option_bind or_raise raise]; [|by eexists].
    destruct (cupy.broadcast_to chs (0 :: b)) as [bcs|] eqn:Hbc;
      cbn [mbind option_bind or_raise raise ret]; [|by eexists].
    unfold bind at 1. unfold cupy.getitem.
    assert (shape bcs = 0 :: b) as ->.
    { unfold cupy.broadcast_to in Hbc.
      destruct (cupy.broadcast_strides _ _ _); [|done].
      simpl in Hbc. by injection Hbc as <-. }
    destruct (strides bcs) as [|t st]; [by eexists|].
    unfold bind at 1. change (subscript 0 0) with (@None nat).
    cbn [or_raise raise]. by eexists.
Qed.

Lemma choose_no_choices_witness :
  choose Ex.sel_good (cupy.c_array 4 [] float32) None "raise" Ex.store0
  = (Raise (IndexError "tuple index out of range"), Ex.store0)
  /\ exists e,
       choose (cupy.c_array 0 [1] int32) (cupy.c_array 1 [0; 1] float32) None "clip"
         [[0]; []]
       = (Raise e, [[0]; []]).
Proof.
  split.
  - exact (proj1 (choose_no_choices Ex.sel_good (cupy.c_array 4 [] float32) None "raise"
                    Ex.store0) eq_refl).
  - apply (proj2 (choose_no_choices (cupy.c_array 0 [1] int32)
                    (cupy.c_array 1 [0; 1] float32) None "clip" [[0]; []])) with [1].
    + apply (wf_c_array [[0]; []] 0 [1] int32 [0]);
        [reflexivity|repeat constructor; discriminate|reflexivity].
    + apply (wf_c_array [[0]; []] 1 [0; 1] float32 []);
        [reflexivity|repeat constructor; discriminate|reflexivity].
    + reflexivity.
Defined.

(** ** [take]: what the gather selects *)

(** The gather into a newly allocated output, when every worker reads inside
    the indices and the source. *)
Lemma take_gather_defined h a l r idx :
  wf_array h a -> wf_array h idx ->
  Forall (fun d => 0 <= d) l -> Forall (fun d => 0 <= d) r ->
  let oshape := l ++ shape idx ++ r in
  (forall i, 0 <= i < internal.prod oshape ->
     is_Some (gather_element h a idx (internal.prod r) i)) ->
  exists vals h',
    take_gather a l r idx None h
    = (Ok (cupy.c_array (length h) oshape (dtype_of a)), h')
    /\ h `prefix_of` h'
    /\ h' !! length h = Some vals
    /\ length vals = Z.to_nat (internal.prod oshape)
    /\ wf_array h' (cupy.c_array (length h) oshape (dtype_of a))
    /\ forall i, 0 <= i < internal.prod oshape ->
         vals !! Z.to_nat i = gather_element h a idx (internal.prod r) i.
Proof.
  intros Hwfa Hwfi Hl Hr oshape Hdef.
  destruct (take_gather_run h a l r idx Hwfa Hwfi Hl Hr) as (h' & Hp & Hrun).
  fold oshape in Hrun.
  destruct (mapM (gather_element h a idx (internal.prod r))
              (indices_upto (internal.prod oshape))) as [vals|] eqn:Hvals.
  2:{ apply mapM_None_1 in Hvals. apply Exists_exists in Hvals as (i & Hi & Hnone).
      apply elem_of_seqZ in Hi. destruct (Hdef i) as [v Hv]; [lia|]. congruence. }
  destruct Hrun as [Hrun Hbuf].
  assert (length vals = Z.to_nat (internal.prod oshape)) as Hlen.
  { apply length_mapM in Hvals. unfold indices_upto in Hvals.
    rewrite length_seqZ in Hvals. lia. }
  assert (Forall (fun d => 0 <= d) oshape) as Hdims.
  { unfold oshape. rewrite !Forall_app. repeat split; [done| |done].
    apply (wf_dims h idx Hwfi). }
  exists vals, h'. split_and!; try done.
  - by eapply wf_c_array.
  - intros i Hi. by apply (mapM_lookup_seqZ _ _ _ _ Hvals).
Qed.

(** The linear index of a multi-index in three parts. *)
Lemma dot_c_strides_app3 l m r li mi ri :
  length li = length l -> length mi = length m ->
  dot (li ++ mi ++ ri) (c_strides (l ++ m ++ r))
  = (dot li (c_strides l) * internal.prod m + dot mi (c_strides m)) * internal.prod r
    + dot ri (c_strides r).
Proof.
  intros Hl Hm.
  rewrite !c_strides_app.
  rewrite dot_app by (by rewrite length_map, length_c_strides).
  rewrite dot_app by (by rewrite length_map, length_c_strides).
  rewrite !dot_scale, prod_app. lia.
Qed.

(** The three parts of an output linear index, as the kernel of [take]
    computes them. *)
Lemma gather_parts L M R Lf Mf Rf :
  0 <= Lf < L -> 0 <= Mf < M -> 0 <= Rf < R ->
  let i := (Lf * M + Mf) * R + Rf in
  left_block R M i = Lf /\ index_slot R M i = Mf /\ right_block R i = Rf
  /\ 0 <= i < L * M * R.
Proof.
  intros HL HM HR i. unfold left_block, index_slot, right_block.
  assert (i / R = Lf * M + Mf) as Hq.
  { symmetry. apply (Z.div_unique i R _ Rf); [lia|]. unfold i. lia. }
  split_and!.
  - symmetry. apply (Z.div_unique i (R * M) _ (Mf * R + Rf)); [nia|]. unfold i. lia.
  - rewrite Hq. symmetry. apply (Z.mod_unique _ M Lf Mf); [lia|]. lia.
  - symmetry. apply (Z.mod_unique i R (Lf * M + Mf) Rf); [lia|]. unfold i. lia.
  - assert (0 <= Lf * M) by nia. assert (0 <= (Lf * M + Mf) * R) by nia.
    unfold i. lia.
  - assert (Lf * M + Mf <= L * M - 1) by nia.
    assert ((Lf * M + Mf) * R <= (L * M - 1) * R) by nia.
    unfold i. lia.
Qed.

Lemma slice_to_app {A} (l k : list A) : slice_to (l ++ k) (Z.of_nat (length l)) = l.
Proof.
  unfold slice_to, slice_bound.
  replace (Z.of_nat (length l) <? 0) with false by (symmetry; apply Z.ltb_ge; lia).
  rewrite length_app, Z.min_l by lia. rewrite Nat2Z.id. apply take_app_length.
Qed.

Lemma slice_from_app {A} (l k : list A) x :
  slice_from (l ++ [x] ++ k) (Z.of_nat (length l) + 1) = k.
Proof.
  unfold slice_from, slice_bound.
  replace (Z.of_nat (length l) + 1 <? 0) with false by (symmetry; apply Z.ltb_ge; lia).
  rewrite !length_app. simpl length. rewrite Z.min_l by lia.
  replace (Z.to_nat (Z.of_nat (length l) + 1)) with (length (l ++ [x]))
    by (rewrite length_app; simpl; lia).
  rewrite (app_assoc l [x] k). apply drop_app_length.
Qed.

Lemma valid_index_app l m li mi :
  valid_index l li -> valid_index m mi -> valid_index (l ++ m) (li ++ mi).
Proof. apply Forall2_app. Qed.

Lemma valid_index_nonneg sh idx : valid_index sh idx -> 0 < internal.prod sh \/ sh = [].
Proof.
  intros H. destruct sh as [|d sh]; [by right|]. left.
  apply prod_pos. clear -H. induction H; constructor; [lia|done].
Qed.

(** [take] along the axis that follows the leading axes [l]. *)
Lemma take_axis_run a idx l A r out h :
  shape a = l ++ [A] ++ r ->
  take a (IArray idx) (Some (Z.of_nat (length l))) out h = take_gather a l r idx out h.
Proof.
  intros Hsh. unfold take. unfold bind at 1. unfold ndim. rewrite Hsh.
  replace (Z.of_nat (length l) >=? Z.of_nat (length (l ++ [A] ++ r))) with false.
  2:{ symmetry. rewrite Z.geb_leb. apply Z.leb_gt. rewrite !length_app. simpl. lia. }
  cbn [ret]. by rewrite slice_to_app, slice_from_app.
Qed.

(** What the worker of the output position [li ++ mi ++ ri] gathers, when
    the indices are within the axis and the kernel's offset is the one of
    the source position: the number of indices is the length of the axis, or
    there is one block on the left of the axis. *)
Lemma gather_element_at h a idx l A r inds li mi ri :
  wf_array h a -> wf_array h idx -> shape a = l ++ [A] ++ r ->
  elements h idx = Some inds -> Forall (fun k => 0 <= k < A) inds ->
  size idx = A \/ internal.prod l <= 1 ->
  valid_index l li -> valid_index (shape idx) mi -> valid_index r ri ->
  exists k v,
    at_index h idx mi = Some k
    /\ 0 <= k < A
    /\ at_index h a (li ++ [k] ++ ri) = Some v
    /\ gather_element h a idx (internal.prod r)
         (dot (li ++ mi ++ ri) (c_strides (l ++ shape idx ++ r))) = Some v.
Proof.
  intros Hwfa Hwfi Hsh Hinds Hall Hcond Hvl Hvm Hvr.
  pose proof (dot_valid_bounds _ _ Hvl) as HL.
  pose proof (dot_valid_bounds _ _ Hvm) as HM.
  pose proof (dot_valid_bounds _ _ Hvr) as HR.
  pose proof (wf_size h idx Hwfi) as Hsz.
  rewrite dot_c_strides_app3
    by (symmetry; eapply Forall2_length; eassumption).
  set (Lf := dot li (c_strides l)) in *.
  set (Mf := dot mi (c_strides (shape idx))) in *.
  set (Rf := dot ri (c_strides r)) in *.
  destruct (gather_parts (internal.prod l) (internal.prod (shape idx)) (internal.prod r)
              Lf Mf Rf HL HM HR) as (Hlb & Hslot & Hrb & _).
  unfold gather_element, gather_offset. rewrite Hsz, Hslot, Hlb, Hrb.
  assert (read_flat h idx Mf = at_index h idx mi) as Hrd
    by (by apply read_flat_dot).
  destruct (wf_bounds h idx Hwfi mi Hvm) as [k Hk].
  assert (0 <= k < A) as HkA.
  { rewrite Forall_forall in Hall. apply Hall.
    apply (list_elem_of_lookup_2 inds (Z.to_nat Mf)).
    rewrite (elements_lookup h idx inds Mf Hinds) by lia. congruence. }
  assert (valid_index (shape a) (li ++ [k] ++ ri)) as Hva.
  { rewrite Hsh. apply valid_index_app; [done|].
    apply valid_index_app; [|done]. constructor; [exact HkA|constructor]. }
  destruct (wf_bounds h a Hwfa _ Hva) as [v Hv].
  exists k, v. split_and!; try done; try lia.
  rewrite Hrd, Hk. cbn [mbind option_bind].
  rewrite <- Hv, <- (read_flat_dot h a) by done.
  rewrite Hsh, (dot_c_strides_app3 l [A] r li [k] ri)
    by (done || (symmetry; eapply Forall2_length; eassumption)).
  fold Lf Rf. f_equal. cbn [dot c_strides].
  rewrite prod_cons. change (internal.prod []) with 1.
  destruct Hcond as [HA|Hone].
  - rewrite <- HA, Hsz. lia.
  - assert (Lf = 0) as -> by lia. lia.
Qed.

Lemma valid_index_app_inv l m ix :
  valid_index (l ++ m) ix ->
  exists li mi, ix = li ++ mi /\ valid_index l li /\ valid_index m mi.
Proof.
  intros H. apply Forall2_app_inv_l in H as (li & mi & Hl & Hm & ->).
  by exists li, mi.
Qed.

(** X9: [take] along an axis, in the terms of multi-indices.  For a source
    of shape [l ++ [A] ++ r], an index array whose elements are all within
    [0, A), and either as many indices as the axis is long or a single block
    on the left of the axis (for instance axis 0), [take] returns an array of
    shape [l ++ indices.shape ++ r] and of the dtype of the source with
    [result[li ++ mi ++ ri] = source[li ++ [indices[mi]] ++ ri]] at every
    position. *)
Theorem take_along_axis a idx l A r inds h :
  wf_array h a -> wf_array h idx -> shape a = l ++ [A] ++ r ->
  elements h idx = Some inds -> Forall (fun k => 0 <= k < A) inds ->
  size idx = A \/ internal.prod l <= 1 ->
  exists res h',
    take a (IArray idx) (Some (Z.of_nat (length l))) None h = (Ok res, h')
    /\ shape res = l ++ shape idx ++ r /\ dtype_of res = dtype_of a
    /\ forall li mi ri,
         valid_index l li -> valid_index (shape idx) mi -> valid_index r ri ->
         exists k v,
           at_index h idx mi = Some k
           /\ at_index h a (li ++ [k] ++ ri) = Some v
           /\ at_index h' res (li ++ mi ++ ri) = Some v.
Proof.
  intros Hwfa Hwfi Hsh Hinds Hall Hcond.
  pose proof (wf_dims h a Hwfa) as Hdims. rewrite Hsh in Hdims.
  apply Forall_app in Hdims as [Hl Hdims]. apply Forall_app in Hdims as [_ Hr].
  pose proof (wf_dims h idx Hwfi) as Hm.
  destruct (take_gather_defined h a l r idx Hwfa Hwfi Hl Hr)
    as (vals & h' & Hrun & Hp & Hbuf & Hlen & Hwf & Hvals).
  { intros i Hi.
    destruct (unravel_in_range (l ++ shape idx ++ r) i) as [Hv Hdot]; [|done|].
    { rewrite !Forall_app. by split_and!. }
    apply valid_index_app_inv in Hv as (li & mr & Hix & Hvl & Hv).
    apply valid_index_app_inv in Hv as (mi & ri & -> & Hvm & Hvr).
    destruct (gather_element_at h a idx l A r inds li mi ri) as (k & v & _ & _ & _ & Hg);
      try done.
    rewrite <- Hix, Hdot in Hg. by exists v. }
  eexists _, h'. split; [by rewrite (take_axis_run a idx l A r)|].
  cbn [shape dtype_of cupy.c_array]. split; [done|]. split; [done|].
  intros li mi ri Hvl Hvm Hvr.
  destruct (gather_element_at h a idx l A r inds li mi ri) as (k & v & Hk & _ & Hv & Hg);
    try done.
  exists k, v. split; [done|]. split; [done|].
  assert (valid_index (l ++ shape idx ++ r) (li ++ mi ++ ri)) as Hvo
    by (by repeat apply valid_index_app).
  rewrite (at_index_c_array _ _ _ _ vals) by done.
  rewrite Hvals; [done|]. by apply dot_valid_bounds.
Qed.

Lemma Ex_wf_idx02 : wf_array Ex.store0 Ex.idx02.
Proof.
  apply (wf_c_array Ex.store0 5 [2; 2] int32 [0; 2; 1; 1]).
  - reflexivity.
  - repeat constructor; discriminate.
  - reflexivity.
Defined.

Lemma take_along_axis_witness :
  exists res h',
    take Ex.choices34 (IArray Ex.idx02) (Some 0) None Ex.store0 = (Ok res, h')
    /\ shape res = [2; 2; 4]
    /\ at_index h' res [0; 1; 2] = Some 32.
Proof.
  assert (Forall (fun k => 0 <= k < 3) [0; 2; 1; 1]) as Hall.
  { repeat constructor; (discriminate || reflexivity). }
  assert (internal.prod [] <= 1) as Hone by discriminate.
  destruct (take_along_axis Ex.choices34 Ex.idx02 [] 3 [4] [0; 2; 1; 1] Ex.store0
              Ex_wf_choices34 Ex_wf_idx02 eq_refl eq_refl Hall (or_intror Hone))
    as (res & h' & Hrun & Hsh & _ & Hel).
  exists res, h'. split; [exact Hrun|]. split; [exact Hsh|].
  destruct (Hel [] [0; 1] [2]) as (k & v & Hk & Hv & Hr).
  - constructor.
  - repeat constructor; (discriminate || reflexivity).
  - repeat constructor; (discriminate || reflexivity).
  - vm_compute in Hk. injection Hk as <-.
    vm_compute in Hv. injection Hv as <-. exact Hr.
Defined.

(** The gather on a flattened source: the output element [i] is the source
    element at the [i]-th index. *)
Lemma take_flat_gather h a idx inds :
  wf_array h a -> wf_array h idx ->
  elements h idx = Some inds -> Forall (fun k => 0 <= k < size a) inds ->
  exists vals h',
    take_gather a [] [] idx None h
    = (Ok (cupy.c_array (length h) (shape idx) (dtype_of a)), h')
    /\ h `prefix_of` h'
    /\ h' !! length h = Some vals
    /\ mapM (read_flat h a) inds = Some vals.
Proof.
  intros Hwfa Hwfi Hinds Hall.
  pose proof (wf_size h idx Hwfi) as Hsz.
  pose proof (length_elements h idx inds Hinds) as Hlen.
  assert (forall i, 0 <= i < internal.prod (shape idx) ->
            exists k, inds !! Z.to_nat i = Some k /\ 0 <= k < size a
              /\ gather_element h a idx (internal.prod []) i = read_flat h a k) as Hg.
  { intros i Hi.
    destruct (lookup_lt_is_Some_2 inds (Z.to_nat i)) as [k Hk]; [lia|].
    exists k. split; [done|].
    assert (0 <= k < size a) as HkA.
    { rewrite Forall_forall in Hall. apply Hall. by eapply list_elem_of_lookup_2. }
    split; [done|].
    unfold gather_element, gather_offset, index_slot, left_block, right_block.
    change (internal.prod []) with 1.
    rewrite Z.div_1_r, Z.mod_1_r, Z.mul_1_l, Hsz.
    rewrite (Z.mod_small i), (Z.div_small i) by lia.
    rewrite <- (elements_lookup h idx inds i Hinds) by lia.
    rewrite Hk. cbn [mbind option_bind]. f_equal. lia. }
  destruct (take_gather_defined h a [] [] idx Hwfa Hwfi) as
    (vals & h' & Hrun & Hp & Hbuf & Hvlen & _ & Hvals); [constructor|constructor| |].
  { cbn [app]. rewrite app_nil_r. intros i Hi.
    destruct (Hg i Hi) as (k & _ & HkA & ->). by apply read_flat_wf. }
  cbn [app] in *. rewrite app_nil_r in *.
  exists vals, h'. split_and!; try done.
  apply mapM_Some_2. apply Forall2_same_length_lookup_2; [lia|].
  intros j k v Hk Hv.
  assert (0 <= Z.of_nat j < internal.prod (shape idx)) as Hj.
  { apply lookup_lt_Some in Hk. lia. }
  destruct (Hg _ Hj) as (k' & Hk' & _ & Hge).
  rewrite Nat2Z.id in Hk'. assert (k' = k) as -> by congruence.
  rewrite <- Hge, <- Hvals by done. by rewrite Nat2Z.id.
Qed.

(** X10: [take] on the flattened source (no axis), with an index array or a
    list of indices that are all within [0, a.size): the call returns an
    array of the shape of the indices and of the dtype of the source, whose
    elements are, in order, the elements of the flattened source at the
    indices. *)
Theorem take_flattened a indices ishape inds h :
  wf_array h a ->
  (forall idx, indices = IArray idx -> wf_array h idx) ->
  indices_shape indices = Some ishape ->
  index_values h indices = Some inds ->
  Forall (fun k => 0 <= k < size a) inds ->
  exists res h' vals,
    take a indices None None h = (Ok res, h')
    /\ shape res = ishape /\ dtype_of res = dtype_of a
    /\ mapM (read_flat h a) inds = Some vals
    /\ elements h' res = Some vals.
Proof.
  intros Hwfa Hwfi Hish Hinds Hall.
  destruct (take_prologue h a None Hwfa I)
    as (a' & h1 & Hpro & Hp & Hdt & Hwf' & Hsz & Hrd).
  rewrite <- Hsz in Hall.
  assert (forall hA idx,
            h1 `prefix_of` hA -> wf_array hA idx -> elements hA idx = Some inds ->
            shape idx = ishape ->
            exists vals h',
              take_gather a' [] [] idx None hA
              = (Ok (cupy.c_array (length hA) ishape (dtype_of a)), h')
              /\ mapM (read_flat h a) inds = Some vals
              /\ elements h' (cupy.c_array (length hA) ishape (dtype_of a)) = Some vals)
    as Hcommon.
  { intros hA idx HpA HwfiA Hel Hshi.
    destruct (take_flat_gather hA a' idx inds (wf_array_prefix h1 hA a' HpA Hwf') HwfiA
                Hel Hall) as (vals & h' & Hrun & Hp' & Hbuf & Hvals).
    rewrite Hshi, Hdt in Hrun.
    exists vals, h'. split; [done|]. split.
    - rewrite <- Hvals. apply mapM_ext. intros i.
      rewrite (read_flat_prefix h1 hA) by (done || apply Hwf'). by rewrite Hrd.
    - apply elements_c_array; [done|rewrite <- Hshi; apply (wf_dims hA idx HwfiA)|].
      apply length_mapM in Hvals. rewrite <- Hvals.
      rewrite (length_elements hA idx inds Hel), <- Hshi.
      by rewrite (wf_size hA idx HwfiA). }
  destruct indices as [k|idx|l]; [done| |].
  - simpl in Hish, Hinds. injection Hish as Hish.
    destruct (Hcommon h1 idx) as (vals & h' & Hrun & Hvals & Hel); try done.
    { apply (wf_array_prefix h h1); [done|by apply Hwfi]. }
    { rewrite <- Hinds. apply elements_prefix; [done|]. apply (Hwfi idx eq_refl). }
    eexists _, h', vals. split.
    { unfold take. unfold bind at 1. rewrite Hpro. exact Hrun. }
    by split_and!.
  - simpl in Hish, Hinds. injection Hish as Hish. injection Hinds as ->.
    set (idx := cupy.c_array (length h1) [Z.of_nat (length inds)] int64).
    assert ((h1 ++ [inds]) !! length h1 = Some inds) as Hbuf
      by (by apply list_lookup_middle).
    assert (internal.prod [Z.of_nat (length inds)] = Z.of_nat (length inds)) as Hprod.
    { rewrite prod_cons. change (internal.prod []) with 1. lia. }
    assert (Forall (fun d => 0 <= d) [Z.of_nat (length inds)]) as Hd.
    { constructor; [lia|constructor]. }
    destruct (Hcommon (h1 ++ [inds]) idx) as (vals & h' & Hrun & Hvals & Hel); try done.
    { by apply prefix_app_r. }
    { eapply wf_c_array; [exact Hbuf|done|]. rewrite Hprod. lia. }
    { apply elements_c_array; [done|done|]. rewrite Hprod. lia. }
    eexists _, h', vals. split.
    { unfold take. unfold bind at 1. rewrite Hpro.
      unfold bind at 1. unfold cupy.array, cupy.fresh, bind at 1, alloc. cbn [ret].
      exact Hrun. }
    by split_and!.
Qed.

Lemma take_flattened_witness :
  exists res h',
    take Ex.a23 (IList [5; 0; 3]) None None Ex.store0 = (Ok res, h')
    /\ shape res = [3]
    /\ elements h' res = Some [60; 10; 40].
Proof.
  assert (Forall (fun k => 0 <= k < size Ex.a23) [5; 0; 3]) as Hall.
  { repeat constructor; (discriminate || reflexivity). }
  destruct (take_flattened Ex.a23 (IList [5; 0; 3]) [3] [5; 0; 3] Ex.store0 Ex_wf_a23
              ltac:(discriminate) eq_refl eq_refl Hall)
    as (res & h' & vals & Hrun & Hsh & _ & Hvals & Hel).
  vm_compute in Hvals. injection Hvals as <-.
  exists res, h'. by split_and!.
Defined.

(** ** [take]: a scalar index *)

(** The strided offset of a multi-index, with one of its axes taken out. *)
Lemma dot_delete (idx st : list Z) p :
  length idx = length st -> (p < length st)%nat ->
  dot idx st = idx !!! p * st !!! p + dot (delete p idx) (delete p st).
Proof.
  revert idx st. induction p as [|p IH]; intros [|i idx] [|s st] Hlen Hp;
    simpl in *; try lia.
  rewrite (IH idx st) by lia. lia.
Qed.

(** [cupy.rollaxis(a, axis)[k]]: the view of the slice [k] along the axis
    that follows the leading axes [l]. *)
Lemma rollaxis_getitem a l A r k h :
  length (strides a) = length (shape a) -> shape a = l ++ [A] ++ r -> 0 <= k < A ->
  exists a' v,
    cupy.rollaxis a (Some (Z.of_nat (length l))) h = (Ok a', h)
    /\ cupy.getitem a' k h = (Ok v, h)
    /\ data v = data a /\ shape v = l ++ r /\ dtype_of v = dtype_of a
    /\ size v = internal.prod (l ++ r)
    /\ length (strides v) = length (shape v)
    /\ c_contiguous v = -1
    /\ forall li ri, length li = length l -> length ri = length r ->
         address v (li ++ ri) = address a (li ++ [k] ++ ri).
Proof.
  intros Hst Hsh Hk.
  set (p := length l). set (n := length (shape a)).
  assert (p < n)%nat as Hp by (unfold n; rewrite Hsh, !length_app; simpl; lia).
  assert (shape a !! p = Some A) as HA by (rewrite Hsh; apply list_lookup_middle; done).
  assert (shape a !!! p = A) as HA' by (by apply list_lookup_total_correct).
  assert (delete p (shape a) = l ++ r) as Hdel by (rewrite Hsh; apply delete_middle).
  set (ps := p :: delete p (seq 0 n)).
  assert (seq 0 n !! p = Some p) as Hseq by (by apply lookup_seq_lt).
  assert (cupy.rollaxis a (Some (Z.of_nat p)) h
          = (Ok {| data := data a; data_offset := data_offset a;
                   shape := A :: (l ++ r);
                   strides := strides a !!! p :: delete p (strides a);
                   dtype_of := dtype_of a; size := size a;
                   c_contiguous := -1; f_contiguous := -1 |}, h)) as Hroll.
  { unfold cupy.rollaxis. unfold bind at 1. unfold ndim. fold n.
    rewrite subscript_of_nat by done. cbn [or_raise ret].
    change (Z.of_nat p :: map Z.of_nat (delete p (seq 0 n))) with (Z.of_nat <$> ps).
    rewrite (transpose_perm a ps h Hst).
    - do 2 f_equal. unfold ps. rewrite !fmap_cons.
      rewrite !list_fmap_delete. unfold n at 1.
      rewrite lookup_total_seq. unfold n. rewrite <- Hst, lookup_total_seq.
      by rewrite HA', Hdel.
    - unfold ps. simpl. rewrite length_delete by (by exists p).
      rewrite length_seq. fold n. lia.
    - unfold ps. apply NoDup_cons. split.
      + apply not_elem_of_delete; [apply NoDup_seq|done].
      + eapply sublist_NoDup; [apply NoDup_seq|apply sublist_delete].
    - unfold ps. constructor; [done|].
      apply Forall_delete, Forall_seq. intros i Hi. fold n. lia. }
  assert (strides a !! p = Some (strides a !!! p)) as Hsp
    by (apply list_lookup_lookup_total_lt; lia).
  eexists _, _. split; [exact Hroll|]. split.
  { unfold cupy.getitem.
    cbn [shape strides]. unfold bind. rewrite subscript_nonneg by done.
    cbn [or_raise ret]. reflexivity. }
  cbn [data shape strides dtype_of size c_contiguous data_offset].
  split_and!; try done.
  - rewrite length_delete by (by eexists). rewrite Hst, <- Hdel.
    rewrite length_delete by (by eexists). done.
  - intros li ri Hli Hri. unfold address. cbn [data_offset strides].
    assert (length (li ++ [k] ++ ri) = length (strides a)) as Hlen.
    { rewrite Hst, Hsh, !length_app. simpl. lia. }
    rewrite (dot_delete (li ++ [k] ++ ri) (strides a) p Hlen) by lia.
    assert (p = length li) as -> by done.
    change ([k] ++ ri) with (k :: ri).
    rewrite list_lookup_total_middle by done. rewrite delete_middle.
    rewrite Z2Nat.id by lia. lia.
Qed.

(** X11: [take] with a scalar index and no output argument returns a copy of
    the slice: for a source of shape [l ++ [A] ++ r], the axis that follows
    [l] and an index [k] within [0, A), the call returns a newly allocated
    array of shape [l ++ r] and of the dtype of the source, with
    [result[li ++ ri] = source[li ++ [k] ++ ri]] at every position; the
    buffers that existed before the call are unchanged. *)
Theorem take_scalar a k l A r h :
  wf_array h a -> shape a = l ++ [A] ++ r -> 0 <= k < A ->
  exists res h',
    take a (IScalar k) (Some (Z.of_nat (length l))) None h = (Ok res, h')
    /\ shape res = l ++ r /\ dtype_of res = dtype_of a
    /\ h `prefix_of` h' /\ h !! data res = None
    /\ forall li ri, valid_index l li -> valid_index r ri ->
         exists v,
           at_index h a (li ++ [k] ++ ri) = Some v
           /\ at_index h' res (li ++ ri) = Some v.
Proof.
  intros Hwfa Hsh Hk.
  destruct (rollaxis_getitem a l A r k h (wf_strides h a Hwfa) Hsh Hk)
    as (a' & v & Hroll & Hget & Hdata & Hvsh & Hvdt & Hvsz & Hvst & Hvc & Haddr).
  pose proof (wf_dims h a Hwfa) as Hdims. rewrite Hsh in Hdims.
  apply Forall_app in Hdims as [Hl Hdims]. apply Forall_app in Hdims as [_ Hr].
  assert (forall li ri, valid_index l li -> valid_index r ri ->
            at_index h v (li ++ ri) = at_index h a (li ++ [k] ++ ri)
            /\ is_Some (at_index h a (li ++ [k] ++ ri))) as Hat.
  { intros li ri Hvl Hvr. split.
    - unfold at_index. rewrite Hdata, Haddr; [done| |];
        symmetry; eapply Forall2_length; eassumption.
    - apply (wf_bounds h a Hwfa). rewrite Hsh.
      apply valid_index_app; [done|]. apply valid_index_app; [|done].
      constructor; [exact Hk|constructor]. }
  assert (wf_array h v) as Hwfv.
  { split.
    - rewrite Hdata. apply (wf_alloc h a Hwfa).
    - rewrite Hvsh. by apply Forall_app.
    - done.
    - by rewrite Hvsh.
    - rewrite Hvc. discriminate.
    - intros idx Hv. rewrite Hvsh in Hv.
      apply valid_index_app_inv in Hv as (li & ri & -> & Hvl & Hvr).
      destruct (Hat li ri Hvl Hvr) as [-> Hs]. exact Hs. }
  destruct (elements_wf h v Hwfv) as [vals Hvals].
  pose proof (length_elements h v vals Hvals) as Hlen.
  assert ((h ++ [vals]) !! length h = Some vals) as Hbuf by (by apply list_lookup_middle).
  exists (cupy.c_array (length h) (l ++ r) (dtype_of a)), (h ++ [vals]).
  split.
  { unfold take. unfold bind at 1. unfold ndim. rewrite Hsh.
    replace (Z.of_nat (length l) >=? Z.of_nat (length (l ++ [A] ++ r))) with false.
    2:{ symmetry. rewrite Z.geb_leb. apply Z.leb_gt. rewrite !length_app. simpl. lia. }
    cbn [ret]. unfold bind at 1. rewrite Hroll.
    unfold bind at 1. rewrite Hget.
    unfold cupy.copy. unfold bind at 1. unfold get_heap at 1.
    unfold bind at 1. rewrite Hvals. cbn [device ret].
    unfold cupy.fresh, bind, alloc. cbn [ret]. by rewrite Hvsh, Hvdt. }
  cbn [shape dtype_of data cupy.c_array]. split_and!; try done.
  - by apply prefix_app_r.
  - by apply lookup_ge_None.
  - intros li ri Hvl Hvr. destruct (Hat li ri Hvl Hvr) as [Heq [x Hx]].
    exists x. split; [done|].
    assert (valid_index (l ++ r) (li ++ ri)) as Hv by (by apply valid_index_app).
    rewrite (at_index_c_array _ _ _ _ vals) by done.
    pose proof (dot_valid_bounds _ _ Hv) as Hb.
    rewrite (elements_lookup h v vals _ Hvals) by (rewrite Hvsz; done).
    rewrite <- Hvsh, (read_flat_dot h v) by (done || by rewrite Hvsh).
    by rewrite Heq.
Qed.

Lemma take_scalar_witness :
  exists res h',
    take Ex.a23 (IScalar 1) (Some 1) None Ex.store0 = (Ok res, h')
    /\ shape res = [2]
    /\ at_index h' res [0] = Some 20 /\ at_index h' res [1] = Some 50.
Proof.
  assert (0 <= 1 < 3) as Hk by (split; [discriminate|reflexivity]).
  destruct (take_scalar Ex.a23 1 [2] 3 [] Ex.store0 Ex_wf_a23 eq_refl Hk)
    as (res & h' & Hrun & Hsh & _ & _ & _ & Hel).
  exists res, h'. split; [exact Hrun|]. split; [exact Hsh|]. split.
  - destruct (Hel [0] []) as (v & Hv & Hr).
    + repeat constructor; (discriminate || reflexivity).
    + constructor.
    + vm_compute in Hv. injection Hv as <-. exact Hr.
  - destruct (Hel [1] []) as (v & Hv & Hr).
    + repeat constructor; (discriminate || reflexivity).
    + constructor.
    + vm_compute in Hv. injection Hv as <-. exact Hr.
Defined.

(** ** [take]: the buffers it writes to *)

Lemma keeps_first_only_allocates k {A} (m : M A) : only_allocates m -> keeps_first k m.
Proof.
  intros Hm h r h' Hk Hrun. destruct (Hm h r h' Hrun) as [x ->].
  rewrite length_app. split; [lia|]. by rewrite take_app_le.
Qed.

(** Sequencing, with what is known of the result of the first step. *)
Lemma keeps_first_bind k {A B} (m : M A) (f : A -> M B) (P : A -> Prop) :
  keeps_first k m ->
  (forall h a h', (k <= length h)%nat -> m h = (Ok a, h') -> P a) ->
  (forall a, P a -> keeps_first k (f a)) ->
  keeps_first k (bind m f).
Proof.
  intros Hm HP Hf h r h' Hk. unfold bind.
  destruct (m h) as [[a| |] h1] eqn:E; intros H.
  - destruct (Hm h _ h1 Hk E) as [Hl1 Ht1].
    destruct (Hf a (HP h a h1 Hk E) h1 r h') as [Hl2 Ht2]; [lia|done|].
    split; [lia|congruence].
  - injection H as <- <-. exact (Hm h _ h1 Hk E).
  - injection H as <- <-. exact (Hm h _ h1 Hk E).
Qed.

Lemma store_frame (h : heap) b addr v :
  length (store h b addr v) = length h
  /\ forall b', b' <> b -> store h b addr v !! b' = h !! b'.
Proof.
  unfold store. destruct (0 <=? addr); [|done].
  destruct (h !! b) as [buf|]; [|done].
  split; [apply length_insert|]. intros b' Hb'. by apply list_lookup_insert_ne.
Qed.

(** Writing the elements of an array changes its buffer only. *)
Lemma write_elements_frame (h : heap) a vals :
  length (write_elements h a vals) = length h
  /\ forall b', b' <> data a -> write_elements h a vals !! b' = h !! b'.
Proof.
  unfold write_elements.
  generalize (zip (indices_upto (size a)) vals). intros ivs. revert h.
  induction ivs as [|[i v] ivs IH]; intros h; [done|]. simpl.
  destruct (IH (store h (data a) (address a (unravel (shape a) i).1) v)) as [Hl Hf].
  destruct (store_frame h (data a) (address a (unravel (shape a) i).1) v) as [Hl' Hf'].
  split; [congruence|]. intros b' Hb'. rewrite Hf by done. by apply Hf'.
Qed.

Lemma keeps_first_write k out vals :
  (k <= data out)%nat ->
  keeps_first k (modify_heap (fun h => write_elements h out vals)).
Proof.
  intros Hout h r h' Hk [= <- <-].
  destruct (write_elements_frame h out vals) as [Hl Hf].
  split; [lia|]. apply list_eq. intros i.
  destruct (decide (i < k)%nat) as [Hi|Hi].
  - rewrite !lookup_take_lt by done. apply Hf. lia.
  - rewrite !lookup_take_ge by lia. done.
Qed.

Lemma keeps_first_call_out k out body :
  (k <= data out)%nat -> keeps_first k (elementwise.call_out out body).
Proof.
  intros Hout. unfold elementwise.call_out.
  apply (keeps_first_bind k _ _ (fun _ => True)); [|done|].
  { apply keeps_first_only_allocates. unfold elementwise.run. alloc_solve. }
  intros vals _.
  apply (keeps_first_bind k _ _ (fun _ => True)); [|done|].
  { by apply keeps_first_write. }
  intros _ _. apply keeps_first_only_allocates. alloc_solve.
Qed.

Lemma keeps_first_take_kernel k a indices cdim rdim out :
  (k <= data out)%nat -> keeps_first k (_take_kernel a indices cdim rdim out).
Proof.
  intros Hout. unfold _take_kernel.
  apply (keeps_first_bind k _ _ (fun _ => True)); [|done|].
  { apply keeps_first_only_allocates. alloc_solve. }
  intros bidx _. by apply keeps_first_call_out.
Qed.

Lemma keeps_first_take_gather k a l r idx :
  keeps_first k (take_gather a l r idx None).
Proof.
  unfold take_gather.
  apply (keeps_first_bind k _ _ (fun out => (k <= data out)%nat)).
  - apply keeps_first_only_allocates. alloc_solve.
  - intros h out h' Hk [= <- <-]. exact Hk.
  - intros out Hout.
    apply (keeps_first_bind k _ _ (fun _ => True)); [|done|].
    { apply keeps_first_only_allocates. alloc_solve. }
    intros idx' _. by apply keeps_first_take_kernel.
Qed.

(** The prologue of [take] and its scalar path only allocate. *)
Lemma only_allocates_take_prologue a axis :
  only_allocates
    (match axis with
     | None => bind (cupy.ravel a) (fun a => ret (a, [], []))
     | Some axis =>
         if axis >=? ndim a
         then raise (ValueError "Axis overrun")
         else ret (a, slice_to (shape a) axis, slice_from (shape a) (axis + 1))
     end).
Proof. alloc_solve. Qed.

Lemma keeps_first_take k a indices axis : keeps_first k (take a indices axis None).
Proof.
  unfold take.
  apply (keeps_first_bind k _ _ (fun _ => True)); [|done|].
  { apply keeps_first_only_allocates, only_allocates_take_prologue. }
  intros [[a' l] r] _. destruct indices as [i|idx|li].
  - apply keeps_first_only_allocates. alloc_solve.
  - apply keeps_first_take_gather.
  - apply (keeps_first_bind k _ _ (fun _ => True)); [|done|].
    { apply keeps_first_only_allocates. alloc_solve. }
    intros idx _. apply keeps_first_take_gather.
Qed.

Lemma keeps_first_prefix (h h' : heap) :
  (length h <= length h')%nat -> list.take (length h) h' = list.take (length h) h ->
  h `prefix_of` h'.
Proof.
  intros Hl Ht. exists (drop (length h) h').
  rewrite <- (take_drop (length h) h') at 1. rewrite Ht.
  by rewrite firstn_all.
Qed.

(** The array that the gather into a new output returns lives in the buffer
    that the gather allocates first. *)
Lemma take_gather_result a l r idx h res h' :
  take_gather a l r idx None h = (Ok res, h') ->
  data res = length h /\ (length h < length h')%nat.
Proof.
  unfold take_gather. intros H.
  apply bind_Ok_inv in H as (out & h2 & Hout & H).
  injection Hout as <- <-.
  assert (keeps_first (length h)
            (idx' <- cupy.reshape idx
                       (replicate (length l) 1 ++ shape idx ++ replicate (length r) 1) ;;
             _take_kernel a idx' (size idx) (internal.prod r)
               (cupy.c_array (length h) (l ++ shape idx ++ r) (dtype_of a)))) as Hk.
  { apply (keeps_first_bind _ _ _ (fun _ => True)); [|done|].
    { apply keeps_first_only_allocates. alloc_solve. }
    intros idx' _. by apply keeps_first_take_kernel. }
  apply Hk in H as Hlen; [|rewrite length_app; lia].
  destruct Hlen as [Hlen _]. rewrite length_app in Hlen. simpl in Hlen.
  apply bind_Ok_inv in H as (idx' & h3 & _ & H).
  unfold _take_kernel in H.
  apply bind_Ok_inv in H as (bidx & h4 & _ & H).
  unfold elementwise.call_out in H.
  apply bind_Ok_inv in H as (vals & h5 & _ & H).
  apply bind_Ok_inv in H as (u & h6 & _ & H).
  injection H as <- <-. simpl. split; [done|lia].
Qed.

(** X12: [take] without an output argument changes no buffer that existed
    before the call, whatever the source, the indices (scalar, array or
    list) and the axis, and however the call ends; an array it returns lives
    in a buffer that the call allocated. *)
Theorem take_keeps_store a indices axis h r h' :
  take a indices axis None h = (r, h') ->
  h `prefix_of` h'
  /\ forall res, r = Ok res -> h !! data res = None /\ is_Some (h' !! data res).
Proof.
  intros Hrun.
  destruct (keeps_first_take (length h) a indices axis h r h' (le_n _) Hrun) as [Hl Ht].
  split; [by apply keeps_first_prefix|].
  intros res ->. unfold take in Hrun.
  apply bind_Ok_inv in Hrun as ([[a' l] rr] & h1 & Hpro & Hrun).
  pose proof (only_allocates_take_prologue a axis _ _ _ Hpro) as [x ->].
  assert (forall idx hA, (length h <= length hA)%nat ->
            take_gather a' l rr idx None hA = (Ok res, h') ->
            h !! data res = None /\ is_Some (h' !! data res)) as Hg.
  { intros idx hA HA Hgr.
    destruct (take_gather_result _ _ _ _ _ _ _ Hgr) as [-> Hlt].
    split; [apply lookup_ge_None; lia|apply lookup_lt_is_Some; lia]. }
  destruct indices as [i|idx|li].
  - assert (returns_fresh (a0 <- cupy.rollaxis a' axis ;;
                           v <- cupy.getitem a0 i ;; cupy.copy v)) as Hf.
    { unfold cupy.copy. repeat fresh_step. }
    destruct (Hf _ _ _ Hrun) as [Hnone Hsome]. split; [|done].
    apply lookup_ge_None. apply lookup_ge_None in Hnone.
    rewrite length_app in Hnone. lia.
  - apply (Hg idx (h ++ x)); [rewrite length_app; lia|done].
  - apply bind_Ok_inv in Hrun as (idx & h2 & Harr & Hrun).
    apply (Hg idx h2); [|done].
    injection Harr as <- <-. rewrite !length_app. lia.
Qed.

Lemma take_keeps_store_witness :
  Ex.store0 `prefix_of` (take Ex.a23 (IList [0; 2]) (Some 1) None Ex.store0).2.
Proof.
  apply (take_keeps_store Ex.a23 (IList [0; 2]) (Some 1) Ex.store0
           (take Ex.a23 (IList [0; 2]) (Some 1) None Ex.store0).1
           (take Ex.a23 (IList [0; 2]) (Some 1) None Ex.store0).2).
  apply surjective_pairing.
Defined.

(** ** [take]: a negative axis *)

Lemma slice_to_minus_one {A} (l : list A) x : slice_to (l ++ [x]) (-1) = l.
Proof.
  unfold slice_to, slice_bound. change (-1 <? 0) with true. cbv iota.
  rewrite length_app. simpl length.
  replace (Z.to_nat (Z.max 0 (-1 + Z.of_nat (length l + 1)))) with (length l) by lia.
  apply take_app_length.
Qed.

Lemma slice_from_zero {A} (l : list A) : slice_from l 0 = l.
Proof.
  unfold slice_from, slice_bound. change (0 <? 0) with false. cbv iota.
  rewrite Z.min_l by lia. reflexivity.
Qed.

(** X13: [take] does not count a negative axis from the end.  With
    [axis = -1] the call is not rejected, and it does not take along the
    last axis: on a source of shape [l ++ [A]] it runs the gather with the
    whole shape of the source on the right of the indices, so that it either
    returns an array of shape [l ++ indices.shape ++ l ++ [A]] or is
    undefined because a worker reads outside the source. *)
Theorem take_axis_minus_one a idx l A h :
  wf_array h a -> wf_array h idx -> shape a = l ++ [A] ->
  (exists res h',
     take a (IArray idx) (Some (-1)) None h = (Ok res, h')
     /\ shape res = l ++ shape idx ++ l ++ [A])
  \/ (exists h', take a (IArray idx) (Some (-1)) None h = (Undefined, h')).
Proof.
  intros Hwfa Hwfi Hsh.
  pose proof (wf_dims h a Hwfa) as Hdims. rewrite Hsh in Hdims.
  assert (Forall (fun d => 0 <= d) l) as Hl by (by apply Forall_app in Hdims as [? _]).
  assert (take a (IArray idx) (Some (-1)) None h
          = take_gather a l (l ++ [A]) idx None h) as ->.
  { unfold take. unfold bind at 1.
    replace (-1 >=? ndim a) with false
      by (symmetry; rewrite Z.geb_leb; apply Z.leb_gt; unfold ndim; lia).
    cbn [ret]. change (-1 + 1) with 0.
    by rewrite Hsh, slice_to_minus_one, slice_from_zero. }
  destruct (take_gather_run h a l (l ++ [A]) idx Hwfa Hwfi Hl Hdims) as (h' & _ & Hrun).
  destruct (mapM _ _) as [vals|].
  - left. destruct Hrun as [Hrun _]. eexists _, h'. split; [exact Hrun|]. reflexivity.
  - right. by exists h'.
Qed.

Lemma take_axis_minus_one_witness :
  exists res h',
    take (cupy.c_array 0 [1] int64) (IArray (cupy.c_array 1 [1] int64)) (Some (-1)) None
      [[5]; [0]]
    = (Ok res, h')
    /\ shape res = [1; 1].
Proof.
  assert (wf_array [[5]; [0]] (cupy.c_array 0 [1] int64)) as Hwfa.
  { apply (wf_c_array [[5]; [0]] 0 [1] int64 [5]);
      [reflexivity|repeat constructor; discriminate|reflexivity]. }
  assert (wf_array [[5]; [0]] (cupy.c_array 1 [1] int64)) as Hwfi.
  { apply (wf_c_array [[5]; [0]] 1 [1] int64 [0]);
      [reflexivity|repeat constructor; discriminate|reflexivity]. }
  destruct (take_axis_minus_one (cupy.c_array 0 [1] int64) (cupy.c_array 1 [1] int64)
              [] 1 [[5]; [0]] Hwfa Hwfi eq_refl) as [Hok|[h' Hund]].
  - exact Hok.
  - vm_compute in Hund. discriminate.
Defined.

(** ** [take]: the gather into a given output *)

(** The gather into a C-contiguous output argument of the expected dtype and
    shape: the buffer of the output receives the gathered values. *)
Lemma take_gather_into h a l r idx b b0 :
  wf_array h a -> wf_array h idx ->
  Forall (fun d => 0 <= d) l -> Forall (fun d => 0 <= d) r ->
  let oshape := l ++ shape idx ++ r in
  let out := cupy.c_array b oshape (dtype_of a) in
  h !! b = Some b0 -> length b0 = Z.to_nat (internal.prod oshape) ->
  exists h3,
    h `prefix_of` h3
    /\ take_gather a l r idx (Some out) h
       = match mapM (gather_element h a idx (internal.prod r))
                 (indices_upto (internal.prod oshape)) with
         | Some vals => (Ok out, <[b := vals]> h3)
         | None => (Undefined, h3)
         end.
Proof.
  intros Hwfa Hwfi Hl Hr oshape out Hb Hb0.
  set (S' := replicate (length l) 1 ++ shape idx ++ replicate (length r) 1).
  assert (Forall (fun d => 0 <= d) oshape) as Hdims.
  { unfold oshape. rewrite !Forall_app. repeat split; [done| |done].
    apply (wf_dims h idx Hwfi). }
  assert (internal.prod S' = size idx) as HS'.
  { unfold S'. rewrite !prod_app, !prod_replicate_1, (wf_size h idx Hwfi). lia. }
  assert (Forall (fun d => 0 <= d) S') as HS'dims.
  { unfold S'. rewrite !Forall_app. repeat split; try apply Forall_nonneg_ones.
    apply (wf_dims h idx Hwfi). }
  destruct (reshape_ok h idx S' Hwfi HS'dims HS')
    as (idx' & h3 & Hresh & Hp & Hsh' & Hsz' & _ & Hwf' & Hreads).
  assert (length (shape idx') = length oshape) as Hrank.
  { rewrite Hsh'. unfold S', oshape. rewrite !length_app, !length_replicate. done. }
  assert (broadcastable (shape idx') oshape) as Hbc.
  { rewrite Hsh'. unfold S', oshape.
    repeat apply broadcastable_app;
      [apply broadcastable_ones|apply broadcastable_refl|apply broadcastable_ones]. }
  destruct (broadcast_to_same_rank h3 idx' oshape Hwf' Hrank Hbc Hdims)
    as (bidx & Hbto & _ & Hbsh & Hbsz & _ & _ & Hbi).
  assert (mapM (fun i =>
                  ind ← read_flat h3 bidx i;
                  read_flat h3 a
                    ((i ÷ (internal.prod r * size idx) * size idx + ind) * internal.prod r
                     + Z.rem i (internal.prod r)))
               (indices_upto (internal.prod oshape))
          = mapM (gather_element h a idx (internal.prod r))
                 (indices_upto (internal.prod oshape))) as Hbody.
  { apply Forall_mapM_ext. apply Forall_seqZ. intros i Hi.
    apply (take_kernel_body h h3 a idx idx' bidx l r i); try done; lia. }
  exists h3. split; [done|].
  unfold take_gather. unfold bind at 1. fold oshape. fold out.
  cbn [dtype_of shape out cupy.c_array].
  rewrite !bool_decide_eq_true_2 by done. cbn [negb ret].
  unfold bind at 1. fold S'. rewrite Hresh.
  unfold _take_kernel. unfold bind at 1.
  cbn [shape out cupy.c_array]. rewrite Hbto. cbn [or_raise ret].
  unfold elementwise.call_out, elementwise.run.
  unfold bind at 1. unfold bind at 1. unfold get_heap at 1.
  cbn [size out cupy.c_array]. rewrite Hbody.
  destruct (mapM (gather_element h a idx (internal.prod r))
              (indices_upto (internal.prod oshape))) as [vals|] eqn:Hvals; [|reflexivity].
  cbn [device ret]. unfold bind at 1. cbn [modify_heap ret].
  assert (length vals = Z.to_nat (internal.prod oshape)) as Hlen.
  { apply length_mapM in Hvals. unfold indices_upto in Hvals.
    rewrite length_seqZ in Hvals. lia. }
  unfold out.
  rewrite (write_elements_c_array h3 b oshape (dtype_of a) b0 vals); try done.
  by eapply prefix_lookup_Some.
Qed.

(** X14: [take] into an output argument.  With an index array, a valid (or
    unset) axis and an output [out] that is C-contiguous over a buffer of its
    own, of the dtype of the source and of the expected shape, sharing no
    buffer with the source or the indices: if every worker of the gather
    reads inside the indices and the source, the call returns [out] itself,
    whose elements are then the gathered values, and no other buffer that
    existed before the call is changed. *)
Theorem take_into_out a idx axis b b0 h :
  wf_array h a -> wf_array h idx -> valid_axis a axis ->
  let oshape := take_out_shape a (shape idx) axis in
  let out := cupy.c_array b oshape (dtype_of a) in
  h !! b = Some b0 -> length b0 = Z.to_nat (internal.prod oshape) ->
  b <> data a -> b <> data idx ->
  (forall i, 0 <= i < internal.prod oshape ->
     is_Some (gather_element h a idx (take_right_dim a axis) i)) ->
  exists vals h',
    take a (IArray idx) axis (Some out) h = (Ok out, h')
    /\ mapM (gather_element h a idx (take_right_dim a axis))
         (indices_upto (internal.prod oshape)) = Some vals
    /\ elements h' out = Some vals
    /\ (length h <= length h')%nat
    /\ forall b', b' <> b -> (b' < length h)%nat -> h' !! b' = h !! b'.
Proof.
  intros Hwfa Hwfi Hax oshape out Hb Hb0 Hba Hbi Hdef.
  destruct (take_prologue h a axis Hwfa Hax)
    as (a' & h1 & Hpro & Hp & Hdt & Hwf' & Hsz & Hrd).
  set (l := match axis with None => [] | Some axis => slice_to (shape a) axis end) in *.
  set (r := match axis with None => []
            | Some axis => slice_from (shape a) (axis + 1) end) in *.
  assert (Forall (fun d => 0 <= d) l) as Hl.
  { unfold l. destruct axis; [|constructor].
    apply Forall_nonneg_slice_to, (wf_dims h a Hwfa). }
  assert (Forall (fun d => 0 <= d) r) as Hr.
  { unfold r. destruct axis; [|constructor].
    apply Forall_nonneg_slice_from, (wf_dims h a Hwfa). }
  assert (oshape = l ++ shape idx ++ r) as Ho.
  { unfold oshape, take_out_shape, l, r. destruct axis; [done|]. by rewrite app_nil_r. }
  assert (take_right_dim a axis = internal.prod r) as Hrd'.
  { unfold take_right_dim, r. by destruct axis. }
  assert (Forall (fun d => 0 <= d) oshape) as Hdims.
  { rewrite Ho, !Forall_app. repeat split; [done| |done]. apply (wf_dims h idx Hwfi). }
  pose proof (wf_array_prefix h h1 idx Hp Hwfi) as Hwfi1.
  destruct (take_gather_into h1 a' l r idx b b0 Hwf' Hwfi1 Hl Hr) as (h3 & Hp3 & Hg).
  { by eapply prefix_lookup_Some. }
  { by rewrite <- Ho. }
  assert (mapM (gather_element h1 a' idx (internal.prod r))
               (indices_upto (internal.prod (l ++ shape idx ++ r)))
          = mapM (gather_element h a idx (take_right_dim a axis))
                 (indices_upto (internal.prod oshape))) as Hm.
  { rewrite Ho, Hrd'. apply mapM_ext. intros i. unfold gather_element.
    rewrite (read_flat_prefix h h1 idx) by (done || apply Hwfi).
    destruct (read_flat h idx _); [simpl; apply Hrd|done]. }
  rewrite Hm, Hdt, <- Ho in Hg. fold out in Hg.
  destruct (mapM (gather_element h a idx (take_right_dim a axis))
              (indices_upto (internal.prod oshape))) as [vals|] eqn:Hvals.
  2:{ apply mapM_None_1 in Hvals. apply Exists_exists in Hvals as (i & Hi & Hnone).
      apply elem_of_seqZ in Hi. destruct (Hdef i) as [v Hv]; [lia|]. congruence. }
  assert (h `prefix_of` h3) as Hp' by (by etrans).
  assert (b < length h)%nat as Hlt by (by eapply lookup_lt_Some).
  assert (b < length h3)%nat as Hlt3.
  { destruct Hp' as [x ->]. rewrite length_app. lia. }
  exists vals, (<[b := vals]> h3). split_and!.
  - unfold take. unfold bind at 1. rewrite Hpro. exact Hg.
  - reflexivity.
  - apply elements_c_array; [by apply list_lookup_insert_eq|done|].
    apply length_mapM in Hvals. unfold indices_upto in Hvals.
    rewrite length_seqZ in Hvals. lia.
  - rewrite length_insert. destruct Hp' as [x ->]. rewrite length_app. lia.
  - intros b' Hne Hb'. rewrite list_lookup_insert_ne by done.
    destruct Hp' as [x ->]. by rewrite lookup_app_l.
Qed.

Lemma take_into_out_witness :
  exists h',
    take Ex.a23 (IArray Ex.sel_good) None (Some (cupy.c_array 1 [4] int64)) Ex.store0
    = (Ok (cupy.c_array 1 [4] int64), h')
    /\ elements h' (cupy.c_array 1 [4] int64) = Some [10; 30; 20; 20].
Proof.
  assert (1%nat <> data Ex.a23) as Hba by discriminate.
  assert (1%nat <> data Ex.sel_good) as Hbi by discriminate.
  destruct (take_into_out Ex.a23 Ex.sel_good None 1 [0; -1; 5; 1] Ex.store0
              Ex_wf_a23 Ex_wf_sel_good I eq_refl eq_refl Hba Hbi)
    as (vals & h' & Hrun & Hvals & Hel & _).
  - intros i Hi.
    change (internal.prod (take_out_shape Ex.a23 (shape Ex.sel_good) None)) with 4 in Hi.
    assert (i = 0 \/ i = 1 \/ i = 2 \/ i = 3) as [-> | [-> | [-> | ->]]] by lia;
      vm_compute; eauto.
  - vm_compute in Hvals. injection Hvals as <-.
    exists h'. split; [exact Hrun|exact Hel].
Defined.

(** ** [take]: indices outside the source *)

(** X15: [take] does not check the indices.  On the flattened source (no
    axis), an index array with an element that is negative or not below
    [a.size] raises no error: the call is undefined, a worker of the kernel
    reading outside the source.  (Negative indices do not count from the
    end.) *)
Theorem take_flattened_out_of_range a idx inds h :
  wf_array h a -> wf_array h idx ->
  elements h idx = Some inds ->
  Exists (fun k => k < 0 \/ size a <= k) inds ->
  exists h', take a (IArray idx) None None h = (Undefined, h').
Proof.
  intros Hwfa Hwfi Hinds Hbad.
  destruct (take_run h a idx None Hwfa Hwfi I) as (h' & _ & Hrun).
  exists h'.
  destruct (mapM _ _) as [vals|] eqn:Hvals; [|exact Hrun].
  exfalso.
  apply Exists_exists in Hbad as (k & Hin & Hk).
  apply list_elem_of_lookup_1 in Hin as [j Hj].
  pose proof (length_elements h idx inds Hinds) as Hlen.
  pose proof (wf_size h idx Hwfi) as Hsz.
  assert (0 <= Z.of_nat j < internal.prod (shape idx)) as Hji.
  { apply lookup_lt_Some in Hj. lia. }
  pose proof (mapM_lookup_seqZ _ _ _ _ Hvals Hji) as Hv.
  assert (is_Some (vals !! Z.to_nat (Z.of_nat j))) as [v Hsome].
  { apply lookup_lt_is_Some. apply length_mapM in Hvals.
    unfold indices_upto in Hvals. rewrite length_seqZ in Hvals.
    cbn [take_out_shape] in Hvals. lia. }
  rewrite Hsome in Hv. symmetry in Hv.
  unfold gather_element, gather_offset, index_slot, left_block, right_block in Hv.
  cbn [take_right_dim] in Hv. change (internal.prod []) with 1 in Hv.
  rewrite Z.div_1_r, Z.mod_1_r, Z.mul_1_l, Hsz in Hv.
  rewrite (Z.mod_small (Z.of_nat j)), (Z.div_small (Z.of_nat j)) in Hv by lia.
  rewrite <- (elements_lookup h idx inds _ Hinds) in Hv by lia.
  rewrite Nat2Z.id, Hj in Hv. cbn [mbind option_bind] in Hv.
  unfold read_flat in Hv.
  replace ((0 <=? (0 * internal.prod (shape idx) + k) * 1 + 0)
           && ((0 * internal.prod (shape idx) + k) * 1 + 0 <? size a)) with false in Hv;
    [done|].
  symmetry. apply andb_false_iff.
  destruct Hk; [left; apply Z.leb_gt; lia|right; apply Z.ltb_ge; lia].
Qed.

Lemma take_flattened_out_of_range_witness :
  exists h', take Ex.a23 (IArray Ex.sel_bad) None None Ex.store0 = (Undefined, h').
Proof.
  apply (take_flattened_out_of_range Ex.a23 Ex.sel_bad [0; -1; 5; 1] Ex.store0
           Ex_wf_a23 Ex_wf_sel_bad eq_refl).
  apply Exists_cons_tl, Exists_cons_hd. left. reflexivity.
Defined.

(** ** [diagonal]: negative axes *)

(** A transposition that names an axis twice is rejected. *)
Lemma transpose_duplicate a axes h (i j : nat) k1 k2 :
  i <> j -> axes !! i = Some k1 -> axes !! j = Some k2 ->
  subscript (ndim a) k1 = subscript (ndim a) k2 ->
  exists e, cupy.transpose a axes h = (Raise e, h).
Proof.
  intros Hij Hi Hj Hsub. unfold cupy.transpose.
  destruct (mapM (subscript (ndim a)) axes) as [ax|] eqn:Hax; [|by eexists].
  apply mapM_Some_1 in Hax.
  destruct (Forall2_lookup_l _ _ _ _ _ Hax Hi) as (p & Hp & Hs1).
  destruct (Forall2_lookup_l _ _ _ _ _ Hax Hj) as (p' & Hp' & Hs2).
  assert (p' = p) as -> by congruence.
  destruct (bool_decide (NoDup ax)) eqn:Hnd.
  - apply bool_decide_eq_true_1 in Hnd.
    destruct Hij. by apply (NoDup_lookup ax i j p).
  - rewrite andb_false_r. by eexists.
Qed.

(** The two deletions of [diagonal] in the list of axes, for negative axes
    [x < y]: the second one, made on the shortened list, removes the axis
    before the one that [x] denotes. *)
Lemma diagonal_neg_deletions (n : nat) x y :
  - Z.of_nat n <= x -> x < y -> y < 0 ->
  let tr := map Z.of_nat (seq 0 n) in
  exists tr1,
    py_del tr y = Some tr1
    /\ (x = - Z.of_nat n -> py_del tr1 x = None)
    /\ (- Z.of_nat n < x ->
        exists tr2, py_del tr1 x = Some tr2
          /\ length tr2 = (n - 2)%nat
          /\ tr2 !! (Z.to_nat (x + Z.of_nat n) - 1)%nat = Some (x + Z.of_nat n)).
Proof.
  intros Hx Hxy Hy tr.
  assert (length tr = n) as Hlen by (unfold tr; by rewrite length_map, length_seq).
  set (px := Z.to_nat (x + Z.of_nat n)). set (py := Z.to_nat (y + Z.of_nat n)).
  assert (px < py)%nat as Hpxy by lia. assert (py < n)%nat as Hpy by lia.
  exists (delete py tr). split.
  { unfold py_del. rewrite Hlen, subscript_neg by lia. reflexivity. }
  assert (length (delete py tr) = (n - 1)%nat) as Hlen1.
  { rewrite length_delete by (apply lookup_lt_is_Some; lia). lia. }
  split.
  - intros ->. unfold py_del, subscript. rewrite Hlen1.
    replace (- Z.of_nat n <? 0) with true by (symmetry; apply Z.ltb_lt; lia).
    replace (0 <=? - Z.of_nat n + Z.of_nat (n - 1)) with false
      by (symmetry; apply Z.leb_gt; lia).
    reflexivity.
  - intros Hx'. exists (delete (px - 1)%nat (delete py tr)). split_and!.
    + unfold py_del. rewrite Hlen1, subscript_neg by lia. cbn [mbind option_bind].
      do 2 f_equal. lia.
    + rewrite length_delete by (apply lookup_lt_is_Some; lia). lia.
    + rewrite list_lookup_delete_ge by lia.
      replace (S (px - 1)) with px by lia.
      rewrite list_lookup_delete_lt by lia.
      unfold tr. change (map Z.of_nat (seq 0 n)) with (Z.of_nat <$> seq 0 n).
      rewrite list_lookup_fmap, lookup_seq_lt by lia. simpl. f_equal. lia.
Qed.

(** X16: [diagonal] does not accept two negative axes (such as
    [axis1 = -2, axis2 = -1]): for distinct axes within [-ndim, 0) it never
    returns an array and leaves the store as it is.  When the smaller axis
    is [-ndim] (so on every array with two axes) the error is the
    [IndexError] of the second deletion in the list of axes, "list
    assignment index out of range"; otherwise the deletion removes another
    axis than the one named and the transposition is rejected. *)
Theorem diagonal_negative_axes a offset axis1 axis2 h :
  - ndim a <= axis1 < 0 -> - ndim a <= axis2 < 0 -> axis1 <> axis2 ->
  exists e,
    diagonal a offset axis1 axis2 h = (Raise e, h)
    /\ (Z.min axis1 axis2 = - ndim a ->
        e = IndexError "list assignment index out of range").
Proof.
  intros H1 H2 Hne. unfold ndim in *. set (n := length (shape a)) in *.
  assert (forall x y, - Z.of_nat n <= x -> x < y -> y < 0 ->
            (axis1 = x /\ axis2 = y) \/ (axis1 = y /\ axis2 = x) ->
            exists e,
              (forall k : ndarray * Z -> M ndarray,
               (tr <- or_raise (py_del (map Z.of_nat (seq 0 n)) y)
                       (IndexError "list assignment index out of range") ;;
               tr <- or_raise (py_del tr x)
                       (IndexError "list assignment index out of range") ;;
               r <- (if offset >=? 0
                     then a' <- cupy.transpose a (tr ++ [axis1; axis2]) ;; ret (a', offset)
                     else a' <- cupy.transpose a (tr ++ [axis2; axis1]) ;;
                          ret (a', - offset)) ;;
               k r) h = (Raise e, h))
              /\ (x = - Z.of_nat n ->
                  e = IndexError "list assignment index out of range")) as Hcore.
  { intros x y Hx Hxy Hy Hax.
    destruct (diagonal_neg_deletions n x y Hx Hxy Hy) as (tr1 & Hd1 & Hnone & Hsome).
    destruct (decide (x = - Z.of_nat n)) as [Hxn|Hxn].
    - eexists. split; [|done]. intros k.
      unfold bind at 1. rewrite Hd1. cbn [or_raise ret].
      unfold bind at 1. rewrite (Hnone Hxn). reflexivity.
    - destruct Hsome as (tr2 & Hd2 & Hlen2 & Hl2); [lia|].
      assert (subscript (Z.of_nat n) (x + Z.of_nat n) = subscript (Z.of_nat n) x) as Hsub.
      { rewrite subscript_nonneg, subscript_neg by lia. done. }
      assert (exists j, (Z.to_nat (x + Z.of_nat n) - 1)%nat <> j
                /\ (tr2 ++ [axis1; axis2]) !! j = Some x
                /\ exists j', (Z.to_nat (x + Z.of_nat n) - 1)%nat <> j'
                     /\ (tr2 ++ [axis2; axis1]) !! j' = Some x)
        as (j & Hj & Hjx & j' & Hj' & Hjx').
      { destruct Hax as [[-> ->]|[-> ->]].
        - exists (length tr2). split; [lia|]. split.
          + by rewrite lookup_app_r, Nat.sub_diag by lia.
          + exists (S (length tr2)). split; [lia|].
            rewrite lookup_app_r by lia.
            by replace (S (length tr2) - length tr2)%nat with 1%nat by lia.
        - exists (S (length tr2)). split; [lia|]. split.
          + rewrite lookup_app_r by lia.
            by replace (S (length tr2) - length tr2)%nat with 1%nat by lia.
          + exists (length tr2). split; [lia|].
            by rewrite lookup_app_r, Nat.sub_diag by lia. }
      assert (forall tl, (tr2 ++ tl) !! (Z.to_nat (x + Z.of_nat n) - 1)%nat
                         = Some (x + Z.of_nat n)) as Hi.
      { intros tl. rewrite lookup_app_l by lia. done. }
      destruct (offset >=? 0).
      + destruct (transpose_duplicate a (tr2 ++ [axis1; axis2]) h _ _ _ _
                    Hj (Hi _) Hjx Hsub) as [e He].
        exists e. split; [|done]. intros k.
        unfold bind at 1. rewrite Hd1. cbn [or_raise ret].
        unfold bind at 1. rewrite Hd2. cbn [or_raise ret].
        unfold bind at 1. unfold bind at 1. by rewrite He.
      + destruct (transpose_duplicate a (tr2 ++ [axis2; axis1]) h _ _ _ _
                    Hj' (Hi _) Hjx' Hsub) as [e He].
        exists e. split; [|done]. intros k.
        unfold bind at 1. rewrite Hd1. cbn [or_raise ret].
        unfold bind at 1. rewrite Hd2. cbn [or_raise ret].
        unfold bind at 1. unfold bind at 1. by rewrite He. }
  unfold diagonal. fold n.
  destruct (axis1 <? axis2) eqn:E.
  - apply Z.ltb_lt in E.
    destruct (Hcore axis1 axis2) as (e & He & Hmin); [lia|lia|lia|by left|].
    exists e. split; [apply He|]. intros Hm. apply Hmin. lia.
  - apply Z.ltb_ge in E.
    destruct (Hcore axis2 axis1) as (e & He & Hmin); [lia|lia|lia|by right|].
    exists e. split; [apply He|]. intros Hm. apply Hmin. lia.
Qed.

Lemma diagonal_negative_axes_witness :
  diagonal Ex.a33 0 (-2) (-1) Ex.store0
  = (Raise (IndexError "list assignment index out of range"), Ex.store0).
Proof.
  assert (- ndim Ex.a33 <= -2 < 0) as H1 by (vm_compute; split; [discriminate|reflexivity]).
  assert (- ndim Ex.a33 <= -1 < 0) as H2 by (vm_compute; split; [discriminate|reflexivity]).
  assert (-2 <> -1) as Hne by discriminate.
  destruct (diagonal_negative_axes Ex.a33 0 (-2) (-1) Ex.store0 H1 H2 Hne)
    as (e & Hrun & He).
  rewrite Hrun, (He eq_refl). reflexivity.
Defined.

(** ** [take]: a scalar index and an output argument *)

(** The view [cupy.rollaxis(a, axis)[k]] of a well-formed array is well
    formed, and shows the slice [k] along the axis. *)
Lemma take_slice_view a l A r k h :
  wf_array h a -> shape a = l ++ [A] ++ r -> 0 <= k < A ->
  exists a' v,
    cupy.rollaxis a (Some (Z.of_nat (length l))) h = (Ok a', h)
    /\ cupy.getitem a' k h = (Ok v, h)
    /\ shape v = l ++ r /\ dtype_of v = dtype_of a
    /\ wf_array h v
    /\ forall li ri, valid_index l li -> valid_index r ri ->
         at_index h v (li ++ ri) = at_index h a (li ++ [k] ++ ri).
Proof.
  intros Hwfa Hsh Hk.
  destruct (rollaxis_getitem a l A r k h (wf_strides h a Hwfa) Hsh Hk)
    as (a' & v & Hroll & Hget & Hdata & Hvsh & Hvdt & Hvsz & Hvst & Hvc & Haddr).
  pose proof (wf_dims h a Hwfa) as Hdims. rewrite Hsh in Hdims.
  apply Forall_app in Hdims as [Hl Hdims]. apply Forall_app in Hdims as [_ Hr].
  assert (forall li ri, valid_index l li -> valid_index r ri ->
            at_index h v (li ++ ri) = at_index h a (li ++ [k] ++ ri)) as Hat.
  { intros li ri Hvl Hvr.
    unfold at_index. rewrite Hdata, Haddr; [done| |];
      symmetry; eapply Forall2_length; eassumption. }
  exists a', v. split_and!; try done.
  split; try done.
  - rewrite Hdata. apply (wf_alloc h a Hwfa).
  - rewrite Hvsh. by apply Forall_app.
  - by rewrite Hvsh.
  - rewrite Hvc. discriminate.
  - intros idx Hv. rewrite Hvsh in Hv.
    apply valid_index_app_inv in Hv as (li & ri & -> & Hvl & Hvr).
    rewrite (Hat li ri Hvl Hvr).
    apply (wf_bounds h a Hwfa). rewrite Hsh.
    apply valid_index_app; [done|]. apply valid_index_app; [|done].
    constructor; [exact Hk|constructor].
Qed.

(** X17: [take] with a scalar index and an output argument writes the slice
    into the output.  For a source of shape [l ++ [A] ++ r], the axis that
    follows [l], an index [k] within [0, A) and an output that is
    C-contiguous over a buffer of its own (not the one of the source), of
    shape [l ++ r], the call returns the output itself, with
    [out[li ++ ri] = source[li ++ [k] ++ ri]] at every position; only the
    buffer of the output changes, and nothing is allocated. *)
Theorem take_scalar_into_out a k l A r b b0 h :
  wf_array h a -> shape a = l ++ [A] ++ r -> 0 <= k < A ->
  let out := cupy.c_array b (l ++ r) (dtype_of a) in
  h !! b = Some b0 -> length b0 = Z.to_nat (internal.prod (l ++ r)) ->
  b <> data a ->
  exists vals,
    take a (IScalar k) (Some (Z.of_nat (length l))) (Some out) h
    = (Ok out, <[b := vals]> h)
    /\ forall li ri, valid_index l li -> valid_index r ri ->
         exists v,
           at_index h a (li ++ [k] ++ ri) = Some v
           /\ at_index (<[b := vals]> h) out (li ++ ri) = Some v.
Proof.
  intros Hwfa Hsh Hk out Hb Hb0 Hba.
  destruct (take_slice_view a l A r k h Hwfa Hsh Hk)
    as (a' & v & Hroll & Hget & Hvsh & Hvdt & Hwfv & Hat).
  pose proof (wf_dims h v Hwfv) as Hdims. rewrite Hvsh in Hdims.
  destruct (broadcast_to_same_rank h v (l ++ r) Hwfv) as
    (bv & Hbto & _ & Hbsh & Hbsz & _ & Hwfb & Hbat);
    [by rewrite Hvsh|rewrite Hvsh; apply broadcastable_refl|done|].
  destruct (elements_wf h bv Hwfb) as [vals Hvals].
  pose proof (length_elements h bv vals Hvals) as Hlen. rewrite Hbsz in Hlen.
  exists vals. split.
  { unfold take. unfold bind at 1. unfold ndim. rewrite Hsh.
    replace (Z.of_nat (length l) >=? Z.of_nat (length (l ++ [A] ++ r))) with false.
    2:{ symmetry. rewrite Z.geb_leb. apply Z.leb_gt. rewrite !length_app. simpl. lia. }
    cbn [ret]. unfold bind at 1. rewrite Hroll.
    unfold bind at 1. rewrite Hget.
    unfold bind at 1. unfold cupy.setitem_all.
    unfold bind at 1. cbn [shape out cupy.c_array]. rewrite Hbto. cbn [or_raise ret].
    unfold bind at 1. unfold get_heap at 1.
    unfold bind at 1. rewrite Hvals. cbn [device ret modify_heap].
    unfold out.
    by rewrite (write_elements_c_array h b (l ++ r) (dtype_of a) b0 vals). }
  intros li ri Hvl Hvr.
  assert (valid_index (l ++ r) (li ++ ri)) as Hv by (by apply valid_index_app).
  destruct (wf_bounds h v Hwfv (li ++ ri)) as [x Hx]; [by rewrite Hvsh|].
  exists x. split; [by rewrite <- Hat|].
  unfold out. rewrite (at_index_c_array _ _ _ _ vals);
    [|apply list_lookup_insert_eq; by eapply lookup_lt_Some|done].
  pose proof (dot_valid_bounds _ _ Hv) as Hbd.
  rewrite (elements_lookup h bv vals _ Hvals) by (by rewrite Hbsz).
  rewrite <- Hbsh, (read_flat_dot h bv) by (done || by rewrite Hbsh).
  destruct (Hbat _ Hv) as [_ ->].
  rewrite Hvsh, broadcast_index_valid by done. exact Hx.
Qed.

Lemma take_scalar_into_out_witness :
  exists h',
    take Ex.a23 (IScalar 2) (Some 1) (Some (cupy.c_array 4 [2] int64)) Ex.store0
    = (Ok (cupy.c_array 4 [2] int64), h')
    /\ at_index h' (cupy.c_array 4 [2] int64) [0] = Some 30
    /\ at_index h' (cupy.c_array 4 [2] int64) [1] = Some 60.
Proof.
  assert (0 <= 2 < 3) as Hk by (split; [discriminate|reflexivity]).
  assert (4%nat <> data Ex.a23) as Hba by discriminate.
  destruct (take_scalar_into_out Ex.a23 2 [2] 3 [] 4 [7; 8] Ex.store0
              Ex_wf_a23 eq_refl Hk eq_refl eq_refl Hba) as (vals & Hrun & Hel).
  exists (<[4%nat := vals]> Ex.store0). split; [exact Hrun|]. split.
  - destruct (Hel [0] []) as (v & Hv & Hr).
    + repeat constructor; (discriminate || reflexivity).
    + constructor.
    + vm_compute in Hv. injection Hv as <-. exact Hr.
  - destruct (Hel [1] []) as (v & Hv & Hr).
    + repeat constructor; (discriminate || reflexivity).
    + constructor.
    + vm_compute in Hv. injection Hv as <-. exact Hr.
Defined.
